(** * TS_STL: the synchronisation core of [ts_stl_base.hpp]

    A shallow embedding of the lock policy, the spin lock, the unified
    guard, the lock holder and the CRTP container mixin, together with
    the properties the design document states about them.

    The code is multi-threaded; the embedding is the sequential reading
    of one thread's calls against a store of synchronisation primitives.
    A call that would wait on a primitive that is held does not return
    in that reading and is reported as [Blocks]. *)

From Stdlib Require Import ZArith String.
From stdpp Require Import gmap list.

Local Open Scope Z_scope.

(** ** Outcomes of a call *)

(** [std::logic_error] is the only exception this layer throws. *)
Inductive exception : Type :=
  | logic_error (what : string).

(** What a call can do: return a value, throw, never return (it waits
    or spins on a held primitive), or leave defined behaviour (a null or
    dangling dereference, an unlock of a mutex that is not held, the use
    of an object whose lifetime has ended). *)
Inductive outcome (St A : Type) : Type :=
  | Ret (a : A) (s : St)
  | Throw (e : exception) (s : St)
  | Blocks
  | Undefined.

Arguments Ret {St A} a s.
Arguments Throw {St A} e s.
Arguments Blocks {St A}.
Arguments Undefined {St A}.

Definition M (St A : Type) : Type := St -> outcome St A.

Definition ret {St A} (a : A) : M St A := fun s => Ret a s.

Definition bind {St A B} (c : M St A) (k : A -> M St B) : M St B :=
  fun s =>
    match c s with
    | Ret a s' => k a s'
    | Throw e s' => Throw e s'
    | Blocks => Blocks
    | Undefined => Undefined
    end.

Definition throw {St A} (e : exception) : M St A := fun s => Throw e s.

Notation "'let*' x ':=' c 'in' k" := (bind c (fun x => k))
  (at level 10, x pattern, c at level 100, k at level 200).
Notation "c ';;' k" := (bind c (fun _ => k))
  (at level 100, k at level 200, right associativity).

(** A scope with an object whose destructor is [cleanup]: the
    destructor runs when [body] returns and when it throws, and the
    exception then goes on to the caller. *)
Definition finally {St A} (cleanup : M St unit) (body : M St A) : M St A :=
  fun s =>
    match body s with
    | Ret a s' => (cleanup ;; ret a) s'
    | Throw e s' => (cleanup ;; throw e) s'
    | Blocks => Blocks
    | Undefined => Undefined
    end.

(** [std::out_of_range] is derived from [std::logic_error]; it is
    recorded as one, with its message. *)
Definition out_of_range (what : string) : exception := logic_error what.

(** [std::length_error] is derived from [std::logic_error] too. *)
Definition length_error (what : string) : exception := logic_error what.

(** ** The store of synchronisation primitives *)

Abbreviation addr := nat (only parsing).

(** State of a [std::shared_mutex]: held by one writer, or by a number
    of readers. *)
Record shared_state : Type := SharedState {
  writer : bool;
  readers : nat
}.

(** State of a [SpinLock]: its [std::atomic_flag]. *)
Record spin_state : Type := SpinState {
  flag_ : bool
}.

(** Every operation on a primitive is recorded, in program order.
    [ReadData] is no operation on a primitive: it marks the point at
    which a query helper of the mixin reads the protected container, so
    that the record shows on which side of the lock operations the read
    falls. *)
Inductive event : Type :=
  | MutexLock (a : addr)
  | MutexUnlock (a : addr)
  | TestAndSet (a : addr) (was_set : bool)
  | Clear (a : addr)
  | SharedLock (a : addr)
  | SharedUnlock (a : addr)
  | SharedLockShared (a : addr)
  | SharedUnlockShared (a : addr)
  | ReadData.

Global Instance event_eq_dec : EqDecision event.
Proof. solve_decision. Defined.

Record World : Type := mkWorld {
  mutexes : gmap nat bool;
  spinlocks : gmap nat spin_state;
  shared_mutexes : gmap nat shared_state;
  trace : list event
}.

Definition log (e : event) (w : World) : World :=
  mkWorld (mutexes w) (spinlocks w) (shared_mutexes w) (trace w ++ [e]).

Definition set_mutex (a : addr) (b : bool) (w : World) : World :=
  mkWorld (<[a := b]> (mutexes w)) (spinlocks w) (shared_mutexes w) (trace w).

Definition set_spin (a : addr) (s : spin_state) (w : World) : World :=
  mkWorld (mutexes w) (<[a := s]> (spinlocks w)) (shared_mutexes w) (trace w).

Definition set_shared (a : addr) (s : shared_state) (w : World) : World :=
  mkWorld (mutexes w) (spinlocks w) (<[a := s]> (shared_mutexes w)) (trace w).

Definition empty_world : World := mkWorld ∅ ∅ ∅ [].

(** ** [class SpinLock] *)

Module SpinLock.

(** [flag_.test_and_set(std::memory_order_acquire)]: sets the flag and
    returns the value it had. *)
Definition test_and_set (this : addr) : M World bool := fun w =>
  match spinlocks w !! this with
  | None => Undefined
  | Some s =>
      Ret (flag_ s) (log (TestAndSet this (flag_ s)) (set_spin this (SpinState true) w))
  end.

(** [flag_.clear(std::memory_order_release)]. *)
Definition clear (this : addr) : M World unit := fun w =>
  match spinlocks w !! this with
  | None => Undefined
  | Some _ => Ret tt (log (Clear this) (set_spin this (SpinState false) w))
  end.

(** [void lock()]: [while (flag_.test_and_set(...)) { pause }].  The
    loop is unbounded in the source; [fuel] bounds the iterations the
    model follows, and a loop that has not left by then is [Blocks]. *)
Fixpoint lock (fuel : nat) (this : addr) : M World unit :=
  match fuel with
  | O => fun _ => Blocks
  | S fuel' =>
      let* was_set := test_and_set this in
      if was_set then lock fuel' this else ret tt
  end.

(** [void unlock()]. *)
Definition unlock (this : addr) : M World unit := clear this.

(** [bool try_lock()]: [return !flag_.test_and_set(...)]. *)
Definition try_lock (this : addr) : M World bool :=
  let* was_set := test_and_set this in
  ret (negb was_set).

End SpinLock.

(** ** [class SpinLockGuard] *)

Module SpinLockGuard.

(** [lock_] is a reference member: it is bound by the constructors and
    no assignment changes what it refers to. *)
Record t : Type := Guard {
  lock_ : addr;
  owns_lock_ : bool
}.

(** [explicit SpinLockGuard(SpinLock& lock)]. *)
Definition ctor (fuel : nat) (lock : addr) : M World t :=
  let this := Guard lock false in
  SpinLock.lock fuel (lock_ this) ;;
  ret (Guard (lock_ this) true).

(** [~SpinLockGuard()]. *)
Definition dtor (this : t) : M World unit :=
  if owns_lock_ this then SpinLock.unlock (lock_ this) else ret tt.

(** [SpinLockGuard(SpinLockGuard&& other)]: the new guard and what is
    left of [other]. *)
Definition move_ctor (other : t) : M World (t * t) :=
  let this := Guard (lock_ other) (owns_lock_ other) in
  ret (this, Guard (lock_ other) false).

(** [operator=(SpinLockGuard&& other)] for [this != &other]: the new
    [this] and what is left of [other]. *)
Definition move_assign (this other : t) : M World (t * t) :=
  (if owns_lock_ this then SpinLock.unlock (lock_ this) else ret tt) ;;
  ret (Guard (lock_ this) (owns_lock_ other), Guard (lock_ other) false).

(** [operator=(SpinLockGuard&& other)] for [this == &other]. *)
Definition move_assign_self (this : t) : M World t := ret this.

End SpinLockGuard.

(** ** The standard library's primitives

    [std::mutex], [std::shared_mutex], [std::unique_lock] and
    [std::shared_lock] are not part of the repository; they are modelled
    after the C++ standard.

    The store records that a primitive is held, not by which thread.  A
    held [std::mutex] or [std::shared_mutex] is read as held by another
    thread, so that the caller waits.  A thread that locks one it holds
    itself is outside this reading: C++ leaves that undefined, and
    libstdc++ reports it for a [std::shared_mutex] with
    [std::system_error]. *)

Module std.

Module mutex.

(** [lock()]: waits while another thread holds the mutex. *)
Definition lock (this : addr) : M World unit := fun w =>
  match mutexes w !! this with
  | None => Undefined
  | Some true => Blocks
  | Some false => Ret tt (log (MutexLock this) (set_mutex this true w))
  end.

(** [unlock()]: the mutex must be held. *)
Definition unlock (this : addr) : M World unit := fun w =>
  match mutexes w !! this with
  | Some true => Ret tt (log (MutexUnlock this) (set_mutex this false w))
  | _ => Undefined
  end.

End mutex.

Module shared_mutex.

(** [lock()]: waits while another thread holds the mutex, as a writer
    or as a reader. *)
Definition lock (this : addr) : M World unit := fun w =>
  match shared_mutexes w !! this with
  | None => Undefined
  | Some s =>
      if writer s || negb (readers s =? 0)%nat then Blocks
      else Ret tt (log (SharedLock this) (set_shared this (SharedState true 0) w))
  end.

Definition unlock (this : addr) : M World unit := fun w =>
  match shared_mutexes w !! this with
  | None => Undefined
  | Some s =>
      if writer s
      then Ret tt (log (SharedUnlock this) (set_shared this (SharedState false (readers s)) w))
      else Undefined
  end.

(** [lock_shared()]: waits while another thread holds the mutex as a
    writer. *)
Definition lock_shared (this : addr) : M World unit := fun w =>
  match shared_mutexes w !! this with
  | None => Undefined
  | Some s =>
      if writer s then Blocks
      else Ret tt (log (SharedLockShared this)
                     (set_shared this (SharedState false (S (readers s))) w))
  end.

Definition unlock_shared (this : addr) : M World unit := fun w =>
  match shared_mutexes w !! this with
  | None => Undefined
  | Some s =>
      match readers s with
      | O => Undefined
      | S n => Ret tt (log (SharedUnlockShared this)
                         (set_shared this (SharedState (writer s) n) w))
      end
  end.

End shared_mutex.

(** The state of a [std::unique_lock<Mutex>] or [std::shared_lock<Mutex>]:
    the mutex it refers to ([nullptr] is [None]) and whether it owns it. *)
Record lock_t : Type := Lock {
  pm : option addr;
  owns : bool
}.

(** The default-constructed and the moved-from lock. *)
Definition no_lock : lock_t := Lock None false.

(** The lock templates, for a mutex type given by how it is acquired
    and released. *)
Section LockTemplate.
Variables acquire release : addr -> M World unit.

(** [explicit lock(Mutex& m)]: acquires [m]. *)
Definition lock_ctor (m : addr) : M World lock_t :=
  acquire m ;; ret (Lock (Some m) true).

(** [unlock()] as the destructor and the move assignment use it. *)
Definition lock_release (this : lock_t) : M World lock_t :=
  if owns this then
    match pm this with
    | Some m => release m ;; ret (Lock (pm this) false)
    | None => ret this
    end
  else ret this.

(** [~lock()]: releases the mutex if it is owned.  The result is
    what the destructor leaves in the members; the object is not alive
    afterwards, and nothing takes the result as a lock again. *)
Definition lock_dtor (this : lock_t) : M World lock_t :=
  lock_release this.

(** [lock(lock&& u)]: the new lock and what is left of [u]. *)
Definition lock_move (u : lock_t) : lock_t * lock_t :=
  (Lock (pm u) (owns u), no_lock).

(** [operator=(lock&& u)]: releases what [this] owns, then takes
    over [u]. The result is the new [this] and what is left of [u]. *)
Definition lock_move_assign (this u : lock_t) : M World (lock_t * lock_t) :=
  lock_release this ;; ret (lock_move u).

End LockTemplate.

(** [std::unique_lock<std::mutex>] *)
Module unique_lock_mutex.
Definition ctor := lock_ctor mutex.lock.
Definition dtor := lock_dtor mutex.unlock.
Definition move_assign := lock_move_assign mutex.unlock.
End unique_lock_mutex.

(** [std::unique_lock<std::shared_mutex>] *)
Module unique_lock_shared_mutex.
Definition ctor := lock_ctor shared_mutex.lock.
Definition dtor := lock_dtor shared_mutex.unlock.
Definition move_assign := lock_move_assign shared_mutex.unlock.
End unique_lock_shared_mutex.

(** [std::shared_lock<std::shared_mutex>] *)
Module shared_lock_shared_mutex.
Definition ctor := lock_ctor shared_mutex.lock_shared.
Definition dtor := lock_dtor shared_mutex.unlock_shared.
Definition move_assign := lock_move_assign shared_mutex.unlock_shared.
End shared_lock_shared_mutex.

(** [std::make_unique<T>()]: a new object at an address not in use. *)
Definition make_unique_mutex : M World addr := fun w =>
  let a := fresh (dom (mutexes w)) in Ret a (set_mutex a false w).

Definition make_unique_SpinLock : M World addr := fun w =>
  let a := fresh (dom (spinlocks w)) in Ret a (set_spin a (SpinState false) w).

Definition make_unique_shared_mutex : M World addr := fun w =>
  let a := fresh (dom (shared_mutexes w)) in
  Ret a (set_shared a (SharedState false 0) w).

End std.

(** ** [enum class LockPolicy] *)

Module LockPolicy.

Inductive t : Type :=
  | Mutex
  | SpinLock
  | LockFree
  | ReadWrite.

Global Instance eq_dec : EqDecision t.
Proof. solve_decision. Defined.

(** [p == q] on the enumeration. *)
Definition eqb (p q : t) : bool :=
  match p, q with
  | Mutex, Mutex | SpinLock, SpinLock | LockFree, LockFree
  | ReadWrite, ReadWrite => true
  | _, _ => false
  end.

End LockPolicy.

(** ** [class UnifiedLockGuard] *)

Module UnifiedLockGuard.

(** The four data members, in the order of their declaration. *)
Record t : Type := Guard {
  spinlock_ : option addr;
  lock_type_ : Z;
  mutex_lock_ : std.lock_t;
  rw_lock_ : std.lock_t
}.

(** [UnifiedLockGuard(std::unique_lock<std::mutex>&& lock)]: the guard,
    and what is left of the argument. *)
Definition from_mutex_lock (lock : std.lock_t) : M World (t * std.lock_t) :=
  let (mine, rest) := std.lock_move lock in
  ret (Guard None 0 mine std.no_lock, rest).

(** [UnifiedLockGuard(SpinLock& lock)]. *)
Definition from_SpinLock (fuel : nat) (lock : addr) : M World t :=
  let this := Guard (Some lock) 1 std.no_lock std.no_lock in
  SpinLock.lock fuel lock ;;
  ret this.

(** [UnifiedLockGuard(NullLockGuard&&)]. *)
Definition from_NullLockGuard : M World t :=
  ret (Guard None 3 std.no_lock std.no_lock).

(** [UnifiedLockGuard(std::unique_lock<std::shared_mutex>&& lock)]. *)
Definition from_rw_lock (lock : std.lock_t) : M World (t * std.lock_t) :=
  let (mine, rest) := std.lock_move lock in
  ret (Guard None 2 std.no_lock mine, rest).

(** [~UnifiedLockGuard()]: the body, then the destructors of the
    members in the reverse order of their declaration.  The result is
    what the destructor leaves in the members; the object is not alive
    afterwards, and nothing takes the result as a guard again. *)
Definition dtor (this : t) : M World t :=
  (if (lock_type_ this =? 1)
   then match spinlock_ this with
        | Some p => SpinLock.unlock p
        | None => ret tt
        end
   else ret tt) ;;
  let* rw := std.unique_lock_shared_mutex.dtor (rw_lock_ this) in
  let* mx := std.unique_lock_mutex.dtor (mutex_lock_ this) in
  ret (Guard (spinlock_ this) (lock_type_ this) mx rw).

(** The member moves of the move constructor:
    [if (other.lock_type_ == 0) mutex_lock_ = std::move(other.mutex_lock_);
     else if (other.lock_type_ == 2) rw_lock_ = std::move(other.rw_lock_);
     other.spinlock_ = nullptr; other.lock_type_ = -1;] *)
Definition take_payload (this other : t) : M World (t * t) :=
  if lock_type_ other =? 0 then
    let* (mine, rest) := std.unique_lock_mutex.move_assign (mutex_lock_ this) (mutex_lock_ other) in
    ret (Guard (spinlock_ this) (lock_type_ this) mine (rw_lock_ this),
         Guard None (-1) rest (rw_lock_ other))
  else if lock_type_ other =? 2 then
    let* (mine, rest) := std.unique_lock_shared_mutex.move_assign (rw_lock_ this) (rw_lock_ other) in
    ret (Guard (spinlock_ this) (lock_type_ this) (mutex_lock_ this) mine,
         Guard None (-1) (mutex_lock_ other) rest)
  else
    ret (this, Guard None (-1) (mutex_lock_ other) (rw_lock_ other)).

(** [UnifiedLockGuard(UnifiedLockGuard&& other)]: the new guard and
    what is left of [other]. *)
Definition move_ctor (other : t) : M World (t * t) :=
  let this := Guard (spinlock_ other) (lock_type_ other) std.no_lock std.no_lock in
  take_payload this other.

(** [operator=(UnifiedLockGuard&& other)] for [this != &other].  Its
    first statement is [this->~UnifiedLockGuard()], which ends the
    lifetime of [*this].  The statements after it assign to the members
    of that object, and the destructor runs for it a second time at the
    end of its scope: C++ leaves both undefined, so the call has no
    defined result once the destructor has returned. *)
Definition move_assign (this other : t) : M World (t * t) :=
  dtor this ;;
  fun _ => Undefined.

(** [operator=(UnifiedLockGuard&& other)] for [this == &other]. *)
Definition move_assign_self (this : t) : M World t := ret this.

End UnifiedLockGuard.

(** ** [class LockGuard], the lock holder *)

Module LockGuard.

(** [policy_] and the three [std::unique_ptr] members. *)
Record t : Type := Holder {
  policy_ : LockPolicy.t;
  mutex_ : option addr;
  spinlock_ : option addr;
  shared_mutex_ : option addr
}.

(** [explicit LockGuard(LockPolicy policy = LockPolicy::Mutex)]. *)
Definition ctor (policy : LockPolicy.t) : M World t :=
  let this := Holder policy None None None in
  if LockPolicy.eqb policy LockPolicy.Mutex then
    let* p := std.make_unique_mutex in
    ret (Holder (policy_ this) (Some p) (spinlock_ this) (shared_mutex_ this))
  else if LockPolicy.eqb policy LockPolicy.SpinLock then
    let* p := std.make_unique_SpinLock in
    ret (Holder (policy_ this) (mutex_ this) (Some p) (shared_mutex_ this))
  else if LockPolicy.eqb policy LockPolicy.ReadWrite then
    let* p := std.make_unique_shared_mutex in
    ret (Holder (policy_ this) (mutex_ this) (spinlock_ this) (Some p))
  else ret this.

(** Dereferencing a [std::unique_ptr]. *)
Definition deref (p : option addr) : M World addr :=
  match p with
  | Some a => ret a
  | None => fun _ => Undefined
  end.

(** [UnifiedLockGuard write_lock() const]. *)
Definition write_lock (fuel : nat) (this : t) : M World UnifiedLockGuard.t :=
  if LockPolicy.eqb (policy_ this) LockPolicy.Mutex then
    let* m := deref (mutex_ this) in
    let* tmp := std.unique_lock_mutex.ctor m in
    let* (g, tmp) := UnifiedLockGuard.from_mutex_lock tmp in
    std.unique_lock_mutex.dtor tmp ;;
    ret g
  else if LockPolicy.eqb (policy_ this) LockPolicy.SpinLock then
    let* s := deref (spinlock_ this) in
    UnifiedLockGuard.from_SpinLock fuel s
  else if LockPolicy.eqb (policy_ this) LockPolicy.LockFree then
    UnifiedLockGuard.from_NullLockGuard
  else
    throw (logic_error "Cannot acquire write_lock on ReadWrite policy").

(** [UnifiedLockGuard lock() const]. *)
Definition lock (fuel : nat) (this : t) : M World UnifiedLockGuard.t :=
  write_lock fuel this.

(** [std::shared_lock<std::shared_mutex> read_lock() const]. *)
Definition read_lock (this : t) : M World std.lock_t :=
  if LockPolicy.eqb (policy_ this) LockPolicy.ReadWrite then
    let* m := deref (shared_mutex_ this) in
    std.shared_lock_shared_mutex.ctor m
  else
    throw (logic_error "Cannot acquire read_lock on Mutex policy").

(** [std::unique_lock<std::shared_mutex> unique_lock_rw() const]. *)
Definition unique_lock_rw (this : t) : M World std.lock_t :=
  if LockPolicy.eqb (policy_ this) LockPolicy.ReadWrite then
    let* m := deref (shared_mutex_ this) in
    std.unique_lock_shared_mutex.ctor m
  else
    throw (logic_error "Cannot acquire unique_lock_rw on Mutex policy").

(** [LockPolicy policy() const]. *)
Definition policy (this : t) : LockPolicy.t := policy_ this.

End LockGuard.

(** ** [template class container_mixin<Derived, T, Policy>] *)

Module container_mixin.

(** What the members return: [auto] is deduced per policy as the
    unified guard, [std::unique_lock<std::shared_mutex>] or
    [std::shared_lock<std::shared_mutex>]. *)
Inductive guard : Type :=
  | Unified (g : UnifiedLockGuard.t)
  | UniqueRW (l : std.lock_t)
  | SharedRW (l : std.lock_t).

(** The destructor a guard of that type runs at the end of its scope. *)
Definition guard_dtor (g : guard) : M World unit :=
  match g with
  | Unified g => UnifiedLockGuard.dtor g ;; ret tt
  | UniqueRW l => std.unique_lock_shared_mutex.dtor l ;; ret tt
  | SharedRW l => std.shared_lock_shared_mutex.dtor l ;; ret tt
  end.

(** [size_type] is 64 bits wide. *)
Definition size_type_modulus : Z := 2 ^ 64.

Section Mixin.
Context {T : Type}.
(** [operator==] of the element type. *)
Variable eqT : T -> T -> bool.
(** The template argument. *)
Variable Policy : LockPolicy.t.

(** The derived object as the mixin uses it: its own [lock_guard_]
    and the derived class's [data_], a sequence in iteration order. *)
Record Derived : Type := Object {
  lock_guard_ : LockGuard.t;
  data_ : list T
}.

(** The members run against the object and the store. *)
Record state : Type := State {
  self : Derived;
  world : World
}.

Definition on_world {A} (c : M World A) : M state A := fun s =>
  match c (world s) with
  | Ret a w => Ret a (State (self s) w)
  | Throw e w => Throw e (State (self s) w)
  | Blocks => Blocks
  | Undefined => Undefined
  end.

Definition derived : M state Derived := fun s => Ret (self s) s.

(** [container_mixin() : lock_guard_(Policy) {}], followed by a
    derived constructor that fills [data_]. *)
Definition ctor (init : list T) : M World Derived :=
  let* lg := LockGuard.ctor Policy in
  ret (Object lg init).

(** [auto acquire_write_lock() const]. *)
Definition acquire_write_lock (fuel : nat) : M state guard :=
  let* this := derived in
  match Policy with
  | LockPolicy.Mutex =>
      let* g := on_world (LockGuard.lock fuel (lock_guard_ this)) in ret (Unified g)
  | LockPolicy.SpinLock =>
      let* g := on_world (LockGuard.lock fuel (lock_guard_ this)) in ret (Unified g)
  | LockPolicy.LockFree =>
      let* g := on_world (LockGuard.lock fuel (lock_guard_ this)) in ret (Unified g)
  | LockPolicy.ReadWrite =>
      let* l := on_world (LockGuard.unique_lock_rw (lock_guard_ this)) in ret (UniqueRW l)
  end.

(** [auto acquire_read_lock() const]. *)
Definition acquire_read_lock (fuel : nat) : M state guard :=
  let* this := derived in
  if LockPolicy.eqb Policy LockPolicy.LockFree then
    let* g := on_world (LockGuard.lock fuel (lock_guard_ this)) in ret (Unified g)
  else if LockPolicy.eqb Policy LockPolicy.SpinLock then
    let* g := on_world (LockGuard.lock fuel (lock_guard_ this)) in ret (Unified g)
  else if LockPolicy.eqb Policy LockPolicy.ReadWrite then
    let* l := on_world (LockGuard.read_lock (lock_guard_ this)) in ret (SharedRW l)
  else
    let* g := on_world (LockGuard.lock fuel (lock_guard_ this)) in ret (Unified g).

(** [auto unsafe_size() const]. *)
Definition unsafe_size : M state Z :=
  let* this := derived in
  ret (Z.of_nat (length (data_ this))).

(** [bool unsafe_empty() const]. *)
Definition unsafe_empty : M state bool :=
  let* this := derived in
  ret (match data_ this with [] => true | _ :: _ => false end).

(** A reference to a member of the object: reading and writing
    through it reach the object itself. *)
Record reference (A : Type) : Type := Ref {
  load : M state A;
  store : A -> M state unit
}.

(** [auto& unsafe_ref()]. *)
Definition unsafe_ref : M state (reference (list T)) :=
  ret (Ref (list T)
         (fun s => Ret (data_ (self s)) s)
         (fun d s => Ret tt (State (Object (lock_guard_ (self s)) d) (world s)))).

(** [std::find(first, last, value)] over the whole sequence: the
    position of the first element equal to [value], [last] (the
    length) when there is none. *)
Fixpoint std_find (l : list T) (value : T) : nat :=
  match l with
  | [] => O
  | x :: rest => if eqT x value then O else S (std_find rest value)
  end.

(** [std::count(first, last, value)]: the loop and its counter. *)
Fixpoint std_count (l : list T) (value : T) (n : Z) : Z :=
  match l with
  | [] => n
  | x :: rest => std_count rest value (if eqT x value then n + 1 else n)
  end.

(** [derived().data_] as the query helpers pass over it from
    [begin()] to [end()]: the elements, with the read marked in the
    record. *)
Definition read_data_ : M state (list T) :=
  let* this := derived in
  on_world (fun w => Ret tt (log ReadData w)) ;;
  ret (data_ this).

(** [bool contains(const T& value) const]. *)
Definition contains (fuel : nat) (value : T) : M state bool :=
  let* guard := acquire_read_lock fuel in
  let* data := read_data_ in
  let result := negb (std_find data value =? length data)%nat in
  on_world (guard_dtor guard) ;;
  ret result.

(** [auto count(const T& value) const], with its
    [static_cast<size_type>]. *)
Definition count (fuel : nat) (value : T) : M state Z :=
  let* guard := acquire_read_lock fuel in
  let* data := read_data_ in
  let result := (std_count data value 0) mod size_type_modulus in
  on_world (guard_dtor guard) ;;
  ret result.

(** [auto copy() const]. *)
Definition copy (fuel : nat) : M state (list T) :=
  let* guard := acquire_read_lock fuel in
  let* result := read_data_ in
  on_world (guard_dtor guard) ;;
  ret result.

(** The scope of a guard: its destructor ends the scope on return and
    on exception. *)
Definition scoped {A} (g : guard) (body : M state A) : M state A :=
  finally (on_world (guard_dtor g)) body.

(** [auto acquire_write_guard() const]. *)
Definition acquire_write_guard (fuel : nat) : M state guard :=
  acquire_write_lock fuel.

(** [auto acquire_read_guard() const]. *)
Definition acquire_read_guard (fuel : nat) : M state guard :=
  acquire_read_lock fuel.

(** [template <typename Func> void with_write_lock(Func func) const]:
    [func] is called on the object, and is whatever the caller makes of
    it. *)
Definition with_write_lock (fuel : nat) (func : M state unit) : M state unit :=
  let* guard := acquire_write_lock fuel in
  scoped guard func.

(** [template <typename Func> void with_read_lock(Func func) const]. *)
Definition with_read_lock (fuel : nat) (func : M state unit) : M state unit :=
  let* guard := acquire_read_lock fuel in
  scoped guard func.

(** [std::find_if(first, last, pred)] over the whole sequence: the
    position of the first element [pred] accepts, the length when there
    is none. *)
Fixpoint std_find_if (l : list T) (pred : T -> bool) : nat :=
  match l with
  | [] => O
  | x :: rest => if pred x then O else S (std_find_if rest pred)
  end.

(** [template <typename Predicate> auto find_if(Predicate pred) const]:
    the iterator, as a position. *)
Definition find_if (fuel : nat) (pred : T -> bool) : M state nat :=
  let* guard := acquire_read_lock fuel in
  scoped guard
    (let* this := derived in
     ret (std_find_if (data_ this) pred)).

(** Callbacks that act on what they captured, a caller's state of type
    [U] apart from the container and its lock. *)
Section Callback.
Context {U : Type}.

Definition on_object {A} (c : M state A) : M (state * U) A := fun su =>
  match c (fst su) with
  | Ret a s => Ret a (s, snd su)
  | Throw e s => Throw e (s, snd su)
  | Blocks => Blocks
  | Undefined => Undefined
  end.

Definition on_caller {A} (c : M U A) : M (state * U) A := fun su =>
  match c (snd su) with
  | Ret a u => Ret a (fst su, u)
  | Throw e u => Throw e (fst su, u)
  | Blocks => Blocks
  | Undefined => Undefined
  end.

(** [std::for_each(first, last, func)]. *)
Fixpoint std_for_each (l : list T) (func : T -> M U unit) : M U unit :=
  match l with
  | [] => ret tt
  | x :: rest => func x ;; std_for_each rest func
  end.

(** [template <typename Func> void for_each(Func func) const]. *)
Definition for_each (fuel : nat) (func : T -> M U unit) : M (state * U) unit :=
  let* guard := on_object (acquire_read_lock fuel) in
  finally (on_object (on_world (guard_dtor guard)))
    (let* this := on_object derived in
     on_caller (std_for_each (data_ this) func)).

End Callback.

End Mixin.

Arguments Object {T} lock_guard_ data_.
Arguments lock_guard_ {T} d.
Arguments data_ {T} d.
Arguments State {T} self world.
Arguments self {T} s.
Arguments world {T} s.
Arguments load {T A} r.
Arguments store {T A} r.
Arguments on_world {T A} c.
Arguments derived {T}.
Arguments unsafe_size {T}.
Arguments unsafe_empty {T}.
Arguments unsafe_ref {T}.

End container_mixin.


(** ** The standard sequence containers

    [std::vector] and [std::list] as the sequence of their elements,
    with the operations the adapters call.  An operation whose
    precondition the standard states (a position in range, a container
    that is not empty) is [Undefined] outside of it.  The allocator is
    taken to have storage for every request, so that no operation ends
    in [std::bad_alloc]. *)

Module std_container.

Section Sequence.
Context {T St : Type}.

(** [c[pos]] *)
Definition index (c : list T) (pos : nat) : M St T :=
  match c !! pos with
  | Some x => ret x
  | None => fun _ => Undefined
  end.

(** [c[pos] = value] *)
Definition assign_at (c : list T) (pos : nat) (value : T) : M St (list T) :=
  match c !! pos with
  | Some _ => ret (<[pos := value]> c)
  | None => fun _ => Undefined
  end.

(** [c.front()] *)
Definition front (c : list T) : M St T :=
  match c with
  | x :: _ => ret x
  | [] => fun _ => Undefined
  end.

(** [c.back()] *)
Definition back (c : list T) : M St T :=
  match last c with
  | Some x => ret x
  | None => fun _ => Undefined
  end.

(** [c.pop_back()] *)
Definition pop_back (c : list T) : M St (list T) :=
  match c with
  | [] => fun _ => Undefined
  | _ :: _ => ret (removelast c)
  end.

(** [c.pop_front()] *)
Definition pop_front (c : list T) : M St (list T) :=
  match c with
  | [] => fun _ => Undefined
  | _ :: rest => ret rest
  end.

(** [c.front() = value] *)
Definition assign_front (c : list T) (value : T) : M St (list T) :=
  match c with
  | [] => fun _ => Undefined
  | _ :: rest => ret (value :: rest)
  end.

(** [c.back() = value] *)
Definition assign_back (c : list T) (value : T) : M St (list T) :=
  match c with
  | [] => fun _ => Undefined
  | _ :: _ => ret (removelast c ++ [value])
  end.

(** [c.resize(count, value)] of a [std::vector] whose [max_size()]
    is [max_size]: the vector is cut to its first [count] elements or
    filled up with copies of [value]; a [count] it cannot grow to is
    refused with [std::length_error], the vector left as it was. *)
Definition resize (max_size : nat) (c : list T) (count : nat) (value : T)
  : M St (list T) :=
  if (count <=? length c)%nat then ret (take count c)
  else if (max_size <? count)%nat then throw (length_error "vector::_M_fill_insert")
  else ret (c ++ replicate (count - length c) value).

End Sequence.

End std_container.

(** ** [template class vector<T, Policy>]

    The primary template.  The compiler takes it for the policies
    [Mutex], [SpinLock] and [ReadWrite]; for [LockFree] it takes the
    specialisation that follows this module. *)

Module ts_vector.

Section Vector.
Context {T : Type}.
(** The template argument. *)
Variable Policy : LockPolicy.t.

(** An assignment to the member [data_]. *)
Definition assign_data_ (d : list T) : M (@container_mixin.state T) unit := fun s =>
  Ret tt (container_mixin.State
            (container_mixin.Object (container_mixin.lock_guard_ (container_mixin.self s)) d)
            (container_mixin.world s)).

(** [const_reference get(size_type pos) const]: the element the
    reference refers to when the call returns. *)
Definition get_const (fuel : nat) (pos : nat) : M (@container_mixin.state T) T :=
  let* guard := container_mixin.acquire_read_lock Policy fuel in
  container_mixin.scoped guard
    (let* this := container_mixin.derived in
     if (length (container_mixin.data_ this) <=? pos)%nat
     then throw (out_of_range "Index out of range")
     else std_container.index (container_mixin.data_ this) pos).

(** [reference get(size_type pos)]. *)
Definition get (fuel : nat) (pos : nat) : M (@container_mixin.state T) T :=
  let* guard := container_mixin.acquire_write_lock Policy fuel in
  container_mixin.scoped guard
    (let* this := container_mixin.derived in
     if (length (container_mixin.data_ this) <=? pos)%nat
     then throw (out_of_range "Index out of range")
     else std_container.index (container_mixin.data_ this) pos).

(** [void set(size_type pos, const_reference value)]. *)
Definition set (fuel : nat) (pos : nat) (value : T) : M (@container_mixin.state T) unit :=
  let* guard := container_mixin.acquire_write_lock Policy fuel in
  container_mixin.scoped guard
    (let* this := container_mixin.derived in
     if (length (container_mixin.data_ this) <=? pos)%nat
     then throw (out_of_range "Index out of range")
     else
       let* d := std_container.assign_at (container_mixin.data_ this) pos value in
       assign_data_ d).

(** [const_reference operator[](size_type pos) const]. *)
Definition index_const (fuel : nat) (pos : nat) : M (@container_mixin.state T) T :=
  let* guard := container_mixin.acquire_read_lock Policy fuel in
  container_mixin.scoped guard
    (let* this := container_mixin.derived in
     std_container.index (container_mixin.data_ this) pos).

(** [const_reference front() const]. *)
Definition front (fuel : nat) : M (@container_mixin.state T) T :=
  let* guard := container_mixin.acquire_read_lock Policy fuel in
  container_mixin.scoped guard
    (let* this := container_mixin.derived in
     match container_mixin.data_ this with
     | [] => throw (out_of_range "Vector is empty")
     | _ :: _ => std_container.front (container_mixin.data_ this)
     end).

(** [const_reference back() const]. *)
Definition back (fuel : nat) : M (@container_mixin.state T) T :=
  let* guard := container_mixin.acquire_read_lock Policy fuel in
  container_mixin.scoped guard
    (let* this := container_mixin.derived in
     match container_mixin.data_ this with
     | [] => throw (out_of_range "Vector is empty")
     | _ :: _ => std_container.back (container_mixin.data_ this)
     end).

(** [size_type size() const]. *)
Definition size (fuel : nat) : M (@container_mixin.state T) Z :=
  let* guard := container_mixin.acquire_read_lock Policy fuel in
  container_mixin.scoped guard
    (let* this := container_mixin.derived in
     ret (Z.of_nat (length (container_mixin.data_ this)))).

(** [bool empty() const]. *)
Definition empty (fuel : nat) : M (@container_mixin.state T) bool :=
  let* guard := container_mixin.acquire_read_lock Policy fuel in
  container_mixin.scoped guard
    (let* this := container_mixin.derived in
     ret (match container_mixin.data_ this with [] => true | _ :: _ => false end)).

(** [void resize(size_type count, const_reference value)];
    [max_size] is what [data_.max_size()] returns. *)
Definition resize (max_size : nat) (fuel : nat) (count : nat) (value : T)
  : M (@container_mixin.state T) unit :=
  let* guard := container_mixin.acquire_write_lock Policy fuel in
  container_mixin.scoped guard
    (let* this := container_mixin.derived in
     let* d := std_container.resize max_size (container_mixin.data_ this) count value in
     assign_data_ d).

(** [void push_back(const_reference value)]. *)
Definition push_back (fuel : nat) (value : T) : M (@container_mixin.state T) unit :=
  let* guard := container_mixin.acquire_write_lock Policy fuel in
  container_mixin.scoped guard
    (let* this := container_mixin.derived in
     assign_data_ (container_mixin.data_ this ++ [value])).

(** [void pop_back()]. *)
Definition pop_back (fuel : nat) : M (@container_mixin.state T) unit :=
  let* guard := container_mixin.acquire_write_lock Policy fuel in
  container_mixin.scoped guard
    (let* this := container_mixin.derived in
     match container_mixin.data_ this with
     | [] => throw (out_of_range "Cannot pop from empty vector")
     | _ :: _ =>
         let* d := std_container.pop_back (container_mixin.data_ this) in
         assign_data_ d
     end).

(** [void clear()]. *)
Definition clear (fuel : nat) : M (@container_mixin.state T) unit :=
  let* guard := container_mixin.acquire_write_lock Policy fuel in
  container_mixin.scoped guard (assign_data_ []).

(** [std::vector<T> to_vector() const]. *)
Definition to_vector (fuel : nat) : M (@container_mixin.state T) (list T) :=
  let* guard := container_mixin.acquire_read_lock Policy fuel in
  container_mixin.scoped guard
    (let* this := container_mixin.derived in
     ret (container_mixin.data_ this)).

(** [void unsafe_push_back(const_reference value)]. *)
Definition unsafe_push_back (value : T) : M (@container_mixin.state T) unit :=
  let* this := container_mixin.derived in
  assign_data_ (container_mixin.data_ this ++ [value]).

(** [void unsafe_clear()]. *)
Definition unsafe_clear : M (@container_mixin.state T) unit :=
  assign_data_ [].

(** [const T& unsafe_at(size_type pos) const]. *)
Definition unsafe_at (pos : nat) : M (@container_mixin.state T) T :=
  let* this := container_mixin.derived in
  std_container.index (container_mixin.data_ this) pos.

(** [template <typename Func> void with_write_lock(Func func) const],
    with [func] called on the vector itself. *)
Definition with_write_lock (fuel : nat) (func : M (@container_mixin.state T) unit)
  : M (@container_mixin.state T) unit :=
  let* guard := container_mixin.acquire_write_lock Policy fuel in
  container_mixin.scoped guard func.

End Vector.

End ts_vector.

(** ** [template class vector<T, LockPolicy::LockFree>], the
    specialisation: the vector alone, without the mixin *)

Module ts_vector_LockFree.

Section Vector.
Context {T : Type}.

(** [const_reference operator[](size_type pos) const noexcept]. *)
Definition index_const (pos : nat) : M (list T) T := fun data_ =>
  std_container.index data_ pos data_.

(** [const_reference front() const noexcept]. *)
Definition front : M (list T) T := fun data_ =>
  std_container.front data_ data_.

(** [const_reference back() const noexcept]. *)
Definition back : M (list T) T := fun data_ =>
  std_container.back data_ data_.

(** [size_type size() const noexcept]. *)
Definition size : M (list T) Z := fun data_ =>
  Ret (Z.of_nat (length data_)) data_.

(** [void push_back(const_reference value)]. *)
Definition push_back (value : T) : M (list T) unit := fun data_ =>
  Ret tt (data_ ++ [value]).

(** [void pop_back() noexcept]. *)
Definition pop_back : M (list T) unit := fun data_ =>
  match std_container.pop_back data_ data_ with
  | Ret d _ => Ret tt d
  | Throw e s => Throw e s
  | Blocks => Blocks
  | Undefined => Undefined
  end.

End Vector.

End ts_vector_LockFree.

(** ** [template class list<T, Policy>]

    The primary template.  The compiler takes it for the policies
    [Mutex], [SpinLock] and [ReadWrite]; for [LockFree] the header has
    a specialisation of its own, the [std::list] alone, whose [front],
    [back], [pop_back] and [pop_front] do not check for an empty
    list. *)

Module ts_list.

Section List.
Context {T : Type}.
(** [operator==] of the element type. *)
Variable eqT : T -> T -> bool.
(** The template argument. *)
Variable Policy : LockPolicy.t.

(** An assignment to the member [data_]. *)
Definition assign_data_ (d : list T) : M (@container_mixin.state T) unit := fun s =>
  Ret tt (container_mixin.State
            (container_mixin.Object (container_mixin.lock_guard_ (container_mixin.self s)) d)
            (container_mixin.world s)).

(** [const_reference front() const]. *)
Definition front (fuel : nat) : M (@container_mixin.state T) T :=
  let* guard := container_mixin.acquire_read_lock Policy fuel in
  container_mixin.scoped guard
    (let* this := container_mixin.derived in
     match container_mixin.data_ this with
     | [] => throw (out_of_range "List is empty")
     | _ :: _ => std_container.front (container_mixin.data_ this)
     end).

(** [const_reference back() const]. *)
Definition back (fuel : nat) : M (@container_mixin.state T) T :=
  let* guard := container_mixin.acquire_read_lock Policy fuel in
  container_mixin.scoped guard
    (let* this := container_mixin.derived in
     match container_mixin.data_ this with
     | [] => throw (out_of_range "List is empty")
     | _ :: _ => std_container.back (container_mixin.data_ this)
     end).

(** [void set_front(const_reference value)]. *)
Definition set_front (fuel : nat) (value : T) : M (@container_mixin.state T) unit :=
  let* guard := container_mixin.acquire_write_lock Policy fuel in
  container_mixin.scoped guard
    (let* this := container_mixin.derived in
     match container_mixin.data_ this with
     | [] => throw (out_of_range "List is empty")
     | _ :: _ =>
         let* d := std_container.assign_front (container_mixin.data_ this) value in
         assign_data_ d
     end).

(** [void set_back(const_reference value)]. *)
Definition set_back (fuel : nat) (value : T) : M (@container_mixin.state T) unit :=
  let* guard := container_mixin.acquire_write_lock Policy fuel in
  container_mixin.scoped guard
    (let* this := container_mixin.derived in
     match container_mixin.data_ this with
     | [] => throw (out_of_range "List is empty")
     | _ :: _ =>
         let* d := std_container.assign_back (container_mixin.data_ this) value in
         assign_data_ d
     end).

(** [size_type size() const]. *)
Definition size (fuel : nat) : M (@container_mixin.state T) Z :=
  let* guard := container_mixin.acquire_read_lock Policy fuel in
  container_mixin.scoped guard
    (let* this := container_mixin.derived in
     ret (Z.of_nat (length (container_mixin.data_ this)))).

(** [void push_back(const_reference value)]. *)
Definition push_back (fuel : nat) (value : T) : M (@container_mixin.state T) unit :=
  let* guard := container_mixin.acquire_write_lock Policy fuel in
  container_mixin.scoped guard
    (let* this := container_mixin.derived in
     assign_data_ (container_mixin.data_ this ++ [value])).

(** [void pop_back()]. *)
Definition pop_back (fuel : nat) : M (@container_mixin.state T) unit :=
  let* guard := container_mixin.acquire_write_lock Policy fuel in
  container_mixin.scoped guard
    (let* this := container_mixin.derived in
     match container_mixin.data_ this with
     | [] => throw (out_of_range "Cannot pop from empty list")
     | _ :: _ =>
         let* d := std_container.pop_back (container_mixin.data_ this) in
         assign_data_ d
     end).

(** [void push_front(const_reference value)]. *)
Definition push_front (fuel : nat) (value : T) : M (@container_mixin.state T) unit :=
  let* guard := container_mixin.acquire_write_lock Policy fuel in
  container_mixin.scoped guard
    (let* this := container_mixin.derived in
     assign_data_ (value :: container_mixin.data_ this)).

(** [void pop_front()]. *)
Definition pop_front (fuel : nat) : M (@container_mixin.state T) unit :=
  let* guard := container_mixin.acquire_write_lock Policy fuel in
  container_mixin.scoped guard
    (let* this := container_mixin.derived in
     match container_mixin.data_ this with
     | [] => throw (out_of_range "Cannot pop from empty list")
     | _ :: _ =>
         let* d := std_container.pop_front (container_mixin.data_ this) in
         assign_data_ d
     end).

(** The loop of [remove] and [remove_if].  The iterator [it] stands
    between the elements already passed, [before], and those still to
    come, [rest]; [it == data_.end()] is [rest = []], [++it] moves the
    first of [rest] to [before], and [it = data_.erase(it)] drops it.
    [count] is a [size_type]. *)
Fixpoint remove_loop (pred : T -> bool) (before rest : list T) (count : Z)
  : list T * Z :=
  match rest with
  | [] => (before, count)
  | x :: rest' =>
      if pred x
      then remove_loop pred before rest' ((count + 1) mod container_mixin.size_type_modulus)
      else remove_loop pred (before ++ [x]) rest' count
  end.

(** What the parameter [const T& value] of [remove] is bound to: an
    object that is no element of this list, or the element at a
    position of it, as in [l.remove(l.front())]. *)
Inductive argument : Type :=
  | Outside (value : T)
  | Element (pos : nat).

(** The object behind the reference while the loop runs: it is there
    and holds [value], being the element [ahead] places after the
    iterator when [ahead] is a number; or it was an element and has
    been erased. *)
Inductive referent : Type :=
  | Alive (value : T) (ahead : option nat)
  | Erased.

Definition bind_argument (data : list T) (a : argument) : referent :=
  match a with
  | Outside value => Alive value None
  | Element pos =>
      match data !! pos with
      | Some value => Alive value (Some pos)
      | None => Erased
      end
  end.

(** The referent after the iterator has passed or erased the first of
    the elements to come. *)
Definition after_step (erased : bool) (value : T) (ahead : option nat) : referent :=
  match ahead with
  | Some (S n) => Alive value (Some n)
  | Some O => if erased then Erased else Alive value None
  | None => Alive value None
  end.

(** The loop of [remove]: as [remove_loop], with [*it == value] read
    through the reference.  Erasing a node ends the life of its
    element, so a comparison after the node behind [value] was erased
    reads an object that is gone; [None] stands for that. *)
Fixpoint remove_loop_by_reference (value : referent) (before rest : list T) (count : Z)
  : option (list T * Z) :=
  match rest with
  | [] => Some (before, count)
  | x :: rest' =>
      match value with
      | Erased => None
      | Alive v ahead =>
          if eqT x v
          then remove_loop_by_reference (after_step true v ahead) before rest'
                 ((count + 1) mod container_mixin.size_type_modulus)
          else remove_loop_by_reference (after_step false v ahead) (before ++ [x]) rest'
                 count
      end
  end.

(** [size_type remove(const T& value)]. *)
Definition remove (fuel : nat) (value : argument) : M (@container_mixin.state T) Z :=
  let* guard := container_mixin.acquire_write_lock Policy fuel in
  container_mixin.scoped guard
    (let* this := container_mixin.derived in
     let data := container_mixin.data_ this in
     match remove_loop_by_reference (bind_argument data value) [] data 0 with
     | Some (d, count) =>
         assign_data_ d ;;
         ret count
     | None => fun _ => Undefined
     end).

(** [template <typename Predicate> size_type remove_if(Predicate pred)]. *)
Definition remove_if (fuel : nat) (pred : T -> bool) : M (@container_mixin.state T) Z :=
  let* guard := container_mixin.acquire_write_lock Policy fuel in
  container_mixin.scoped guard
    (let* this := container_mixin.derived in
     let (d, count) := remove_loop pred [] (container_mixin.data_ this) 0 in
     assign_data_ d ;;
     ret count).

(** [void unsafe_pop_back()]. *)
Definition unsafe_pop_back : M (@container_mixin.state T) unit :=
  let* this := container_mixin.derived in
  match container_mixin.data_ this with
  | [] => ret tt
  | _ :: _ =>
      let* d := std_container.pop_back (container_mixin.data_ this) in
      assign_data_ d
  end.

(** [void unsafe_pop_front()]. *)
Definition unsafe_pop_front : M (@container_mixin.state T) unit :=
  let* this := container_mixin.derived in
  match container_mixin.data_ this with
  | [] => ret tt
  | _ :: _ =>
      let* d := std_container.pop_front (container_mixin.data_ this) in
      assign_data_ d
  end.

End List.

Arguments Outside {T} value.
Arguments Element {T} pos.
Arguments Alive {T} value ahead.
Arguments Erased {T}.

End ts_list.

(** ** [std::map]

    The map as the sequence of its elements in the order of iteration,
    which is the order of [Compare] on the keys. *)

Module std_map.

Section Map.
Context {Key V : Type}.
(** [Compare]. *)
Variable comp : Key -> Key -> bool.

(** [m.find(key)]: the position and the mapped value of the element
    with this key; [None] is [m.end()]. *)
Fixpoint find (m : list (Key * V)) (key : Key) : option (nat * V) :=
  match m with
  | [] => None
  | (k, v) :: rest =>
      if comp k key then
        match find rest key with
        | Some (i, x) => Some (S i, x)
        | None => None
        end
      else if comp key k then None
      else Some (O, v)
  end.

(** [m.insert({key, value})]: the map afterwards, the position of the
    element with this key, and whether it was inserted. *)
Fixpoint insert (m : list (Key * V)) (key : Key) (value : V)
  : list (Key * V) * (nat * bool) :=
  match m with
  | [] => ([(key, value)], (O, true))
  | (k, v) :: rest =>
      if comp k key then
        let '(rest', (i, inserted)) := insert rest key value in
        ((k, v) :: rest', (S i, inserted))
      else if comp key k then ((key, value) :: m, (O, true))
      else (m, (O, false))
  end.

(** [m[key] = value]. *)
Fixpoint subscript_assign (m : list (Key * V)) (key : Key) (value : V)
  : list (Key * V) :=
  match m with
  | [] => [(key, value)]
  | (k, v) :: rest =>
      if comp k key then (k, v) :: subscript_assign rest key value
      else if comp key k then (key, value) :: m
      else (k, value) :: rest
  end.

(** [m[key]], with [initial] for [T()]: the map afterwards and the
    mapped value. *)
Fixpoint subscript (m : list (Key * V)) (key : Key) (initial : V)
  : list (Key * V) * V :=
  match m with
  | [] => ([(key, initial)], initial)
  | (k, v) :: rest =>
      if comp k key then
        let (rest', x) := subscript rest key initial in ((k, v) :: rest', x)
      else if comp key k then ((key, initial) :: m, initial)
      else (m, v)
  end.

(** [m.erase(key)]: the map afterwards and the number of elements
    removed. *)
Fixpoint erase (m : list (Key * V)) (key : Key) : list (Key * V) * Z :=
  match m with
  | [] => ([], 0)
  | (k, v) :: rest =>
      if comp k key then
        let (rest', n) := erase rest key in ((k, v) :: rest', n)
      else if comp key k then (m, 0)
      else (rest, 1)
  end.

End Map.

End std_map.

(** ** [template class map<Key, T, Compare, Policy>] *)

Module ts_map.

Section Map.
Context {Key V : Type}.
(** [Compare]. *)
Variable comp : Key -> Key -> bool.
(** The template argument. *)
Variable Policy : LockPolicy.t.

(** An assignment to the member [data_]. *)
Definition assign_data_ (d : list (Key * V))
  : M (@container_mixin.state (Key * V)) unit := fun s =>
  Ret tt (container_mixin.State
            (container_mixin.Object (container_mixin.lock_guard_ (container_mixin.self s)) d)
            (container_mixin.world s)).

(** [void set(const Key& key, const T& value)]. *)
Definition set (fuel : nat) (key : Key) (value : V)
  : M (@container_mixin.state (Key * V)) unit :=
  let* guard := container_mixin.acquire_write_lock Policy fuel in
  container_mixin.scoped guard
    (let* this := container_mixin.derived in
     assign_data_ (std_map.subscript_assign comp (container_mixin.data_ this) key value)).

(** [T get(const Key& key, const T& default_value = T()) const]. *)
Definition get (fuel : nat) (key : Key) (default_value : V)
  : M (@container_mixin.state (Key * V)) V :=
  let* guard := container_mixin.acquire_read_lock Policy fuel in
  container_mixin.scoped guard
    (let* this := container_mixin.derived in
     match std_map.find comp (container_mixin.data_ this) key with
     | Some (_, second) => ret second
     | None => ret default_value
     end).

(** [size_type size() const]. *)
Definition size (fuel : nat) : M (@container_mixin.state (Key * V)) Z :=
  let* guard := container_mixin.acquire_read_lock Policy fuel in
  container_mixin.scoped guard
    (let* this := container_mixin.derived in
     ret (Z.of_nat (length (container_mixin.data_ this)))).

(** [bool contains(const Key& key) const]. *)
Definition contains (fuel : nat) (key : Key)
  : M (@container_mixin.state (Key * V)) bool :=
  let* guard := container_mixin.acquire_read_lock Policy fuel in
  container_mixin.scoped guard
    (let* this := container_mixin.derived in
     ret (match std_map.find comp (container_mixin.data_ this) key with
          | Some _ => true
          | None => false
          end)).

(** [std::pair<bool, size_type> insert(const Key& key, const T& value)]:
    whether the element was inserted, and
    [std::distance(data_.begin(), result.first)]. *)
Definition insert (fuel : nat) (key : Key) (value : V)
  : M (@container_mixin.state (Key * V)) (bool * Z) :=
  let* guard := container_mixin.acquire_write_lock Policy fuel in
  container_mixin.scoped guard
    (let* this := container_mixin.derived in
     let '(d, (first, second)) :=
       std_map.insert comp (container_mixin.data_ this) key value in
     assign_data_ d ;;
     ret (second, Z.of_nat first)).

(** [size_type erase(const Key& key)]. *)
Definition erase (fuel : nat) (key : Key)
  : M (@container_mixin.state (Key * V)) Z :=
  let* guard := container_mixin.acquire_write_lock Policy fuel in
  container_mixin.scoped guard
    (let* this := container_mixin.derived in
     let (d, n) := std_map.erase comp (container_mixin.data_ this) key in
     assign_data_ d ;;
     ret n).

(** [void unsafe_insert(const Key& key, const T& value)]. *)
Definition unsafe_insert (key : Key) (value : V)
  : M (@container_mixin.state (Key * V)) unit :=
  let* this := container_mixin.derived in
  assign_data_ (std_map.subscript_assign comp (container_mixin.data_ this) key value).

(** [T& unsafe_at(const Key& key)], with [initial] for [T()]: the
    mapped value the reference refers to. *)
Definition unsafe_at (key : Key) (initial : V)
  : M (@container_mixin.state (Key * V)) V :=
  let* this := container_mixin.derived in
  let (d, x) := std_map.subscript comp (container_mixin.data_ this) key initial in
  assign_data_ d ;;
  ret x.

End Map.

End ts_map.
(** * Vocabulary of the properties *)

(** ** The spin lock *)

(** One [test_and_set] on an allocated flag: the store it leaves. *)
Definition after_test_and_set (this : addr) (s : spin_state) (w : World) : World :=
  log (TestAndSet this (flag_ s)) (set_spin this (SpinState true) w).

(** ** Guards and their stores *)

(** The result of a call mapped through a constructor of its type. *)
Definition fmapM {St A B} (f : A -> B) (c : M St A) : M St B :=
  let* a := c in ret (f a).

(** The guards the accessors hand out on a primitive at [a]. *)
Definition mutex_guard (a : addr) : UnifiedLockGuard.t :=
  UnifiedLockGuard.Guard None 0 (std.Lock (Some a) true) std.no_lock.

Definition spin_guard (a : addr) : UnifiedLockGuard.t :=
  UnifiedLockGuard.Guard (Some a) 1 std.no_lock std.no_lock.

Definition empty_guard : UnifiedLockGuard.t :=
  UnifiedLockGuard.Guard None 3 std.no_lock std.no_lock.

Definition owning_lock (a : addr) : std.lock_t := std.Lock (Some a) true.

(** The stores the acquisitions leave. *)
Definition after_mutex_lock (a : addr) (w : World) : World :=
  log (MutexLock a) (set_mutex a true w).

Definition after_lock_exclusive (a : addr) (w : World) : World :=
  log (SharedLock a) (set_shared a (SharedState true 0) w).

Definition after_lock_shared (a : addr) (s : shared_state) (w : World) : World :=
  log (SharedLockShared a) (set_shared a (SharedState false (S (readers s))) w).

(** ** The mixin *)

(** The holder of the object a state is about, and that state with
    another store. *)
Abbreviation holder s := (container_mixin.lock_guard_ (container_mixin.self s)).
Abbreviation at_world s w := (container_mixin.State (container_mixin.self s) w).

(** The holder's primitive can be taken for reading at once: it is
    allocated, and no one holds it in a way that excludes a reader. *)
Definition readable (h : LockGuard.t) (w : World) : bool :=
  match LockGuard.policy_ h with
  | LockPolicy.Mutex =>
      match LockGuard.mutex_ h with
      | Some a =>
          match mutexes w !! a with
          | Some locked => negb locked
          | None => false
          end
      | None => false
      end
  | LockPolicy.SpinLock =>
      match LockGuard.spinlock_ h with
      | Some a =>
          match spinlocks w !! a with
          | Some st => negb (flag_ st)
          | None => false
          end
      | None => false
      end
  | LockPolicy.ReadWrite =>
      match LockGuard.shared_mutex_ h with
      | Some a =>
          match shared_mutexes w !! a with
          | Some st => negb (writer st)
          | None => false
          end
      | None => false
      end
  | LockPolicy.LockFree => true
  end.

(** What taking and giving back the read lock records. *)
Definition read_acquisition (h : LockGuard.t) : list event :=
  match LockGuard.policy_ h with
  | LockPolicy.Mutex =>
      match LockGuard.mutex_ h with Some a => [MutexLock a] | None => [] end
  | LockPolicy.SpinLock =>
      match LockGuard.spinlock_ h with Some a => [TestAndSet a false] | None => [] end
  | LockPolicy.ReadWrite =>
      match LockGuard.shared_mutex_ h with Some a => [SharedLockShared a] | None => [] end
  | LockPolicy.LockFree => []
  end.

Definition read_release (h : LockGuard.t) : list event :=
  match LockGuard.policy_ h with
  | LockPolicy.Mutex =>
      match LockGuard.mutex_ h with Some a => [MutexUnlock a] | None => [] end
  | LockPolicy.SpinLock =>
      match LockGuard.spinlock_ h with Some a => [Clear a] | None => [] end
  | LockPolicy.ReadWrite =>
      match LockGuard.shared_mutex_ h with Some a => [SharedUnlockShared a] | None => [] end
  | LockPolicy.LockFree => []
  end.

(** A member call ends, by return or by exception, with the holder of
    the object still reporting the policy [p]. *)
Definition policy_kept {T A} (p : LockPolicy.t)
    (o : outcome (@container_mixin.state T) A) : Prop :=
  match o with
  | Ret _ s' | Throw _ s' => LockGuard.policy (holder s') = p
  | Blocks | Undefined => True
  end.

(** A member leaves the object (holder and container) as it is. *)
Definition keeps_object {T A} (c : M (@container_mixin.state T) A) : Prop :=
  forall s,
    match c s with
    | Ret _ s' | Throw _ s' => container_mixin.self s' = container_mixin.self s
    | Blocks | Undefined => True
    end.


(** ** What a guard holds *)

(** A primitive held in exclusive mode. *)
Inductive resource : Type :=
  | RMutex (a : addr)
  | RSpin (a : addr)
  | RShared (a : addr).

Global Instance resource_eq_dec : EqDecision resource.
Proof. solve_decision. Defined.

(** What the destructor of a standard lock releases. *)
Definition lock_payload (kind : addr -> resource) (l : std.lock_t) : list resource :=
  if std.owns l then
    match std.pm l with
    | Some a => [kind a]
    | None => []
    end
  else [].

(** What the destructor of a unified guard releases, in the order in
    which it does: the spin lock in its body, then the shared and the
    plain mutex through the members. *)
Definition payload (g : UnifiedLockGuard.t) : list resource :=
  (if UnifiedLockGuard.lock_type_ g =? 1 then
     match UnifiedLockGuard.spinlock_ g with
     | Some a => [RSpin a]
     | None => []
     end
   else [])
  ++ lock_payload RShared (UnifiedLockGuard.rw_lock_ g)
  ++ lock_payload RMutex (UnifiedLockGuard.mutex_lock_ g).

Definition is_none {A} (o : option A) : bool :=
  match o with None => true | Some _ => false end.

(** A lock that owns refers to a mutex. *)
Definition lock_ok (l : std.lock_t) : bool :=
  implb (std.owns l) (negb (is_none (std.pm l))).

(** The states the constructors and the move constructor produce:
    the tag is one of 0, 1, 2, 3, -1; the spin pointer is set exactly
    under tag 1; a member lock owns only under its own tag. *)
Definition well_formed (g : UnifiedLockGuard.t) : bool :=
  let tag := UnifiedLockGuard.lock_type_ g in
  let mx := UnifiedLockGuard.mutex_lock_ g in
  let rw := UnifiedLockGuard.rw_lock_ g in
  if tag =? 0 then
    is_none (UnifiedLockGuard.spinlock_ g) && lock_ok mx && negb (std.owns rw)
  else if tag =? 1 then
    negb (is_none (UnifiedLockGuard.spinlock_ g)) && negb (std.owns mx) && negb (std.owns rw)
  else if tag =? 2 then
    is_none (UnifiedLockGuard.spinlock_ g) && negb (std.owns mx) && lock_ok rw
  else if (tag =? 3) || (tag =? -1) then
    is_none (UnifiedLockGuard.spinlock_ g) && negb (std.owns mx) && negb (std.owns rw)
  else false.

(** The primitive is allocated and held in exclusive mode. *)
Definition held (w : World) (r : resource) : bool :=
  match r with
  | RMutex a => match mutexes w !! a with Some locked => locked | None => false end
  | RSpin a => match spinlocks w !! a with Some st => flag_ st | None => false end
  | RShared a => match shared_mutexes w !! a with Some st => writer st | None => false end
  end.

(** The store after the release of a held primitive. *)
Definition release (r : resource) (w : World) : World :=
  match r with
  | RMutex a => log (MutexUnlock a) (set_mutex a false w)
  | RSpin a => log (Clear a) (set_spin a (SpinState false) w)
  | RShared a =>
      match shared_mutexes w !! a with
      | Some st => log (SharedUnlock a) (set_shared a (SharedState false (readers st)) w)
      | None => w
      end
  end.

Definition release_all (rs : list resource) (w : World) : World :=
  fold_left (fun w r => release r w) rs w.

(** How often a primitive was released in a record of operations. *)
Definition release_event (r : resource) : event :=
  match r with
  | RMutex a => MutexUnlock a
  | RSpin a => Clear a
  | RShared a => SharedUnlock a
  end.

Definition releases (r : resource) (t : list event) : nat :=
  count_occ event_eq_dec t (release_event r).

(** A member lock after its destructor ran. *)
Definition disowned (l : std.lock_t) : std.lock_t := std.Lock (std.pm l) false.

(** A guard after its destructor ran. *)
Definition destroyed (g : UnifiedLockGuard.t) : UnifiedLockGuard.t :=
  UnifiedLockGuard.Guard (UnifiedLockGuard.spinlock_ g) (UnifiedLockGuard.lock_type_ g)
    (disowned (UnifiedLockGuard.mutex_lock_ g)) (disowned (UnifiedLockGuard.rw_lock_ g)).

(** ** Chains of moves *)

(** One move of the guard that currently holds the resource: into a new
    guard, into an existing guard [dst], or onto itself. *)
Inductive move : Type :=
  | MoveConstruct
  | MoveAssign (dst : UnifiedLockGuard.t)
  | MoveAssignSelf.

(** The guards a chain assigns into. *)
Fixpoint targets (ms : list move) : list UnifiedLockGuard.t :=
  match ms with
  | [] => []
  | MoveAssign dst :: ms' => dst :: targets ms'
  | _ :: ms' => targets ms'
  end.

(** Runs the moves from the holder [g]: the final holder and the
    moved-from guards left on the way. *)
Fixpoint move_chain (ms : list move) (g : UnifiedLockGuard.t)
  : M World (UnifiedLockGuard.t * list UnifiedLockGuard.t) :=
  match ms with
  | [] => ret (g, [])
  | MoveConstruct :: ms' =>
      let* (g', old) := UnifiedLockGuard.move_ctor g in
      let* (final, olds) := move_chain ms' g' in
      ret (final, old :: olds)
  | MoveAssign dst :: ms' =>
      let* (g', old) := UnifiedLockGuard.move_assign dst g in
      let* (final, olds) := move_chain ms' g' in
      ret (final, old :: olds)
  | MoveAssignSelf :: ms' =>
      let* g' := UnifiedLockGuard.move_assign_self g in
      move_chain ms' g'
  end.

Fixpoint destroy_all (gs : list UnifiedLockGuard.t) : M World unit :=
  match gs with
  | [] => ret tt
  | g :: gs' => UnifiedLockGuard.dtor g ;; destroy_all gs'
  end.

(** The chain, then the end of every scope: the moved-from guards and
    last the final holder are destroyed. *)
Definition moved_then_destroyed (ms : list move) (g : UnifiedLockGuard.t) : M World unit :=
  let* (final, olds) := move_chain ms g in
  destroy_all olds ;;
  UnifiedLockGuard.dtor final ;;
  ret tt.

(** The resources of the guards a chain assigns into. *)
Definition target_payloads (ms : list move) : list resource :=
  concat (map payload (targets ms)).

(** What a move leaves behind: an empty guard with tag -1. *)
Definition moved_from (g : UnifiedLockGuard.t) : Prop :=
  well_formed g = true /\ payload g = [] /\
  UnifiedLockGuard.spinlock_ g = None /\ UnifiedLockGuard.lock_type_ g = -1.

(** ** Sample holders and stores *)

(** Stores with one primitive at address 0, free or held. *)
Definition free_mutex_world : World := set_mutex 0 false empty_world.
Definition free_spin_world : World := set_spin 0 (SpinState false) empty_world.
Definition free_shared_world : World := set_shared 0 (SharedState false 0) empty_world.

(** A store in which the mutex at 0 and the spin lock at 1 are held. *)
Definition held_world : World :=
  set_spin 1 (SpinState true) (set_mutex 0 true empty_world).

(** The holders the constructor builds in the empty store. *)
Definition mutex_holder : LockGuard.t :=
  LockGuard.Holder LockPolicy.Mutex (Some 0%nat) None None.
Definition spin_holder : LockGuard.t :=
  LockGuard.Holder LockPolicy.SpinLock None (Some 0%nat) None.
Definition shared_holder : LockGuard.t :=
  LockGuard.Holder LockPolicy.ReadWrite None None (Some 0%nat).

(** A protected sequence of numbers under the [ReadWrite] policy. *)
Definition sample_state : @container_mixin.state nat :=
  container_mixin.State (container_mixin.Object shared_holder [3; 1; 3]%nat)
    free_shared_world.

(** A guard on the mutex at 0 that is moved into a new guard, assigned
    into a guard that holds the spin lock at 1, and moved once more. *)
Definition sample_chain : list move :=
  [MoveConstruct; MoveAssign (spin_guard 1); MoveConstruct].

(** ** The lock around a member *)

(** The store with further operations on record and the primitives in
    the same states. *)
Definition with_events (w : World) (evs : list event) : World :=
  mkWorld (mutexes w) (spinlocks w) (shared_mutexes w) (trace w ++ evs).

(** The holder's primitive can be taken for writing at once: it is
    allocated and no one holds it in any mode. *)
Definition writable (h : LockGuard.t) (w : World) : bool :=
  match LockGuard.policy_ h with
  | LockPolicy.Mutex =>
      match LockGuard.mutex_ h with
      | Some a =>
          match mutexes w !! a with
          | Some locked => negb locked
          | None => false
          end
      | None => false
      end
  | LockPolicy.SpinLock =>
      match LockGuard.spinlock_ h with
      | Some a =>
          match spinlocks w !! a with
          | Some st => negb (flag_ st)
          | None => false
          end
      | None => false
      end
  | LockPolicy.ReadWrite =>
      match LockGuard.shared_mutex_ h with
      | Some a =>
          match shared_mutexes w !! a with
          | Some st => negb (writer st) && (readers st =? 0)%nat
          | None => false
          end
      | None => false
      end
  | LockPolicy.LockFree => true
  end.

(** What taking and giving back the write lock records. *)
Definition write_acquisition (h : LockGuard.t) : list event :=
  match LockGuard.policy_ h with
  | LockPolicy.Mutex =>
      match LockGuard.mutex_ h with Some a => [MutexLock a] | None => [] end
  | LockPolicy.SpinLock =>
      match LockGuard.spinlock_ h with Some a => [TestAndSet a false] | None => [] end
  | LockPolicy.ReadWrite =>
      match LockGuard.shared_mutex_ h with Some a => [SharedLock a] | None => [] end
  | LockPolicy.LockFree => []
  end.

Definition write_release (h : LockGuard.t) : list event :=
  match LockGuard.policy_ h with
  | LockPolicy.Mutex =>
      match LockGuard.mutex_ h with Some a => [MutexUnlock a] | None => [] end
  | LockPolicy.SpinLock =>
      match LockGuard.spinlock_ h with Some a => [Clear a] | None => [] end
  | LockPolicy.ReadWrite =>
      match LockGuard.shared_mutex_ h with Some a => [SharedUnlock a] | None => [] end
  | LockPolicy.LockFree => []
  end.

(** One acquisition and release of the write lock, of the read lock. *)
Definition write_cycle (h : LockGuard.t) : list event :=
  write_acquisition h ++ write_release h.

Definition read_cycle (h : LockGuard.t) : list event :=
  read_acquisition h ++ read_release h.

(** The store while the write lock, taken in [w], is held. *)
Definition write_locked (h : LockGuard.t) (w : World) : World :=
  match LockGuard.policy_ h with
  | LockPolicy.Mutex =>
      match LockGuard.mutex_ h with Some a => after_mutex_lock a w | None => w end
  | LockPolicy.SpinLock =>
      match LockGuard.spinlock_ h with
      | Some a => after_test_and_set a (SpinState false) w
      | None => w
      end
  | LockPolicy.ReadWrite =>
      match LockGuard.shared_mutex_ h with Some a => after_lock_exclusive a w | None => w end
  | LockPolicy.LockFree => w
  end.

(** The store while the read lock, taken in [w], is held. *)
Definition read_locked (h : LockGuard.t) (w : World) : World :=
  match LockGuard.policy_ h with
  | LockPolicy.ReadWrite =>
      match LockGuard.shared_mutex_ h with
      | Some a =>
          match shared_mutexes w !! a with
          | Some st => after_lock_shared a st w
          | None => w
          end
      | None => w
      end
  | _ => write_locked h w
  end.

(** The object with another container. *)
Definition with_data {T} (o : @container_mixin.Derived T) (d : list T)
  : @container_mixin.Derived T :=
  container_mixin.Object (container_mixin.lock_guard_ o) d.

(** A vector after [resize(count, value)] went through. *)
Definition resized {T} (c : list T) (count : nat) (value : T) : list T :=
  if (count <=? length c)%nat then take count c
  else c ++ replicate (count - length c) value.

(** The container of the object a state is about, and the store after
    one write cycle, one read cycle of its holder. *)
Abbreviation contents s := (container_mixin.data_ (container_mixin.self s)).
Abbreviation after_write s :=
  (with_events (container_mixin.world s) (write_cycle (holder s))).
Abbreviation after_read s :=
  (with_events (container_mixin.world s) (read_cycle (holder s))).

(** ** Scenarios with a [SpinLockGuard] *)

(** [SpinLockGuard moved(std::move(g));], then the end of both scopes. *)
Definition spin_guard_moved_then_destroyed (g : SpinLockGuard.t) : M World unit :=
  let* (g', old) := SpinLockGuard.move_ctor g in
  SpinLockGuard.dtor g' ;;
  SpinLockGuard.dtor old.

(** [dst = std::move(src);], then the end of both scopes. *)
Definition spin_guard_assigned_then_destroyed (dst src : SpinLockGuard.t) : M World unit :=
  let* (dst', src') := SpinLockGuard.move_assign dst src in
  SpinLockGuard.dtor src' ;;
  SpinLockGuard.dtor dst'.

(** ** Maps *)

(** [Compare] is a strict total order on the keys, as [std::less] is
    on numbers and strings. *)
Record strict_total_order {Key : Type} (comp : Key -> Key -> bool) : Prop := {
  comp_irreflexive : forall a, comp a a = false;
  comp_transitive : forall a b c, comp a b = true -> comp b c = true -> comp a c = true;
  comp_total : forall a b, comp a b = false -> comp b a = false -> a = b
}.

(** The elements are in ascending order of their keys, so that no two
    have the same key. *)
Fixpoint keys_ascending {Key V : Type} (comp : Key -> Key -> bool)
    (m : list (Key * V)) : Prop :=
  match m with
  | [] => True
  | (k, _) :: rest =>
      Forall (fun p => comp k (fst p) = true) rest /\ keys_ascending comp rest
  end.

(** The value the map holds for a key. *)
Definition mapped {Key V : Type} (comp : Key -> Key -> bool)
    (m : list (Key * V)) (key : Key) : option V :=
  match std_map.find comp m key with
  | Some (_, v) => Some v
  | None => None
  end.

(** The number of elements whose key is less than [key]. *)
Definition rank {Key V : Type} (comp : Key -> Key -> bool)
    (m : list (Key * V)) (key : Key) : nat :=
  length (List.filter (fun p => comp (fst p) key) m).


(** ** Sample containers *)

(** Sequences of numbers under the [Mutex], the [SpinLock] and the
    [LockFree] policy, the primitive free. *)
Definition mutex_sample : @container_mixin.state nat :=
  container_mixin.State (container_mixin.Object mutex_holder [3; 1; 3]%nat)
    free_mutex_world.
Definition spin_sample : @container_mixin.state nat :=
  container_mixin.State (container_mixin.Object spin_holder [3; 1; 3]%nat)
    free_spin_world.
Definition lock_free_sample : @container_mixin.state nat :=
  container_mixin.State
    (container_mixin.Object (LockGuard.Holder LockPolicy.LockFree None None None)
       [3; 1; 3]%nat)
    empty_world.

(** An empty sequence under the [Mutex] policy. *)
Definition empty_sample : @container_mixin.state nat :=
  container_mixin.State (container_mixin.Object mutex_holder []) free_mutex_world.

(** The sequence of [sample_state] while another thread holds its
    [shared_mutex] for reading. *)
Definition read_by_other_sample : @container_mixin.state nat :=
  container_mixin.State (container_mixin.Object shared_holder [3; 1; 3]%nat)
    (set_shared 0 (SharedState false 1) empty_world).

(** A store with the spin lock at 0 free and the spin lock at 1 held. *)
Definition two_spin_world : World :=
  set_spin 1 (SpinState true) free_spin_world.

(** A map from numbers to numbers under the [Mutex] policy. *)
Definition sample_map : @container_mixin.state (Z * Z) :=
  container_mixin.State (container_mixin.Object mutex_holder [(1, 10); (3, 30)])
    free_mutex_world.
(** * Properties *)

(** ** The spin lock *)

Lemma test_and_set_allocated this w s :
  spinlocks w !! this = Some s ->
  SpinLock.test_and_set this w = Ret (flag_ s) (after_test_and_set this s w).
Proof. intros H. unfold SpinLock.test_and_set. now rewrite H. Qed.

Lemma lock_free_flag fuel this w s :
  spinlocks w !! this = Some s -> flag_ s = false ->
  SpinLock.lock (S fuel) this w = Ret tt (after_test_and_set this s w).
Proof.
  intros H Hfree. cbn [SpinLock.lock]. unfold bind.
  rewrite (test_and_set_allocated _ _ _ H), Hfree. reflexivity.
Qed.

(** A held flag stays held under [test_and_set]; so in the sequential
    reading [lock()] on a held flag leaves its loop for no fuel. *)
Lemma lock_held_flag fuel this w s :
  spinlocks w !! this = Some s -> flag_ s = true ->
  SpinLock.lock fuel this w = Blocks.
Proof.
  revert w s. induction fuel as [|fuel IH]; intros w s H Hheld; [reflexivity|].
  cbn [SpinLock.lock]. unfold bind.
  rewrite (test_and_set_allocated _ _ _ H), Hheld.
  apply (IH _ (SpinState true)); [|reflexivity].
  unfold after_test_and_set, log, set_spin; cbn. apply lookup_insert_eq.
Qed.

(** C6: [try_lock()] makes one [test_and_set] and returns; it returns
    [true] exactly when the flag was free; on success it leaves the
    store [lock()] leaves; on failure the primitives are as before. *)
Theorem C6_try_lock_single_attempt (this : addr) (w : World) (s : spin_state)
    (Halloc : spinlocks w !! this = Some s) :
  exists b w',
    SpinLock.try_lock this w = Ret b w' /\
    (b = true <-> flag_ s = false) /\
    trace w' = trace w ++ [TestAndSet this (flag_ s)] /\
    spinlocks w' !! this = Some (SpinState true) /\
    mutexes w' = mutexes w /\ shared_mutexes w' = shared_mutexes w /\
    (b = true -> forall fuel, SpinLock.lock (S fuel) this w = Ret tt w') /\
    (b = false -> spinlocks w' = spinlocks w).
Proof.
  exists (negb (flag_ s)), (after_test_and_set this s w).
  split.
  { unfold SpinLock.try_lock, bind. now rewrite (test_and_set_allocated _ _ _ Halloc). }
  split; [destruct (flag_ s); cbn; intuition congruence|].
  split; [reflexivity|].
  split; [cbn; apply lookup_insert_eq|].
  split; [reflexivity|]. split; [reflexivity|].
  split.
  - intros Hb fuel. apply lock_free_flag; [assumption|].
    now destruct (flag_ s).
  - intros Hb. cbn. apply insert_id. rewrite Halloc.
    destruct s as [[|]]; [reflexivity|discriminate].
Qed.

(** ** The lock holder *)

Lemma fresh_unallocated {V} (m : gmap nat V) : m !! fresh (dom m) = None.
Proof. apply not_elem_of_dom, is_fresh. Qed.

Lemma write_lock_Mutex fuel h w a :
  LockGuard.policy_ h = LockPolicy.Mutex ->
  LockGuard.mutex_ h = Some a -> mutexes w !! a = Some false ->
  LockGuard.write_lock fuel h w = Ret (mutex_guard a) (after_mutex_lock a w).
Proof.
  intros Hp Hm Hfree. unfold LockGuard.write_lock. rewrite Hp, Hm. cbn.
  unfold bind, ret, std.unique_lock_mutex.ctor, std.lock_ctor, bind, std.mutex.lock.
  rewrite Hfree. reflexivity.
Qed.

Lemma write_lock_SpinLock fuel h w a s :
  LockGuard.policy_ h = LockPolicy.SpinLock ->
  LockGuard.spinlock_ h = Some a ->
  spinlocks w !! a = Some s -> flag_ s = false ->
  LockGuard.write_lock (S fuel) h w = Ret (spin_guard a) (after_test_and_set a s w).
Proof.
  intros Hp Hs Halloc Hfree. unfold LockGuard.write_lock. rewrite Hp, Hs.
  cbn [LockPolicy.eqb]. unfold LockGuard.deref, bind, ret, UnifiedLockGuard.from_SpinLock, bind.
  rewrite (lock_free_flag _ _ _ _ Halloc Hfree). reflexivity.
Qed.

Lemma write_lock_LockFree fuel h w :
  LockGuard.policy_ h = LockPolicy.LockFree ->
  LockGuard.write_lock fuel h w = Ret empty_guard w.
Proof. intros Hp. unfold LockGuard.write_lock. rewrite Hp. reflexivity. Qed.

Lemma write_lock_ReadWrite fuel h w :
  LockGuard.policy_ h = LockPolicy.ReadWrite ->
  LockGuard.write_lock fuel h w =
    Throw (logic_error "Cannot acquire write_lock on ReadWrite policy") w.
Proof. intros Hp. unfold LockGuard.write_lock. rewrite Hp. reflexivity. Qed.



(** Under [ReadWrite] the two accessors are the constructors of the
    standard locks on the holder's shared mutex. *)
Lemma read_lock_ReadWrite h w :
  LockGuard.policy_ h = LockPolicy.ReadWrite ->
  LockGuard.read_lock h w =
    (let* m := LockGuard.deref (LockGuard.shared_mutex_ h) in
     std.shared_lock_shared_mutex.ctor m) w.
Proof. intros Hp. unfold LockGuard.read_lock. rewrite Hp. reflexivity. Qed.

Lemma unique_lock_rw_ReadWrite h w :
  LockGuard.policy_ h = LockPolicy.ReadWrite ->
  LockGuard.unique_lock_rw h w =
    (let* m := LockGuard.deref (LockGuard.shared_mutex_ h) in
     std.unique_lock_shared_mutex.ctor m) w.
Proof. intros Hp. unfold LockGuard.unique_lock_rw. rewrite Hp. reflexivity. Qed.

Lemma shared_ctor_never_throws a w e w' :
  std.shared_lock_shared_mutex.ctor a w <> Throw e w' /\
  std.unique_lock_shared_mutex.ctor a w <> Throw e w'.
Proof.
  unfold std.shared_lock_shared_mutex.ctor, std.unique_lock_shared_mutex.ctor,
    std.lock_ctor, bind, std.shared_mutex.lock_shared, std.shared_mutex.lock.
  destruct (shared_mutexes w !! a) as [[[|] [|n]]|]; cbn; split; discriminate.
Qed.

Lemma read_lock_acquires h w a s :
  LockGuard.policy_ h = LockPolicy.ReadWrite ->
  LockGuard.shared_mutex_ h = Some a ->
  shared_mutexes w !! a = Some s -> writer s = false ->
  LockGuard.read_lock h w = Ret (owning_lock a) (after_lock_shared a s w).
Proof.
  intros Hp Hm Halloc Hw. rewrite (read_lock_ReadWrite _ _ Hp), Hm. cbn.
  unfold bind, std.shared_lock_shared_mutex.ctor, std.lock_ctor, bind,
    std.shared_mutex.lock_shared.
  rewrite Halloc, Hw. reflexivity.
Qed.

Lemma unique_lock_rw_acquires h w a s :
  LockGuard.policy_ h = LockPolicy.ReadWrite ->
  LockGuard.shared_mutex_ h = Some a ->
  shared_mutexes w !! a = Some s -> writer s = false -> readers s = O ->
  LockGuard.unique_lock_rw h w = Ret (owning_lock a) (after_lock_exclusive a w).
Proof.
  intros Hp Hm Halloc Hw Hr. rewrite (unique_lock_rw_ReadWrite _ _ Hp), Hm. cbn.
  unfold bind, std.unique_lock_shared_mutex.ctor, std.lock_ctor, bind,
    std.shared_mutex.lock.
  rewrite Halloc, Hw, Hr. reflexivity.
Qed.


(** ** The mixin's lock acquisition *)

Section Acquisition.
Context {T : Type}.
Implicit Types (s : @container_mixin.state T) (Policy : LockPolicy.t).

Lemma on_world_ret {A} (c : M World A) s a w :
  c (container_mixin.world s) = Ret a w ->
  container_mixin.on_world c s = Ret a (container_mixin.State (container_mixin.self s) w).
Proof. intros H. unfold container_mixin.on_world. now rewrite H. Qed.

Lemma acquire_write_lock_exclusive Policy fuel s :
  Policy <> LockPolicy.ReadWrite ->
  container_mixin.acquire_write_lock Policy fuel s =
    container_mixin.on_world
      (fmapM container_mixin.Unified
         (LockGuard.lock fuel (container_mixin.lock_guard_ (container_mixin.self s)))) s.
Proof.
  intros Hp. unfold container_mixin.acquire_write_lock, container_mixin.on_world, fmapM.
  destruct Policy; try congruence; cbn; unfold bind, container_mixin.on_world; cbn;
    destruct (LockGuard.lock _ _ _); reflexivity.
Qed.

Lemma acquire_write_lock_ReadWrite fuel s :
  container_mixin.acquire_write_lock LockPolicy.ReadWrite fuel s =
    container_mixin.on_world
      (fmapM container_mixin.UniqueRW
         (LockGuard.unique_lock_rw (container_mixin.lock_guard_ (container_mixin.self s)))) s.
Proof.
  unfold container_mixin.acquire_write_lock, container_mixin.on_world, fmapM.
  cbn; unfold bind, container_mixin.on_world; cbn.
  destruct (LockGuard.unique_lock_rw _ _); reflexivity.
Qed.

Lemma acquire_read_lock_exclusive Policy fuel s :
  Policy <> LockPolicy.ReadWrite ->
  container_mixin.acquire_read_lock Policy fuel s =
    container_mixin.on_world
      (fmapM container_mixin.Unified
         (LockGuard.lock fuel (container_mixin.lock_guard_ (container_mixin.self s)))) s.
Proof.
  intros Hp. unfold container_mixin.acquire_read_lock, container_mixin.on_world, fmapM.
  destruct Policy; try congruence; cbn; unfold bind, container_mixin.on_world; cbn;
    destruct (LockGuard.lock _ _ _); reflexivity.
Qed.

Lemma acquire_read_lock_ReadWrite fuel s :
  container_mixin.acquire_read_lock LockPolicy.ReadWrite fuel s =
    container_mixin.on_world
      (fmapM container_mixin.SharedRW
         (LockGuard.read_lock (container_mixin.lock_guard_ (container_mixin.self s)))) s.
Proof.
  unfold container_mixin.acquire_read_lock, container_mixin.on_world, fmapM.
  cbn; unfold bind, container_mixin.on_world; cbn.
  destruct (LockGuard.read_lock _ _); reflexivity.
Qed.

Lemma on_world_fmapM_ret {A B} (f : A -> B) (c : M World A) s a w :
  c (container_mixin.world s) = Ret a w ->
  container_mixin.on_world (fmapM f c) s
    = Ret (f a) (container_mixin.State (container_mixin.self s) w).
Proof.
  intros H. unfold container_mixin.on_world, fmapM, bind. now rewrite H.
Qed.

End Acquisition.


(** C4: for every policy but [ReadWrite], [acquire_read_lock()] is
    [acquire_write_lock()], in every state and with every outcome; under
    [ReadWrite] it returns what the holder's [read_lock()] returns, a
    lock owning the shared mutex in shared mode. *)
Theorem C4_acquire_read_lock_routes {T : Type} (Policy : LockPolicy.t)
    (fuel : nat) (s : @container_mixin.state T) :
  (Policy <> LockPolicy.ReadWrite ->
     container_mixin.acquire_read_lock Policy fuel s =
       container_mixin.acquire_write_lock Policy fuel s) /\
  (Policy = LockPolicy.ReadWrite ->
     container_mixin.acquire_read_lock Policy fuel s =
       container_mixin.on_world
         (fmapM container_mixin.SharedRW (LockGuard.read_lock (holder s))) s /\
     forall a st,
       LockGuard.policy_ (holder s) = LockPolicy.ReadWrite ->
       LockGuard.shared_mutex_ (holder s) = Some a ->
       shared_mutexes (container_mixin.world s) !! a = Some st ->
       writer st = false ->
       container_mixin.acquire_read_lock Policy fuel s =
         Ret (container_mixin.SharedRW (owning_lock a))
             (at_world s (after_lock_shared a st (container_mixin.world s)))).
Proof.
  split.
  - intros Hp. rewrite acquire_read_lock_exclusive, acquire_write_lock_exclusive by assumption.
    reflexivity.
  - intros ->. split; [apply acquire_read_lock_ReadWrite|].
    intros a st Hp Hm Halloc Hw. rewrite acquire_read_lock_ReadWrite.
    apply on_world_fmapM_ret. now apply read_lock_acquires.
Qed.

(** C10: on a [ReadWrite] holder [write_lock()] and [lock()] throw
    [std::logic_error] whatever the store, and leave it as it was; the
    mixin's [acquire_write_lock()] for [ReadWrite] is
    [unique_lock_rw()], and so never ends in that exception. *)
Theorem C10_write_lock_throws_under_ReadWrite (fuel : nat) (h : LockGuard.t)
    (w : World) (Hp : LockGuard.policy_ h = LockPolicy.ReadWrite) :
  LockGuard.write_lock fuel h w =
    Throw (logic_error "Cannot acquire write_lock on ReadWrite policy") w /\
  LockGuard.lock fuel h w =
    Throw (logic_error "Cannot acquire write_lock on ReadWrite policy") w /\
  forall (T : Type) (d : list T),
    let s := container_mixin.State (container_mixin.Object h d) w in
    container_mixin.acquire_write_lock LockPolicy.ReadWrite fuel s =
      container_mixin.on_world
        (fmapM container_mixin.UniqueRW (LockGuard.unique_lock_rw h)) s /\
    forall e s', container_mixin.acquire_write_lock LockPolicy.ReadWrite fuel s <> Throw e s'.
Proof.
  split; [now apply write_lock_ReadWrite|].
  split; [now apply write_lock_ReadWrite|].
  intros T d s. split; [apply acquire_write_lock_ReadWrite|].
  intros e s'. rewrite acquire_write_lock_ReadWrite.
  unfold container_mixin.on_world, fmapM, bind. cbn.
  rewrite (unique_lock_rw_ReadWrite _ _ Hp).
  destruct (LockGuard.shared_mutex_ h) as [a|]; cbn; unfold bind, ret; cbn.
  - pose proof (shared_ctor_never_throws a w) as Hn.
    destruct (std.unique_lock_shared_mutex.ctor a w) as [l w1|e1 w1| |] eqn:E;
      try discriminate.
    exfalso. now apply (proj2 (Hn e1 w1)).
  - discriminate.
Qed.

(** ** The unified guard *)

(** *** Primitives and standard locks *)

Lemma mutex_unlock_held a w :
  held w (RMutex a) = true ->
  std.mutex.unlock a w = Ret tt (release (RMutex a) w).
Proof.
  cbn. unfold std.mutex.unlock.
  destruct (mutexes w !! a) as [[|]|]; [reflexivity|discriminate..].
Qed.

Lemma shared_unlock_held a w :
  held w (RShared a) = true ->
  std.shared_mutex.unlock a w = Ret tt (release (RShared a) w).
Proof.
  cbn. unfold std.shared_mutex.unlock.
  destruct (shared_mutexes w !! a) as [[[|] n]|]; [reflexivity|discriminate..].
Qed.

Lemma spin_unlock_held a w :
  held w (RSpin a) = true ->
  SpinLock.unlock a w = Ret tt (release (RSpin a) w).
Proof.
  cbn. unfold SpinLock.unlock, SpinLock.clear.
  destruct (spinlocks w !! a); [reflexivity|discriminate].
Qed.

(** A lock that is in order and whose payload is held runs its
    destructor, which releases that payload. *)
Lemma lock_release_spec (rel : addr -> M World unit) (kind : addr -> resource) l w :
  (forall a w, held w (kind a) = true -> rel a w = Ret tt (release (kind a) w)) ->
  lock_ok l = true ->
  Forall (fun r => held w r = true) (lock_payload kind l) ->
  std.lock_release rel l w = Ret (disowned l) (release_all (lock_payload kind l) w).
Proof.
  intros Hrel Hok Hheld. destruct l as [[a|] [|]]; try discriminate; try reflexivity.
  unfold std.lock_release, lock_payload in *. cbn in *. unfold bind.
  rewrite Hrel; [reflexivity|]. now inversion Hheld.
Qed.

Lemma lock_release_not_owning (rel : addr -> M World unit) l w :
  std.owns l = false -> std.lock_release rel l w = Ret l w.
Proof. intros H. unfold std.lock_release. now rewrite H. Qed.

Lemma lock_payload_not_owning kind l :
  std.owns l = false -> lock_payload kind l = [].
Proof. intros H. unfold lock_payload. now rewrite H. Qed.

Lemma disowned_not_owning l : std.owns l = false -> disowned l = l.
Proof. destruct l as [p o]. cbn. now intros ->. Qed.

(** *** The destructor *)

(** The cases of a well-formed guard. *)
Lemma well_formed_cases g :
  well_formed g = true ->
  let sp := UnifiedLockGuard.spinlock_ g in
  let tag := UnifiedLockGuard.lock_type_ g in
  let mx := UnifiedLockGuard.mutex_lock_ g in
  let rw := UnifiedLockGuard.rw_lock_ g in
  (tag = 0 /\ sp = None /\ lock_ok mx = true /\ std.owns rw = false) \/
  (tag = 1 /\ (exists a, sp = Some a) /\ std.owns mx = false /\ std.owns rw = false) \/
  (tag = 2 /\ sp = None /\ std.owns mx = false /\ lock_ok rw = true) \/
  ((tag = 3 \/ tag = -1) /\ sp = None /\ std.owns mx = false /\ std.owns rw = false).
Proof.
  unfold well_formed. cbv zeta.
  destruct (Z.eqb_spec (UnifiedLockGuard.lock_type_ g) 0) as [E0|N0].
  { intros H. apply andb_prop in H as [H Hrw]. apply andb_prop in H as [Hsp Hmx].
    left. repeat split; try assumption.
    - now destruct (UnifiedLockGuard.spinlock_ g).
    - now apply negb_true_iff. }
  destruct (Z.eqb_spec (UnifiedLockGuard.lock_type_ g) 1) as [E1|N1].
  { intros H. apply andb_prop in H as [H Hrw]. apply andb_prop in H as [Hsp Hmx].
    right; left. repeat split; try assumption; try now apply negb_true_iff.
    destruct (UnifiedLockGuard.spinlock_ g) as [a|]; [now exists a|discriminate]. }
  destruct (Z.eqb_spec (UnifiedLockGuard.lock_type_ g) 2) as [E2|N2].
  { intros H. apply andb_prop in H as [H Hrw]. apply andb_prop in H as [Hsp Hmx].
    right; right; left. repeat split; try assumption; try now apply negb_true_iff.
    now destruct (UnifiedLockGuard.spinlock_ g). }
  destruct (Z.eqb_spec (UnifiedLockGuard.lock_type_ g) 3) as [E3|N3];
    destruct (Z.eqb_spec (UnifiedLockGuard.lock_type_ g) (-1)) as [E4|N4]; cbn;
    try discriminate;
    intros H; apply andb_prop in H as [H Hrw]; apply andb_prop in H as [Hsp Hmx];
    right; right; right;
    (repeat split; try assumption; try (now apply negb_true_iff);
     [tauto | now destruct (UnifiedLockGuard.spinlock_ g)]).
Qed.

Lemma not_owning_ok l : std.owns l = false -> lock_ok l = true.
Proof. unfold lock_ok. now intros ->. Qed.

(** The payload of a well-formed guard, by tag. *)
Lemma payload_by_tag g :
  well_formed g = true ->
  payload g =
    if UnifiedLockGuard.lock_type_ g =? 0 then lock_payload RMutex (UnifiedLockGuard.mutex_lock_ g)
    else if UnifiedLockGuard.lock_type_ g =? 1 then
      match UnifiedLockGuard.spinlock_ g with Some a => [RSpin a] | None => [] end
    else if UnifiedLockGuard.lock_type_ g =? 2 then lock_payload RShared (UnifiedLockGuard.rw_lock_ g)
    else [].
Proof.
  intros Hwf. unfold payload.
  destruct (well_formed_cases g Hwf) as
    [(Et & Esp & Hmx & Hrw)|[(Et & [a Esp] & Hmx & Hrw)|[(Et & Esp & Hmx & Hrw)|(Et & Esp & Hmx & Hrw)]]].
  - rewrite Et, (lock_payload_not_owning _ _ Hrw). reflexivity.
  - rewrite Et, Esp, (lock_payload_not_owning _ _ Hrw), (lock_payload_not_owning _ _ Hmx).
    reflexivity.
  - rewrite Et, (lock_payload_not_owning _ _ Hmx). cbn. apply app_nil_r.
  - rewrite (lock_payload_not_owning _ _ Hrw), (lock_payload_not_owning _ _ Hmx).
    destruct Et as [-> | ->]; reflexivity.
Qed.

(** At most one payload is active. *)
Lemma payload_at_most_one g :
  well_formed g = true -> (length (payload g) <= 1)%nat.
Proof.
  intros Hwf. rewrite (payload_by_tag g Hwf). unfold lock_payload.
  repeat match goal with
         | |- context [if ?b then _ else _] => destruct b
         | |- context [match ?o with Some _ => _ | None => _ end] => destruct o
         end; cbn; lia.
Qed.

(** The destructor of a well-formed guard whose payload is held
    returns, releases that payload and leaves the guard without one. *)
Lemma dtor_spec g w :
  well_formed g = true ->
  Forall (fun r => held w r = true) (payload g) ->
  UnifiedLockGuard.dtor g w = Ret (destroyed g) (release_all (payload g) w).
Proof.
  intros Hwf Hheld. unfold UnifiedLockGuard.dtor, destroyed, payload in *.
  unfold std.unique_lock_shared_mutex.dtor, std.unique_lock_mutex.dtor, std.lock_dtor.
  destruct (well_formed_cases g Hwf) as
    [(Et & Esp & Hmx & Hrw)|[(Et & [a Esp] & Hmx & Hrw)|[(Et & Esp & Hmx & Hrw)|(Et & Esp & Hmx & Hrw)]]].
  - rewrite Et in *. cbn [Z.eqb] in *.
    rewrite (lock_payload_not_owning _ _ Hrw) in *. cbn [app] in *.
    unfold bind at 1. cbn. unfold bind at 1.
    rewrite (lock_release_not_owning _ _ _ Hrw). unfold bind.
    rewrite (lock_release_spec _ RMutex _ _ mutex_unlock_held Hmx Hheld).
    cbn. now rewrite (disowned_not_owning _ Hrw).
  - rewrite Et, Esp in *. cbn [Z.eqb Pos.eqb] in *.
    rewrite (lock_payload_not_owning _ _ Hrw), (lock_payload_not_owning _ _ Hmx) in *.
    cbn [app] in *. unfold bind at 1.
    rewrite spin_unlock_held by now inversion Hheld.
    unfold bind at 1. rewrite (lock_release_not_owning _ _ _ Hrw). unfold bind.
    rewrite (lock_release_not_owning _ _ _ Hmx). cbn.
    now rewrite (disowned_not_owning _ Hrw), (disowned_not_owning _ Hmx).
  - rewrite Et in *. cbn [Z.eqb Pos.eqb] in *.
    rewrite (lock_payload_not_owning _ _ Hmx) in *. rewrite app_nil_r in *. cbn [app] in *.
    unfold bind at 1. cbn. unfold bind at 1.
    rewrite (lock_release_spec _ RShared _ _ shared_unlock_held Hrw Hheld). unfold bind.
    rewrite (lock_release_not_owning _ _ _ Hmx).
    cbn. now rewrite (disowned_not_owning _ Hmx).
  - rewrite (lock_payload_not_owning _ _ Hrw), (lock_payload_not_owning _ _ Hmx) in *.
    assert (Hn1 : (UnifiedLockGuard.lock_type_ g =? 1) = false)
      by (destruct Et as [-> | ->]; reflexivity).
    rewrite Hn1. cbn [app]. unfold bind at 1. cbn. unfold bind at 1.
    rewrite (lock_release_not_owning _ _ _ Hrw). unfold bind.
    rewrite (lock_release_not_owning _ _ _ Hmx). cbn.
    now rewrite (disowned_not_owning _ Hrw), (disowned_not_owning _ Hmx).
Qed.

(** *** The move operations *)

Lemma lock_eta l : std.Lock (std.pm l) (std.owns l) = l.
Proof. now destruct l. Qed.

(** The shared tail of both moves: the destination, whose member locks
    own nothing and whose tag and spin pointer are already the
    source's, takes the payload over; the source is left empty. *)
Lemma take_payload_spec this other w :
  well_formed other = true ->
  std.owns (UnifiedLockGuard.mutex_lock_ this) = false ->
  std.owns (UnifiedLockGuard.rw_lock_ this) = false ->
  UnifiedLockGuard.spinlock_ this = UnifiedLockGuard.spinlock_ other ->
  UnifiedLockGuard.lock_type_ this = UnifiedLockGuard.lock_type_ other ->
  exists this' other',
    UnifiedLockGuard.take_payload this other w = Ret (this', other') w /\
    well_formed this' = true /\ payload this' = payload other /\
    UnifiedLockGuard.lock_type_ this' = UnifiedLockGuard.lock_type_ other /\
    UnifiedLockGuard.spinlock_ other' = None /\
    UnifiedLockGuard.lock_type_ other' = -1 /\
    well_formed other' = true /\ payload other' = [].
Proof.
  intros Hwf Hmx Hrw Hsp Hty.
  unfold UnifiedLockGuard.take_payload, std.unique_lock_mutex.move_assign,
    std.unique_lock_shared_mutex.move_assign, std.lock_move_assign, std.lock_move.
  destruct this as [sp ty mx rw]. cbn in Hmx, Hrw, Hsp, Hty. subst sp ty.
  destruct (well_formed_cases other Hwf) as
    [(Et & Esp & Hmo & Hro)|[(Et & [a Esp] & Hmo & Hro)|[(Et & Esp & Hmo & Hro)|(Et & Esp & Hmo & Hro)]]].
  - rewrite Et. cbn.
    unfold bind at 1. unfold bind at 1.
    rewrite (lock_release_not_owning _ _ _ Hmx). cbn. rewrite lock_eta.
    eexists _, _. split; [reflexivity|].
    unfold well_formed, payload, lock_payload. cbn.
    rewrite ?Et, ?Esp, ?Hmo, ?Hrw, ?Hro. cbn. repeat split.
  - rewrite Et. cbn.
    eexists _, _. split; [reflexivity|].
    unfold well_formed, payload, lock_payload. cbn.
    rewrite ?Et, ?Esp, ?Hmx, ?Hmo, ?Hrw, ?Hro. cbn. repeat split.
  - rewrite Et. cbn.
    unfold bind at 1. unfold bind at 1.
    rewrite (lock_release_not_owning _ _ _ Hrw). cbn. rewrite lock_eta.
    eexists _, _. split; [reflexivity|].
    unfold well_formed, payload, lock_payload. cbn.
    rewrite ?Et, ?Esp, ?Hmx, ?Hmo, ?Hrw, ?Hro. cbn. rewrite ?app_nil_r. repeat split.
  - assert (Hn : (UnifiedLockGuard.lock_type_ other =? 0) = false /\
                 (UnifiedLockGuard.lock_type_ other =? 1) = false /\
                 (UnifiedLockGuard.lock_type_ other =? 2) = false /\
                 ((UnifiedLockGuard.lock_type_ other =? 3)
                  || (UnifiedLockGuard.lock_type_ other =? -1)) = true)
      by (destruct Et as [-> | ->]; repeat split).
    destruct Hn as (H0 & H1 & H2 & H3). rewrite H0, H2. cbn.
    eexists _, _. split; [reflexivity|].
    unfold well_formed, payload, lock_payload. cbn.
    rewrite ?H0, ?H1, ?H2, ?H3, ?Esp, ?Hmx, ?Hmo, ?Hrw, ?Hro. cbn. repeat split.
Qed.

(** Move construction moves the payload and the tag into the new guard
    and leaves the source empty; the store is not touched. *)
Lemma move_ctor_spec other w :
  well_formed other = true ->
  exists this' other',
    UnifiedLockGuard.move_ctor other w = Ret (this', other') w /\
    well_formed this' = true /\ payload this' = payload other /\
    UnifiedLockGuard.lock_type_ this' = UnifiedLockGuard.lock_type_ other /\
    UnifiedLockGuard.spinlock_ other' = None /\
    UnifiedLockGuard.lock_type_ other' = -1 /\
    well_formed other' = true /\ payload other' = [].
Proof.
  intros Hwf. unfold UnifiedLockGuard.move_ctor.
  now apply take_payload_spec.
Qed.

(** The destructor of a guard returns or leaves defined behaviour; it
    neither throws nor waits. *)
Lemma lock_release_returns_or_undefined (rel : addr -> M World unit) l w :
  (forall a w0, (exists w1, rel a w0 = Ret tt w1) \/ rel a w0 = Undefined) ->
  (exists l' w', std.lock_release rel l w = Ret l' w') \/
  std.lock_release rel l w = Undefined.
Proof.
  intros Hrel. unfold std.lock_release.
  destruct (std.owns l); [|left; now eexists _, _].
  destruct (std.pm l) as [a|]; [|left; now eexists _, _].
  unfold bind. destruct (Hrel a w) as [[w1 ->]| ->]; [left; now eexists _, _|now right].
Qed.

Lemma dtor_returns_or_undefined g w :
  (exists g' w', UnifiedLockGuard.dtor g w = Ret g' w') \/
  UnifiedLockGuard.dtor g w = Undefined.
Proof.
  assert (Hmutex : forall a w0,
    (exists w1, std.mutex.unlock a w0 = Ret tt w1) \/ std.mutex.unlock a w0 = Undefined).
  { intros a w0. unfold std.mutex.unlock.
    destruct (mutexes w0 !! a) as [[|]|]; [left; now eexists|now right|now right]. }
  assert (Hshared : forall a w0,
    (exists w1, std.shared_mutex.unlock a w0 = Ret tt w1) \/
    std.shared_mutex.unlock a w0 = Undefined).
  { intros a w0. unfold std.shared_mutex.unlock.
    destruct (shared_mutexes w0 !! a) as [st|]; [|now right].
    destruct (writer st); [left; now eexists|now right]. }
  assert (Hbody : exists c : M World unit,
    UnifiedLockGuard.dtor g =
      (c ;;
       let* rw := std.unique_lock_shared_mutex.dtor (UnifiedLockGuard.rw_lock_ g) in
       let* mx := std.unique_lock_mutex.dtor (UnifiedLockGuard.mutex_lock_ g) in
       ret (UnifiedLockGuard.Guard (UnifiedLockGuard.spinlock_ g)
              (UnifiedLockGuard.lock_type_ g) mx rw)) /\
    forall w0, (exists w1, c w0 = Ret tt w1) \/ c w0 = Undefined).
  { eexists. split; [reflexivity|]. intros w0.
    destruct (UnifiedLockGuard.lock_type_ g =? 1); [|left; now eexists].
    destruct (UnifiedLockGuard.spinlock_ g) as [p|]; [|left; now eexists].
    unfold SpinLock.unlock, SpinLock.clear.
    destruct (spinlocks w0 !! p); [left; now eexists|now right]. }
  destruct Hbody as (c & -> & Hc).
  unfold bind, std.unique_lock_shared_mutex.dtor, std.unique_lock_mutex.dtor,
    std.lock_dtor.
  destruct (Hc w) as [[w1 E1]|E1]; rewrite E1; [|now right].
  destruct (lock_release_returns_or_undefined std.shared_mutex.unlock
              (UnifiedLockGuard.rw_lock_ g) w1 Hshared) as [(rw & w2 & E2)|E2];
    rewrite E2; [|now right].
  destruct (lock_release_returns_or_undefined std.mutex.unlock
              (UnifiedLockGuard.mutex_lock_ g) w2 Hmutex) as [(mx & w3 & E3)|E3];
    rewrite E3; [|now right].
  left. now eexists _, _.
Qed.

(** Move assignment into another guard has no defined result: its
    first statement destroys the destination, and the next uses it. *)
Lemma move_assign_undefined this other w :
  UnifiedLockGuard.move_assign this other w = Undefined.
Proof.
  unfold UnifiedLockGuard.move_assign, bind.
  now destruct (dtor_returns_or_undefined this w) as [(g' & w' & ->)| ->].
Qed.

(** An empty well-formed guard is destroyed without effect. *)
Lemma dtor_empty g w :
  well_formed g = true -> payload g = [] ->
  UnifiedLockGuard.dtor g w = Ret g w.
Proof.
  intros Hwf Hp. rewrite (dtor_spec g w Hwf) by (rewrite Hp; constructor).
  rewrite Hp. cbn. f_equal. unfold destroyed.
  assert (Hmx : std.owns (UnifiedLockGuard.mutex_lock_ g) = false /\
                std.owns (UnifiedLockGuard.rw_lock_ g) = false).
  { unfold payload, lock_payload in Hp.
    destruct (well_formed_cases g Hwf) as
      [(Et & Esp & Hmo & Hro)|[(Et & [a Esp] & Hmo & Hro)|[(Et & Esp & Hmo & Hro)|(Et & Esp & Hmo & Hro)]]];
      try (split; assumption).
    - split; [|assumption]. unfold lock_ok in Hmo. rewrite Hro in Hp.
      destruct (std.owns (UnifiedLockGuard.mutex_lock_ g)); [|reflexivity].
      destruct (std.pm (UnifiedLockGuard.mutex_lock_ g)); [|discriminate].
      apply app_eq_nil in Hp as [_ Hp]. discriminate.
    - split; [assumption|]. unfold lock_ok in Hro.
      destruct (std.owns (UnifiedLockGuard.rw_lock_ g)); [|reflexivity].
      destruct (std.pm (UnifiedLockGuard.rw_lock_ g)); [|discriminate].
      apply app_eq_nil in Hp as [_ Hp]. discriminate. }
  destruct Hmx as [Hmx Hrw].
  rewrite (disowned_not_owning _ Hmx), (disowned_not_owning _ Hrw). now destruct g.
Qed.

(** *** Releases and the record of operations *)

Lemma held_release_other x y w :
  x <> y -> held (release x w) y = held w y.
Proof.
  intros Hne. destruct x as [a|a|a], y as [b|b|b]; cbn; try reflexivity;
    try (destruct (shared_mutexes w !! a); reflexivity);
    try (rewrite lookup_insert_ne by congruence; reflexivity).
  destruct (shared_mutexes w !! a) eqn:E; [|reflexivity].
  cbn. rewrite lookup_insert_ne by congruence. reflexivity.
Qed.

Lemma held_release_same x w :
  held w x = true -> held (release x w) x = false.
Proof.
  destruct x as [a|a|a]; cbn; intros H.
  - now rewrite lookup_insert_eq.
  - now rewrite lookup_insert_eq.
  - destruct (shared_mutexes w !! a) eqn:E; [|discriminate].
    cbn. now rewrite lookup_insert_eq.
Qed.

Lemma release_event_inj x y : release_event x = release_event y -> x = y.
Proof. destruct x, y; cbn; congruence. Qed.

Lemma trace_release x w :
  held w x = true -> trace (release x w) = trace w ++ [release_event x].
Proof.
  destruct x as [a|a|a]; cbn; try reflexivity.
  destruct (shared_mutexes w !! a); [reflexivity|discriminate].
Qed.

Lemma releases_release x y w :
  held w x = true ->
  releases y (trace (release x w))
    = (releases y (trace w) + count_occ resource_eq_dec [x] y)%nat.
Proof.
  intros H. unfold releases. rewrite (trace_release x w H), count_occ_app. f_equal.
  cbn. destruct (event_eq_dec (release_event x) (release_event y)) as [E|N];
    destruct (resource_eq_dec x y) as [E'|N']; try reflexivity.
  - apply release_event_inj in E. contradiction.
  - subst. contradiction.
Qed.

Lemma release_all_app l1 l2 w :
  release_all (l1 ++ l2) w = release_all l2 (release_all l1 w).
Proof. unfold release_all. apply fold_left_app. Qed.

Lemma held_release_all_other rs y w :
  ~ In y rs -> held (release_all rs w) y = held w y.
Proof.
  revert w. induction rs as [|x rs IH]; intros w Hn; [reflexivity|].
  cbn. rewrite IH by (intros Hin; apply Hn; now right).
  apply held_release_other. intros ->. apply Hn. now left.
Qed.

Lemma releases_release_all rs y w :
  List.NoDup rs -> Forall (fun x => held w x = true) rs ->
  releases y (trace (release_all rs w))
    = (releases y (trace w) + count_occ resource_eq_dec rs y)%nat.
Proof.
  revert w. induction rs as [|x rs IH]; intros w Hnd Hheld; [cbn; lia|].
  apply List.NoDup_cons_iff in Hnd as [Hx Hnd].
  apply List.Forall_cons_iff in Hheld as [Hhx Hheld].
  change (release_all (x :: rs) w) with (release_all rs (release x w)).
  rewrite IH.
  - rewrite (releases_release x y w Hhx). cbn.
    destruct (resource_eq_dec x y); lia.
  - exact Hnd.
  - apply List.Forall_forall. intros z Hz. rewrite List.Forall_forall in Hheld.
    rewrite held_release_other; [now apply Hheld|].
    intros ->. contradiction.
Qed.

Lemma payload_NoDup g : well_formed g = true -> List.NoDup (payload g).
Proof.
  intros Hwf. pose proof (payload_at_most_one g Hwf) as Hlen.
  destruct (payload g) as [|x [|y l]]; cbn in Hlen; try lia.
  - constructor.
  - constructor; [intros []|constructor].
Qed.

(** Only tag 1 puts a spin lock into the payload, the one the pointer
    refers to. *)
Lemma spin_in_payload g p :
  well_formed g = true ->
  In (RSpin p) (payload g) <->
  UnifiedLockGuard.lock_type_ g = 1 /\ UnifiedLockGuard.spinlock_ g = Some p.
Proof.
  intros Hwf. rewrite (payload_by_tag g Hwf). unfold lock_payload.
  destruct (Z.eqb_spec (UnifiedLockGuard.lock_type_ g) 0) as [E0|N0].
  { rewrite E0. split; [|intros [? _]; lia].
    destruct (std.owns _); [destruct (std.pm _)|]; cbn; intuition discriminate. }
  destruct (Z.eqb_spec (UnifiedLockGuard.lock_type_ g) 1) as [E1|N1].
  { destruct (UnifiedLockGuard.spinlock_ g); cbn; intuition congruence. }
  destruct (Z.eqb_spec (UnifiedLockGuard.lock_type_ g) 2) as [E2|N2].
  { split; [|intros [? _]; lia].
    destruct (std.owns _); [destruct (std.pm _)|]; cbn; intuition discriminate. }
  cbn. intuition.
Qed.

(** C5: the constructor from a spin lock is [lock()] on that lock
    followed by a guard with tag 1 that refers to it, so on a free flag
    it returns with the flag taken; the destructor of a guard in one of
    the states the class produces releases the spin lock its pointer
    refers to when the tag is 1, releases no spin lock otherwise, and
    leaves the store as it is under the tags 3 and -1. *)
Theorem C5_spin_guard_locks_and_unlocks (fuel : nat) (a : addr)
    (g : UnifiedLockGuard.t) (w : World)
    (Hwf : well_formed g = true)
    (Hheld : Forall (fun r => held w r = true) (payload g)) :
  UnifiedLockGuard.from_SpinLock fuel a w
    = (SpinLock.lock fuel a ;; ret (spin_guard a)) w /\
  well_formed (spin_guard a) = true /\ payload (spin_guard a) = [RSpin a] /\
  (forall st,
     spinlocks w !! a = Some st -> flag_ st = false -> (0 < fuel)%nat ->
     UnifiedLockGuard.from_SpinLock fuel a w
       = Ret (spin_guard a) (after_test_and_set a st w) /\
     held (after_test_and_set a st w) (RSpin a) = true) /\
  exists w',
    UnifiedLockGuard.dtor g w = Ret (destroyed g) w' /\
    (UnifiedLockGuard.lock_type_ g = 1 ->
       exists p, UnifiedLockGuard.spinlock_ g = Some p /\
                 w' = log (Clear p) (set_spin p (SpinState false) w)) /\
    (UnifiedLockGuard.lock_type_ g <> 1 ->
       forall p, releases (RSpin p) (trace w') = releases (RSpin p) (trace w)) /\
    (UnifiedLockGuard.lock_type_ g = 3 \/ UnifiedLockGuard.lock_type_ g = -1 ->
       w' = w).
Proof.
  split; [reflexivity|]. split; [reflexivity|]. split; [reflexivity|].
  split.
  { intros st Halloc Hfree Hfuel. split.
    - unfold UnifiedLockGuard.from_SpinLock, bind.
      destruct fuel as [|fuel]; [lia|].
      now rewrite (lock_free_flag _ _ _ _ Halloc Hfree).
    - cbn. now rewrite lookup_insert_eq. }
  exists (release_all (payload g) w).
  split; [now apply dtor_spec|]. split; [|split].
  - intros Et. rewrite (payload_by_tag g Hwf), Et. cbn.
    destruct (well_formed_cases g Hwf) as
      [(Et' & _)|[(_ & [p Esp] & _)|[(Et' & _)|([Et'|Et'] & _)]]]; try lia.
    exists p. rewrite Esp. split; reflexivity.
  - intros Nt p.
    rewrite (releases_release_all _ _ _ (payload_NoDup g Hwf) Hheld).
    rewrite (proj1 (count_occ_not_In resource_eq_dec (payload g) (RSpin p))); [lia|].
    rewrite (spin_in_payload g p Hwf). tauto.
  - intros Et. rewrite (payload_by_tag g Hwf).
    destruct Et as [-> | ->]; reflexivity.
Qed.

(** *** Chains of moves *)

Lemma destroy_all_moved_from olds w :
  Forall moved_from olds -> destroy_all olds w = Ret tt w.
Proof.
  induction 1 as [|o olds (Hwf & Hp & _) _ IH]; [reflexivity|].
  cbn. unfold bind. now rewrite (dtor_empty o w Hwf Hp).
Qed.

(** A chain of move constructions, with self-assignments among them,
    runs to its end and touches no primitive; the final holder has the
    payload and the tag of the first; every guard on the way is left
    empty. *)
Lemma move_chain_constructions ms : forall g w,
  well_formed g = true ->
  targets ms = [] ->
  exists final olds,
    move_chain ms g w = Ret (final, olds) w /\
    well_formed final = true /\ payload final = payload g /\
    UnifiedLockGuard.lock_type_ final = UnifiedLockGuard.lock_type_ g /\
    Forall moved_from olds.
Proof.
  induction ms as [|m ms IH]; intros g w Hwf Hnone.
  - exists g, []. split; [reflexivity|]. split; [assumption|].
    split; [reflexivity|]. split; [reflexivity|constructor].
  - destruct m as [|dst|]; [| discriminate Hnone |].
    + destruct (move_ctor_spec g w Hwf)
        as (g' & old & Hrun & Hwf' & Hp' & Ht' & Hsp & Ht & Hwfo & Hpo).
      destruct (IH g' w Hwf' Hnone) as (final & olds & Hrest & Hf1 & Hf2 & Hf3 & Hf4).
      exists final, (old :: olds). cbn [move_chain]. unfold bind at 1. rewrite Hrun.
      unfold bind at 1. rewrite Hrest. cbn. repeat split; try congruence.
      constructor; [repeat split; assumption|assumption].
    + destruct (IH g w Hwf Hnone) as (final & olds & Hrest & Hf).
      exists final, olds. cbn [move_chain]. unfold bind at 1. cbn. now split.
Qed.

(** A chain with an assignment into another guard has no defined
    result. *)
Lemma move_chain_assignment ms : forall g w,
  well_formed g = true ->
  targets ms <> [] ->
  move_chain ms g w = Undefined.
Proof.
  induction ms as [|m ms IH]; intros g w Hwf Hsome; [contradiction|].
  destruct m as [|dst|]; cbn [move_chain].
  - destruct (move_ctor_spec g w Hwf)
      as (g' & old & Hrun & Hwf' & _).
    unfold bind at 1. rewrite Hrun. unfold bind at 1.
    now rewrite (IH g' w Hwf' Hsome).
  - unfold bind at 1. now rewrite move_assign_undefined.
  - unfold bind at 1. cbn. now apply IH.
Qed.

(** C2: a move by construction hands payload and tag to the new guard
    and leaves the source empty with tag -1, so that its destructor
    does nothing; after any chain of move constructions and the
    destruction of every guard involved, last the final holder, the
    resource the first guard held has been released once more than
    before and is free, and no other resource has been released.  A move
    by assignment into another guard has no defined result, and neither
    has a chain with one: [operator=] destroys the destination and goes
    on to use it. *)
Theorem C2_release_through_moves (ms : list move) (g : UnifiedLockGuard.t)
    (w : World) (r : resource)
    (Hwf : well_formed g = true)
    (Hr : payload g = [r])
    (Hheld : held w r = true) :
  (exists g' old,
     UnifiedLockGuard.move_ctor g w = Ret (g', old) w /\
     payload g' = [r] /\
     UnifiedLockGuard.lock_type_ g' = UnifiedLockGuard.lock_type_ g /\
     UnifiedLockGuard.lock_type_ old = -1 /\ payload old = [] /\
     forall w1, UnifiedLockGuard.dtor old w1 = Ret old w1) /\
  (targets ms = [] ->
   exists w',
     moved_then_destroyed ms g w = Ret tt w' /\
     releases r (trace w') = S (releases r (trace w)) /\
     held w' r = false /\
     (forall x, x <> r -> releases x (trace w') = releases x (trace w))) /\
  (forall dst, UnifiedLockGuard.move_assign dst g w = Undefined) /\
  (targets ms <> [] -> moved_then_destroyed ms g w = Undefined).
Proof.
  split; [|split; [|split]].
  - destruct (move_ctor_spec g w Hwf)
      as (g' & old & Hrun & Hwf' & Hp' & Ht' & Hsp & Ht & Hwfo & Hpo).
    exists g', old. repeat split; try congruence.
    intros w1. now apply dtor_empty.
  - intros Hnone.
    destruct (move_chain_constructions ms g w Hwf Hnone)
      as (final & olds & Hrun & Hwff & Hpf & Htf & Holds).
    exists (release r w). split.
    { unfold moved_then_destroyed, bind. rewrite Hrun.
      rewrite (destroy_all_moved_from _ _ Holds).
      rewrite (dtor_spec final w Hwff).
      - rewrite Hpf, Hr. reflexivity.
      - rewrite Hpf, Hr. now constructor. }
    assert (Hcount : forall x,
      releases x (trace (release r w))
        = (releases x (trace w) + count_occ resource_eq_dec [r] x)%nat).
    { intros x. apply (releases_release r x w Hheld). }
    split; [|split].
    + rewrite Hcount. cbn. destruct (resource_eq_dec r r); [lia|contradiction].
    + now apply held_release_same.
    + intros x Hxr. rewrite Hcount.
      cbn. destruct (resource_eq_dec r x) as [->|_]; [contradiction|lia].
  - intros dst. apply move_assign_undefined.
  - intros Hsome. unfold moved_then_destroyed, bind.
    now rewrite (move_chain_assignment ms g w Hwf Hsome).
Qed.
(** ** The mixin's helpers *)

(** C9: the three escape hatches return the size, the emptiness and a
    reference to [data_] itself, and the state they leave (object,
    primitives and record of lock operations) is the state they found:
    no lock is taken or given back.  Reading through the reference
    yields the container of the state it is used in, and writing through
    it replaces that container and nothing else. *)
Theorem C9_unsafe_accessors_take_no_lock {T : Type} (s : @container_mixin.state T) :
  container_mixin.unsafe_size s
    = Ret (Z.of_nat (length (container_mixin.data_ (container_mixin.self s)))) s /\
  (exists b, container_mixin.unsafe_empty s = Ret b s /\
     (b = true <-> container_mixin.data_ (container_mixin.self s) = [])) /\
  (exists r, container_mixin.unsafe_ref s = Ret r s /\
     (forall s1, container_mixin.load r s1
                 = Ret (container_mixin.data_ (container_mixin.self s1)) s1) /\
     (forall d s1, container_mixin.store r d s1
                   = Ret tt (container_mixin.State
                               (container_mixin.Object (holder s1) d)
                               (container_mixin.world s1)))).
Proof.
  split; [reflexivity|]. split.
  - eexists. split; [reflexivity|].
    destruct (container_mixin.data_ (container_mixin.self s)); cbn; intuition congruence.
  - eexists. split; [reflexivity|]. split; reflexivity.
Qed.

Section Queries.
Context {T : Type}.
Variable eqT : T -> T -> bool.
Implicit Types (l : list T) (v : T).

Lemma std_find_le l v : (container_mixin.std_find eqT l v <= length l)%nat.
Proof. induction l as [|x l IH]; cbn; [lia|]. destruct (eqT x v); lia. Qed.



Lemma filter_length_le (f : T -> bool) l :
  (length (List.filter f l) <= length l)%nat.
Proof. induction l as [|x l IH]; cbn; [lia|]. destruct (f x); cbn; lia. Qed.

End Queries.

Lemma insert_twice_id {V} (m : gmap nat V) a x y :
  m !! a = Some y -> <[a := y]> (<[a := x]> m) = m.
Proof. intros H. rewrite insert_insert_eq. now apply insert_id. Qed.

#[local] Arguments container_mixin.acquire_read_lock : simpl never.
#[local] Arguments container_mixin.acquire_write_lock : simpl never.


(** A newly constructed object has the holder of its policy, and its
    read lock can be taken. *)
Lemma ctor_readable {T : Type} Policy (init : list T) w :
  exists o w',
    container_mixin.ctor Policy init w = Ret o w' /\
    container_mixin.data_ o = init /\
    LockGuard.policy_ (container_mixin.lock_guard_ o) = Policy /\
    readable (container_mixin.lock_guard_ o) w' = true.
Proof.
  destruct Policy; cbn; eexists _, _; (split; [reflexivity|]);
    (split; [reflexivity|]); (split; [reflexivity|]);
    unfold readable; cbn; rewrite ?lookup_insert_eq; reflexivity.
Qed.


(** ** The object under the members *)

Section Frame.
Context {T : Type}.
Implicit Types (s : @container_mixin.state T).

Lemma keeps_ret {A} (a : A) : @keeps_object T A (ret a).
Proof. intros s. reflexivity. Qed.

Lemma keeps_derived : keeps_object (@container_mixin.derived T).
Proof. intros s. reflexivity. Qed.

Lemma keeps_on_world {A} (c : M World A) :
  keeps_object (@container_mixin.on_world T A c).
Proof.
  intros s. unfold container_mixin.on_world.
  destruct (c (container_mixin.world s)); reflexivity.
Qed.

Lemma keeps_bind {A B} (c : M (@container_mixin.state T) A)
    (k : A -> M (@container_mixin.state T) B) :
  keeps_object c -> (forall a, keeps_object (k a)) -> keeps_object (bind c k).
Proof.
  intros Hc Hk s. unfold bind. specialize (Hc s).
  destruct (c s) as [a s1|e s1| |]; try exact Hc; try exact I.
  specialize (Hk a s1). destruct (k a s1); try exact I; congruence.
Qed.

Lemma keeps_acquire_write_lock Policy fuel :
  keeps_object (@container_mixin.acquire_write_lock T Policy fuel).
Proof.
  unfold container_mixin.acquire_write_lock.
  apply keeps_bind; [apply keeps_derived|]. intros this.
  destruct Policy;
    (apply keeps_bind; [apply keeps_on_world|intros ?; apply keeps_ret]).
Qed.

Lemma keeps_acquire_read_lock Policy fuel :
  keeps_object (@container_mixin.acquire_read_lock T Policy fuel).
Proof.
  unfold container_mixin.acquire_read_lock.
  apply keeps_bind; [apply keeps_derived|]. intros this.
  destruct Policy; cbn [LockPolicy.eqb];
    (apply keeps_bind; [apply keeps_on_world|intros ?; apply keeps_ret]).
Qed.

Lemma keeps_read_data_ : keeps_object (@container_mixin.read_data_ T).
Proof.
  unfold container_mixin.read_data_.
  apply keeps_bind; [apply keeps_derived|]. intros this.
  apply keeps_bind; [apply keeps_on_world|intros ?; apply keeps_ret].
Qed.

Lemma keeps_contains eqT Policy fuel v :
  keeps_object (@container_mixin.contains T eqT Policy fuel v).
Proof.
  unfold container_mixin.contains.
  apply keeps_bind; [apply keeps_acquire_read_lock|]. intros g.
  apply keeps_bind; [apply keeps_read_data_|]. intros this.
  apply keeps_bind; [apply keeps_on_world|intros ?; apply keeps_ret].
Qed.

Lemma keeps_count eqT Policy fuel v :
  keeps_object (@container_mixin.count T eqT Policy fuel v).
Proof.
  unfold container_mixin.count.
  apply keeps_bind; [apply keeps_acquire_read_lock|]. intros g.
  apply keeps_bind; [apply keeps_read_data_|]. intros this.
  apply keeps_bind; [apply keeps_on_world|intros ?; apply keeps_ret].
Qed.

Lemma keeps_copy Policy fuel :
  keeps_object (@container_mixin.copy T Policy fuel).
Proof.
  unfold container_mixin.copy.
  apply keeps_bind; [apply keeps_acquire_read_lock|]. intros g.
  apply keeps_bind; [apply keeps_read_data_|]. intros this.
  apply keeps_bind; [apply keeps_on_world|intros ?; apply keeps_ret].
Qed.

Lemma keeps_policy {A} (c : M (@container_mixin.state T) A) s :
  keeps_object c ->
  policy_kept (LockGuard.policy (holder s)) (c s).
Proof.
  intros Hc. specialize (Hc s). unfold policy_kept.
  destruct (c s); try exact I; now rewrite Hc.
Qed.

End Frame.

(** C7: the constructor allocates the one primitive of its policy, at an
    address that was not in use and in the free state, leaves the other
    two slots empty and touches nothing else; for [LockFree] it
    allocates nothing.  [policy()] is the constructor's argument, and
    stays so: the members of the class are [const], and whatever member
    of the mixin runs on an object with this holder, the holder reports
    that policy when the call ends. *)
Theorem C7_ctor_allocates_matching_primitive (policy : LockPolicy.t) (w : World) :
  exists h w',
    LockGuard.ctor policy w = Ret h w' /\
    LockGuard.policy h = policy /\
    trace w' = trace w /\
    match policy with
    | LockPolicy.Mutex =>
        exists a, LockGuard.mutex_ h = Some a /\
          LockGuard.spinlock_ h = None /\ LockGuard.shared_mutex_ h = None /\
          mutexes w !! a = None /\ mutexes w' = <[a := false]> (mutexes w) /\
          spinlocks w' = spinlocks w /\ shared_mutexes w' = shared_mutexes w
    | LockPolicy.SpinLock =>
        exists a, LockGuard.spinlock_ h = Some a /\
          LockGuard.mutex_ h = None /\ LockGuard.shared_mutex_ h = None /\
          spinlocks w !! a = None /\
          spinlocks w' = <[a := SpinState false]> (spinlocks w) /\
          mutexes w' = mutexes w /\ shared_mutexes w' = shared_mutexes w
    | LockPolicy.ReadWrite =>
        exists a, LockGuard.shared_mutex_ h = Some a /\
          LockGuard.mutex_ h = None /\ LockGuard.spinlock_ h = None /\
          shared_mutexes w !! a = None /\
          shared_mutexes w' = <[a := SharedState false 0]> (shared_mutexes w) /\
          mutexes w' = mutexes w /\ spinlocks w' = spinlocks w
    | LockPolicy.LockFree =>
        LockGuard.mutex_ h = None /\ LockGuard.spinlock_ h = None /\
        LockGuard.shared_mutex_ h = None /\ w' = w
    end /\
    forall (T : Type) (eqT : T -> T -> bool) (Policy : LockPolicy.t) (fuel : nat)
           (v : T) (d : list T) (w1 : World),
      let s := container_mixin.State (container_mixin.Object h d) w1 in
      policy_kept policy (container_mixin.acquire_write_lock Policy fuel s) /\
      policy_kept policy (container_mixin.acquire_read_lock Policy fuel s) /\
      policy_kept policy (container_mixin.contains eqT Policy fuel v s) /\
      policy_kept policy (container_mixin.count eqT Policy fuel v s) /\
      policy_kept policy (container_mixin.copy Policy fuel s).
Proof.
  assert (Hkept : forall h, LockGuard.policy h = policy ->
    forall (T : Type) (eqT : T -> T -> bool) (Policy : LockPolicy.t) (fuel : nat)
           (v : T) (d : list T) (w1 : World),
      let s := container_mixin.State (container_mixin.Object h d) w1 in
      policy_kept policy (container_mixin.acquire_write_lock Policy fuel s) /\
      policy_kept policy (container_mixin.acquire_read_lock Policy fuel s) /\
      policy_kept policy (container_mixin.contains eqT Policy fuel v s) /\
      policy_kept policy (container_mixin.count eqT Policy fuel v s) /\
      policy_kept policy (container_mixin.copy Policy fuel s)).
  { intros h <- T eqT Policy fuel v d w1 s.
    change (LockGuard.policy h) with (LockGuard.policy (holder s)).
    repeat split; apply keeps_policy.
    - apply keeps_acquire_write_lock.
    - apply keeps_acquire_read_lock.
    - apply keeps_contains.
    - apply keeps_count.
    - apply keeps_copy. }
  destruct policy; cbn; eexists _, _; (split; [reflexivity|]);
    (split; [reflexivity|]); (split; [reflexivity|]);
    (split; [|now apply Hkept]).
  - eexists; repeat (split; [reflexivity|]); cbn.
    split; [apply fresh_unallocated|]. repeat split.
  - eexists; repeat (split; [reflexivity|]); cbn.
    split; [apply fresh_unallocated|]. repeat split.
  - repeat split.
  - eexists; repeat (split; [reflexivity|]); cbn.
    split; [apply fresh_unallocated|]. repeat split.
Qed.

(** * Further properties *)

(** ** The lock around a member *)

Lemma world_eq w w' :
  mutexes w' = mutexes w -> spinlocks w' = spinlocks w ->
  shared_mutexes w' = shared_mutexes w -> trace w' = trace w -> w' = w.
Proof. destruct w, w'. cbn. now intros -> -> -> ->. Qed.

Lemma writable_readable h w : writable h w = true -> readable h w = true.
Proof.
  unfold writable, readable. destruct (LockGuard.policy_ h); try tauto.
  destruct (LockGuard.shared_mutex_ h); [|tauto].
  destruct (shared_mutexes w !! n); [|tauto].
  now intros [H _]%andb_prop.
Qed.

Section MemberLock.
Context {T : Type}.
Implicit Types (s : @container_mixin.state T) (Policy : LockPolicy.t).

(** Taking the read lock of an idle holder returns a guard, in the
    store [read_locked]; the destructor of that guard returns there and
    leaves the store of before with one read cycle on record. *)
Lemma acquire_read_idle Policy fuel s :
  LockGuard.policy_ (holder s) = Policy ->
  readable (holder s) (container_mixin.world s) = true ->
  (0 < fuel)%nat ->
  exists g,
    container_mixin.acquire_read_lock Policy fuel s
      = Ret g (at_world s (read_locked (holder s) (container_mixin.world s))) /\
    container_mixin.guard_dtor g (read_locked (holder s) (container_mixin.world s))
      = Ret tt (with_events (container_mixin.world s) (read_cycle (holder s))).
Proof.
  destruct s as [[h d] w]. cbn. intros Hp Hidle Hfuel.
  destruct fuel as [|fuel]; [lia|]. unfold readable in Hidle.
  unfold read_locked, write_locked, read_cycle, read_acquisition, read_release.
  destruct Policy; rewrite Hp in *.
  - destruct (LockGuard.mutex_ h) as [a|] eqn:Hmx; [|discriminate].
    destruct (mutexes w !! a) as [[|]|] eqn:Hfree; try discriminate.
    exists (container_mixin.Unified (mutex_guard a)). split.
    { rewrite acquire_read_lock_exclusive by discriminate.
      apply on_world_fmapM_ret. now apply write_lock_Mutex. }
    unfold container_mixin.guard_dtor, bind.
    rewrite dtor_spec; [|reflexivity|].
    + cbn. f_equal. apply world_eq; cbn; try reflexivity.
      * first [now apply insert_twice_id | symmetry; now apply insert_twice_id].
      * now rewrite <- app_assoc.
    + repeat constructor. cbn. now rewrite lookup_insert_eq.
  - destruct (LockGuard.spinlock_ h) as [a|] eqn:Hsp; [|discriminate].
    destruct (spinlocks w !! a) as [[[|]]|] eqn:Hfree; try discriminate.
    exists (container_mixin.Unified (spin_guard a)). split.
    { rewrite acquire_read_lock_exclusive by discriminate.
      apply on_world_fmapM_ret. now apply write_lock_SpinLock. }
    unfold container_mixin.guard_dtor, bind.
    rewrite dtor_spec; [|reflexivity|].
    + cbn. f_equal. apply world_eq; cbn; try reflexivity.
      * first [now apply insert_twice_id | symmetry; now apply insert_twice_id].
      * now rewrite <- app_assoc.
    + repeat constructor. cbn. now rewrite lookup_insert_eq.
  - exists (container_mixin.Unified empty_guard). split.
    { rewrite acquire_read_lock_exclusive by discriminate.
      apply (on_world_fmapM_ret _ _ (container_mixin.State (container_mixin.Object h d) w)).
      now apply write_lock_LockFree. }
    cbn. f_equal. apply world_eq; cbn; try reflexivity. now rewrite app_nil_r.
  - destruct (LockGuard.shared_mutex_ h) as [a|] eqn:Hmx; [|discriminate].
    destruct (shared_mutexes w !! a) as [[wr n]|] eqn:Halloc; [|discriminate].
    cbn in Hidle. destruct wr; [discriminate|].
    exists (container_mixin.SharedRW (owning_lock a)). split.
    { rewrite acquire_read_lock_ReadWrite.
      apply on_world_fmapM_ret. now apply read_lock_acquires. }
    unfold container_mixin.guard_dtor, std.shared_lock_shared_mutex.dtor,
      std.lock_dtor, std.lock_release, owning_lock. cbn.
    unfold bind at 1. unfold bind at 1. unfold std.shared_mutex.unlock_shared.
    cbn. rewrite lookup_insert_eq. cbn. f_equal.
    apply world_eq; cbn; try reflexivity.
    + first [now apply insert_twice_id | symmetry; now apply insert_twice_id].
    + now rewrite <- app_assoc.
Qed.

(** The same for the write lock. *)
Lemma acquire_write_idle Policy fuel s :
  LockGuard.policy_ (holder s) = Policy ->
  writable (holder s) (container_mixin.world s) = true ->
  (0 < fuel)%nat ->
  exists g,
    container_mixin.acquire_write_lock Policy fuel s
      = Ret g (at_world s (write_locked (holder s) (container_mixin.world s))) /\
    container_mixin.guard_dtor g (write_locked (holder s) (container_mixin.world s))
      = Ret tt (with_events (container_mixin.world s) (write_cycle (holder s))).
Proof.
  destruct s as [[h d] w]. cbn. intros Hp Hidle Hfuel.
  destruct fuel as [|fuel]; [lia|]. unfold writable in Hidle.
  unfold write_locked, write_cycle, write_acquisition, write_release.
  destruct Policy; rewrite Hp in *.
  - destruct (LockGuard.mutex_ h) as [a|] eqn:Hmx; [|discriminate].
    destruct (mutexes w !! a) as [[|]|] eqn:Hfree; try discriminate.
    exists (container_mixin.Unified (mutex_guard a)). split.
    { rewrite acquire_write_lock_exclusive by discriminate.
      apply on_world_fmapM_ret. now apply write_lock_Mutex. }
    unfold container_mixin.guard_dtor, bind.
    rewrite dtor_spec; [|reflexivity|].
    + cbn. f_equal. apply world_eq; cbn; try reflexivity.
      * first [now apply insert_twice_id | symmetry; now apply insert_twice_id].
      * now rewrite <- app_assoc.
    + repeat constructor. cbn. now rewrite lookup_insert_eq.
  - destruct (LockGuard.spinlock_ h) as [a|] eqn:Hsp; [|discriminate].
    destruct (spinlocks w !! a) as [[[|]]|] eqn:Hfree; try discriminate.
    exists (container_mixin.Unified (spin_guard a)). split.
    { rewrite acquire_write_lock_exclusive by discriminate.
      apply on_world_fmapM_ret. now apply write_lock_SpinLock. }
    unfold container_mixin.guard_dtor, bind.
    rewrite dtor_spec; [|reflexivity|].
    + cbn. f_equal. apply world_eq; cbn; try reflexivity.
      * first [now apply insert_twice_id | symmetry; now apply insert_twice_id].
      * now rewrite <- app_assoc.
    + repeat constructor. cbn. now rewrite lookup_insert_eq.
  - exists (container_mixin.Unified empty_guard). split.
    { rewrite acquire_write_lock_exclusive by discriminate.
      apply (on_world_fmapM_ret _ _ (container_mixin.State (container_mixin.Object h d) w)).
      now apply write_lock_LockFree. }
    cbn. f_equal. apply world_eq; cbn; try reflexivity. now rewrite app_nil_r.
  - destruct (LockGuard.shared_mutex_ h) as [a|] eqn:Hmx; [|discriminate].
    destruct (shared_mutexes w !! a) as [[wr n]|] eqn:Halloc; [|discriminate].
    cbn in Hidle. apply andb_prop in Hidle as [Hwr Hn].
    destruct wr; [discriminate|]. apply Nat.eqb_eq in Hn. subst n.
    exists (container_mixin.UniqueRW (owning_lock a)). split.
    { rewrite acquire_write_lock_ReadWrite.
      apply on_world_fmapM_ret. now apply unique_lock_rw_acquires with (SharedState false 0). }
    unfold container_mixin.guard_dtor, std.unique_lock_shared_mutex.dtor,
      std.lock_dtor, std.lock_release, owning_lock. cbn.
    unfold bind at 1. unfold bind at 1. unfold std.shared_mutex.unlock.
    cbn. rewrite lookup_insert_eq. cbn. f_equal.
    apply world_eq; cbn; try reflexivity.
    + first [now apply insert_twice_id | symmetry; now apply insert_twice_id].
    + now rewrite <- app_assoc.
Qed.

(** A member that takes the write lock for its body: when the body
    returns or throws with the store as it found it, so does the
    member, and the store is the one of before with one write cycle on
    record. *)
Lemma write_member_ret {A} Policy fuel (body : M (@container_mixin.state T) A) s a o :
  LockGuard.policy_ (holder s) = Policy ->
  writable (holder s) (container_mixin.world s) = true ->
  (0 < fuel)%nat ->
  body (at_world s (write_locked (holder s) (container_mixin.world s)))
    = Ret a (container_mixin.State o (write_locked (holder s) (container_mixin.world s))) ->
  (let* guard := container_mixin.acquire_write_lock Policy fuel in
   container_mixin.scoped guard body) s
    = Ret a (container_mixin.State o
               (with_events (container_mixin.world s) (write_cycle (holder s)))).
Proof.
  intros Hp Hidle Hfuel Hbody.
  destruct (acquire_write_idle Policy fuel s Hp Hidle Hfuel) as (g & Hacq & Hrel).
  unfold bind at 1. rewrite Hacq.
  unfold container_mixin.scoped, finally. rewrite Hbody.
  unfold bind, container_mixin.on_world. cbn. now rewrite Hrel.
Qed.

Lemma write_member_throw {A} Policy fuel (body : M (@container_mixin.state T) A) s e o :
  LockGuard.policy_ (holder s) = Policy ->
  writable (holder s) (container_mixin.world s) = true ->
  (0 < fuel)%nat ->
  body (at_world s (write_locked (holder s) (container_mixin.world s)))
    = Throw e (container_mixin.State o (write_locked (holder s) (container_mixin.world s))) ->
  (let* guard := container_mixin.acquire_write_lock Policy fuel in
   container_mixin.scoped guard body) s
    = Throw e (container_mixin.State o
                 (with_events (container_mixin.world s) (write_cycle (holder s)))).
Proof.
  intros Hp Hidle Hfuel Hbody.
  destruct (acquire_write_idle Policy fuel s Hp Hidle Hfuel) as (g & Hacq & Hrel).
  unfold bind at 1. rewrite Hacq.
  unfold container_mixin.scoped, finally. rewrite Hbody.
  unfold bind, container_mixin.on_world. cbn. now rewrite Hrel.
Qed.

Lemma read_member_ret {A} Policy fuel (body : M (@container_mixin.state T) A) s a o :
  LockGuard.policy_ (holder s) = Policy ->
  readable (holder s) (container_mixin.world s) = true ->
  (0 < fuel)%nat ->
  body (at_world s (read_locked (holder s) (container_mixin.world s)))
    = Ret a (container_mixin.State o (read_locked (holder s) (container_mixin.world s))) ->
  (let* guard := container_mixin.acquire_read_lock Policy fuel in
   container_mixin.scoped guard body) s
    = Ret a (container_mixin.State o
               (with_events (container_mixin.world s) (read_cycle (holder s)))).
Proof.
  intros Hp Hidle Hfuel Hbody.
  destruct (acquire_read_idle Policy fuel s Hp Hidle Hfuel) as (g & Hacq & Hrel).
  unfold bind at 1. rewrite Hacq.
  unfold container_mixin.scoped, finally. rewrite Hbody.
  unfold bind, container_mixin.on_world. cbn. now rewrite Hrel.
Qed.

Lemma read_member_throw {A} Policy fuel (body : M (@container_mixin.state T) A) s e o :
  LockGuard.policy_ (holder s) = Policy ->
  readable (holder s) (container_mixin.world s) = true ->
  (0 < fuel)%nat ->
  body (at_world s (read_locked (holder s) (container_mixin.world s)))
    = Throw e (container_mixin.State o (read_locked (holder s) (container_mixin.world s))) ->
  (let* guard := container_mixin.acquire_read_lock Policy fuel in
   container_mixin.scoped guard body) s
    = Throw e (container_mixin.State o
                 (with_events (container_mixin.world s) (read_cycle (holder s)))).
Proof.
  intros Hp Hidle Hfuel Hbody.
  destruct (acquire_read_idle Policy fuel s Hp Hidle Hfuel) as (g & Hacq & Hrel).
  unfold bind at 1. rewrite Hacq.
  unfold container_mixin.scoped, finally. rewrite Hbody.
  unfold bind, container_mixin.on_world. cbn. now rewrite Hrel.
Qed.

(** While the write lock on a [SpinLock] is held, a further
    acquisition, for writing or for reading, does not return: the loop
    of [SpinLock::lock] finds the flag set however often it tests it,
    whichever thread has set it. *)
Lemma acquire_while_write_locked Policy fuel s :
  Policy = LockPolicy.SpinLock ->
  LockGuard.policy_ (holder s) = Policy ->
  writable (holder s) (container_mixin.world s) = true ->
  let locked := at_world s (write_locked (holder s) (container_mixin.world s)) in
  container_mixin.acquire_write_lock Policy fuel locked = Blocks /\
  container_mixin.acquire_read_lock Policy fuel locked = Blocks.
Proof.
  destruct s as [[h d] w]. cbn. intros -> Hp Hidle.
  unfold writable in Hidle. unfold write_locked. rewrite Hp in *.
  destruct (LockGuard.spinlock_ h) as [a|] eqn:Hsp; [|discriminate].
  rewrite acquire_write_lock_exclusive, acquire_read_lock_exclusive by discriminate.
  unfold container_mixin.on_world, fmapM, bind, LockGuard.lock, LockGuard.write_lock. cbn.
  rewrite Hp, Hsp. cbn. unfold bind, ret. cbn.
  unfold UnifiedLockGuard.from_SpinLock, bind.
  rewrite (lock_held_flag fuel a _ (SpinState true)); [split; reflexivity| |reflexivity].
  cbn. apply lookup_insert_eq.
Qed.

(** A member whose body leaves defined behaviour under the write lock
    does so as a whole. *)
Lemma write_member_undefined {A} Policy fuel (body : M (@container_mixin.state T) A) s :
  LockGuard.policy_ (holder s) = Policy ->
  writable (holder s) (container_mixin.world s) = true ->
  (0 < fuel)%nat ->
  body (at_world s (write_locked (holder s) (container_mixin.world s))) = Undefined ->
  (let* guard := container_mixin.acquire_write_lock Policy fuel in
   container_mixin.scoped guard body) s = Undefined.
Proof.
  intros Hp Hidle Hfuel Hbody.
  destruct (acquire_write_idle Policy fuel s Hp Hidle Hfuel) as (g & Hacq & Hrel).
  unfold bind at 1. rewrite Hacq.
  unfold container_mixin.scoped, finally. now rewrite Hbody.
Qed.

End MemberLock.

(** ** The vector *)

Section VectorProperties.
Context {T : Type}.
Implicit Types (s : @container_mixin.state T) (Policy : LockPolicy.t).

Lemma leb_of_lookup_Some (d : list T) pos x :
  d !! pos = Some x -> (length d <=? pos)%nat = false.
Proof. intros H. apply Nat.leb_gt. now apply lookup_lt_Some in H. Qed.

Lemma leb_of_lookup_None (d : list T) pos :
  d !! pos = None -> (length d <=? pos)%nat = true.
Proof. intros H. apply Nat.leb_le. now apply lookup_ge_None in H. Qed.

(** X1: [get] on a [const] vector checks the position: in range it returns
    the element, out of range it throws [std::out_of_range]; either
    way the vector is as before and the read lock has been given back. *)
Theorem vector_get_checks_bounds Policy fuel pos s
    (Hpol : LockGuard.policy_ (holder s) = Policy)
    (Hidle : readable (holder s) (container_mixin.world s) = true)
    (Hfuel : (0 < fuel)%nat) :
  ts_vector.get_const Policy fuel pos s =
    match contents s !! pos with
    | Some x => Ret x (at_world s (after_read s))
    | None => Throw (out_of_range "Index out of range") (at_world s (after_read s))
    end.
Proof.
  unfold ts_vector.get_const.
  destruct (contents s !! pos) as [x|] eqn:E.
  - apply read_member_ret; try assumption.
    unfold bind, container_mixin.derived. cbn.
    rewrite (leb_of_lookup_Some _ _ _ E). unfold std_container.index. now rewrite E.
  - apply read_member_throw; try assumption.
    unfold bind, container_mixin.derived. cbn.
    now rewrite (leb_of_lookup_None _ _ E).
Qed.

Lemma with_data_same (o : @container_mixin.Derived T) :
  with_data o (container_mixin.data_ o) = o.
Proof. now destruct o. Qed.

Lemma vector_set_outcome Policy fuel pos v s :
  LockGuard.policy_ (holder s) = Policy ->
  writable (holder s) (container_mixin.world s) = true ->
  (0 < fuel)%nat ->
  ts_vector.set Policy fuel pos v s =
    match contents s !! pos with
    | Some _ =>
        Ret tt (container_mixin.State
                  (with_data (container_mixin.self s) (<[pos := v]> (contents s)))
                  (after_write s))
    | None => Throw (out_of_range "Index out of range") (at_world s (after_write s))
    end.
Proof.
  intros Hpol Hidle Hfuel. unfold ts_vector.set.
  destruct (contents s !! pos) as [x|] eqn:E.
  - apply write_member_ret; try assumption.
    unfold bind, container_mixin.derived. cbn.
    rewrite (leb_of_lookup_Some _ _ _ E). unfold std_container.assign_at.
    now rewrite E.
  - apply write_member_throw; try assumption.
    unfold bind, container_mixin.derived. cbn.
    now rewrite (leb_of_lookup_None _ _ E).
Qed.

Lemma vector_push_back_outcome Policy fuel v s :
  LockGuard.policy_ (holder s) = Policy ->
  writable (holder s) (container_mixin.world s) = true ->
  (0 < fuel)%nat ->
  ts_vector.push_back Policy fuel v s =
    Ret tt (container_mixin.State
              (with_data (container_mixin.self s) (contents s ++ [v]))
              (after_write s)).
Proof.
  intros Hpol Hidle Hfuel. unfold ts_vector.push_back.
  now apply write_member_ret.
Qed.

Lemma vector_pop_back_outcome Policy fuel s :
  LockGuard.policy_ (holder s) = Policy ->
  writable (holder s) (container_mixin.world s) = true ->
  (0 < fuel)%nat ->
  ts_vector.pop_back Policy fuel s =
    match contents s with
    | [] => Throw (out_of_range "Cannot pop from empty vector")
              (at_world s (after_write s))
    | _ :: _ =>
        Ret tt (container_mixin.State
                  (with_data (container_mixin.self s) (removelast (contents s)))
                  (after_write s))
    end.
Proof.
  intros Hpol Hidle Hfuel. unfold ts_vector.pop_back.
  destruct (contents s) as [|x d] eqn:E.
  - apply write_member_throw; try assumption.
    unfold bind, container_mixin.derived. cbn. now rewrite E.
  - apply write_member_ret; try assumption.
    unfold bind, container_mixin.derived. cbn. now rewrite E.
Qed.

Lemma vector_back_outcome Policy fuel s :
  LockGuard.policy_ (holder s) = Policy ->
  readable (holder s) (container_mixin.world s) = true ->
  (0 < fuel)%nat ->
  ts_vector.back Policy fuel s =
    match last (contents s) with
    | Some x => Ret x (at_world s (after_read s))
    | None => Throw (out_of_range "Vector is empty") (at_world s (after_read s))
    end.
Proof.
  intros Hpol Hidle Hfuel. unfold ts_vector.back.
  destruct (contents s) as [|x d] eqn:E.
  - apply read_member_throw; try assumption.
    unfold bind, container_mixin.derived. cbn. now rewrite E.
  - destruct (last (x :: d)) as [y|] eqn:El.
    + apply read_member_ret; try assumption.
      unfold bind, container_mixin.derived. cbn. rewrite E.
      unfold std_container.back. now rewrite El.
    + apply last_None in El. discriminate.
Qed.

Lemma vector_front_outcome Policy fuel s :
  LockGuard.policy_ (holder s) = Policy ->
  readable (holder s) (container_mixin.world s) = true ->
  (0 < fuel)%nat ->
  ts_vector.front Policy fuel s =
    match contents s with
    | x :: _ => Ret x (at_world s (after_read s))
    | [] => Throw (out_of_range "Vector is empty") (at_world s (after_read s))
    end.
Proof.
  intros Hpol Hidle Hfuel. unfold ts_vector.front.
  destruct (contents s) as [|x d] eqn:E.
  - apply read_member_throw; try assumption.
    unfold bind, container_mixin.derived. cbn. now rewrite E.
  - apply read_member_ret; try assumption.
    unfold bind, container_mixin.derived. cbn. now rewrite E.
Qed.

Lemma vector_size_outcome Policy fuel s :
  LockGuard.policy_ (holder s) = Policy ->
  readable (holder s) (container_mixin.world s) = true ->
  (0 < fuel)%nat ->
  ts_vector.size Policy fuel s =
    Ret (Z.of_nat (length (contents s))) (at_world s (after_read s)).
Proof.
  intros Hpol Hidle Hfuel. unfold ts_vector.size.
  now apply read_member_ret.
Qed.

(** X2: [set] checks the position like [get]; a [set] in range is what a
    later [get] at that position returns and leaves every other
    position as it was; a [set] out of range throws and leaves the
    vector as it was. *)
Theorem vector_set_then_get Policy fuel pos v s
    (Hpol : LockGuard.policy_ (holder s) = Policy)
    (Hidle : writable (holder s) (container_mixin.world s) = true)
    (Hfuel : (0 < fuel)%nat) :
  match contents s !! pos with
  | Some _ =>
      let s1 := container_mixin.State
                  (with_data (container_mixin.self s) (<[pos := v]> (contents s)))
                  (after_write s) in
      ts_vector.set Policy fuel pos v s = Ret tt s1 /\
      (ts_vector.set Policy fuel pos v ;; ts_vector.get_const Policy fuel pos) s
        = Ret v (at_world s1 (after_read s1)) /\
      forall pos', pos' <> pos ->
        (ts_vector.set Policy fuel pos v ;; ts_vector.get_const Policy fuel pos') s
          = match contents s !! pos' with
            | Some x => Ret x (at_world s1 (after_read s1))
            | None => Throw (out_of_range "Index out of range")
                        (at_world s1 (after_read s1))
            end
  | None =>
      ts_vector.set Policy fuel pos v s
        = Throw (out_of_range "Index out of range") (at_world s (after_write s))
  end.
Proof.
  pose proof (vector_set_outcome Policy fuel pos v s Hpol Hidle Hfuel) as Hset.
  destruct (contents s !! pos) as [x|] eqn:E; [|exact Hset].
  cbv zeta. split; [exact Hset|].
  assert (Hget : forall p,
    (ts_vector.set Policy fuel pos v ;; ts_vector.get_const Policy fuel p) s
    = ts_vector.get_const Policy fuel p
        (container_mixin.State
           (with_data (container_mixin.self s) (<[pos := v]> (contents s)))
           (after_write s))).
  { intros p. unfold bind at 1. now rewrite Hset. }
  split.
  - rewrite Hget, vector_get_checks_bounds; try assumption.
    + cbn. rewrite list_lookup_insert_eq; [reflexivity|].
      now apply lookup_lt_Some in E.
    + now apply writable_readable.
  - intros pos' Hne. rewrite Hget, vector_get_checks_bounds; try assumption.
    + cbn. now rewrite list_lookup_insert_ne by congruence.
    + now apply writable_readable.
Qed.

(** X3: under the policies of the primary template, all but
    [LockFree], [pop_back] on an empty vector throws
    [std::out_of_range] and changes nothing; on a vector that is not
    empty it drops the last element, so that [push_back] followed by
    [pop_back] gives the vector back.  The write lock is given back on
    each path. *)
Theorem vector_pop_back_checks_empty Policy fuel s
    (Hlock : Policy <> LockPolicy.LockFree)
    (Hpol : LockGuard.policy_ (holder s) = Policy)
    (Hidle : writable (holder s) (container_mixin.world s) = true)
    (Hfuel : (0 < fuel)%nat) :
  (contents s = [] ->
     ts_vector.pop_back Policy fuel s
       = Throw (out_of_range "Cannot pop from empty vector")
           (at_world s (after_write s))) /\
  (forall d x, contents s = d ++ [x] ->
     ts_vector.pop_back Policy fuel s
       = Ret tt (container_mixin.State (with_data (container_mixin.self s) d)
                   (after_write s))) /\
  (forall v,
     (ts_vector.push_back Policy fuel v ;; ts_vector.pop_back Policy fuel) s
       = Ret tt (at_world s (with_events (after_write s) (write_cycle (holder s))))).
Proof.
  pose proof (vector_pop_back_outcome Policy fuel s Hpol Hidle Hfuel) as Hpop.
  split; [|split].
  - intros E. now rewrite E in Hpop.
  - intros d x E. rewrite E in Hpop. rewrite removelast_last in Hpop.
    destruct (d ++ [x]) eqn:E'; [now destruct d|exact Hpop].
  - intros v. unfold bind at 1.
    rewrite (vector_push_back_outcome Policy fuel v s Hpol Hidle Hfuel).
    rewrite vector_pop_back_outcome; try assumption. cbn.
    rewrite removelast_last.
    destruct (contents s ++ [v]) eqn:E'; [now destruct (contents s)|].
    unfold with_data. cbn. now destruct s as [[h d] w].
Qed.

(** X4: After [push_back v] the vector is one longer, [back] returns [v],
    and every earlier position holds what it held. *)
Theorem vector_push_back_appends Policy fuel v s
    (Hpol : LockGuard.policy_ (holder s) = Policy)
    (Hidle : writable (holder s) (container_mixin.world s) = true)
    (Hfuel : (0 < fuel)%nat) :
  let s1 := container_mixin.State
              (with_data (container_mixin.self s) (contents s ++ [v]))
              (after_write s) in
  ts_vector.push_back Policy fuel v s = Ret tt s1 /\
  (ts_vector.push_back Policy fuel v ;; ts_vector.back Policy fuel) s
    = Ret v (at_world s1 (after_read s1)) /\
  (ts_vector.push_back Policy fuel v ;; ts_vector.size Policy fuel) s
    = Ret (Z.of_nat (length (contents s)) + 1) (at_world s1 (after_read s1)) /\
  forall pos x, contents s !! pos = Some x ->
    (ts_vector.push_back Policy fuel v ;; ts_vector.get_const Policy fuel pos) s
      = Ret x (at_world s1 (after_read s1)).
Proof.
  intros s1.
  pose proof (vector_push_back_outcome Policy fuel v s Hpol Hidle Hfuel) as Hpush.
  pose proof (writable_readable _ _ Hidle) as Hread.
  split; [exact Hpush|]. split; [|split].
  - unfold bind at 1. rewrite Hpush.
    rewrite vector_back_outcome; try assumption. cbn. now rewrite last_snoc.
  - unfold bind at 1. rewrite Hpush.
    rewrite vector_size_outcome; try assumption. cbn.
    rewrite length_app. cbn. f_equal. lia.
  - intros pos x E. unfold bind at 1. rewrite Hpush.
    rewrite vector_get_checks_bounds; try assumption. cbn.
    rewrite lookup_app_l by (now apply lookup_lt_Some in E). now rewrite E.
Qed.

Lemma vector_get_outcome Policy fuel pos s :
  LockGuard.policy_ (holder s) = Policy ->
  writable (holder s) (container_mixin.world s) = true ->
  (0 < fuel)%nat ->
  ts_vector.get Policy fuel pos s =
    match contents s !! pos with
    | Some x => Ret x (at_world s (after_write s))
    | None => Throw (out_of_range "Index out of range") (at_world s (after_write s))
    end.
Proof.
  intros Hpol Hidle Hfuel. unfold ts_vector.get.
  destruct (contents s !! pos) as [x|] eqn:E.
  - apply write_member_ret; try assumption.
    unfold bind, container_mixin.derived. cbn.
    rewrite (leb_of_lookup_Some _ _ _ E). unfold std_container.index. now rewrite E.
  - apply write_member_throw; try assumption.
    unfold bind, container_mixin.derived. cbn.
    now rewrite (leb_of_lookup_None _ _ E).
Qed.

(** X5: The two overloads of [get] return the same element or throw the
    same exception, but the one chosen for a vector that is not
    [const] takes the write lock: under [ReadWrite], while a reader
    holds the shared mutex, [get] on a [const] vector returns and [get]
    on a vector that is not [const] waits. *)
Theorem vector_get_overloads Policy fuel pos s
    (Hpol : LockGuard.policy_ (holder s) = Policy)
    (Hfuel : (0 < fuel)%nat) :
  (writable (holder s) (container_mixin.world s) = true ->
     ts_vector.get Policy fuel pos s =
       match contents s !! pos with
       | Some x => Ret x (at_world s (after_write s))
       | None => Throw (out_of_range "Index out of range") (at_world s (after_write s))
       end /\
     ts_vector.get_const Policy fuel pos s =
       match contents s !! pos with
       | Some x => Ret x (at_world s (after_read s))
       | None => Throw (out_of_range "Index out of range") (at_world s (after_read s))
       end) /\
  (forall a n,
     Policy = LockPolicy.ReadWrite ->
     LockGuard.shared_mutex_ (holder s) = Some a ->
     shared_mutexes (container_mixin.world s) !! a = Some (SharedState false (S n)) ->
     ts_vector.get Policy fuel pos s = Blocks /\
     ts_vector.get_const Policy fuel pos s =
       match contents s !! pos with
       | Some x => Ret x (at_world s (after_read s))
       | None => Throw (out_of_range "Index out of range") (at_world s (after_read s))
       end).
Proof.
  split.
  - intros Hidle. split.
    + now apply vector_get_outcome.
    + apply vector_get_checks_bounds; try assumption. now apply writable_readable.
  - intros a n -> Hm Halloc. split.
    + unfold ts_vector.get. unfold bind at 1.
      rewrite acquire_write_lock_ReadWrite.
      unfold container_mixin.on_world, fmapM, bind.
      rewrite (unique_lock_rw_ReadWrite _ _ Hpol), Hm. cbn.
      unfold bind, ret. cbn.
      unfold std.unique_lock_shared_mutex.ctor, std.lock_ctor, bind, std.shared_mutex.lock.
      now rewrite Halloc.
    + apply vector_get_checks_bounds; try assumption.
      unfold readable. now rewrite Hpol, Hm, Halloc.
Qed.

Lemma writable_with_events h w evs : writable h (with_events w evs) = writable h w.
Proof. reflexivity. Qed.

(** X6: Two elements added through [unsafe_push_back] inside one
    [with_write_lock] and two [push_back] calls leave the same vector;
    the batch takes the write lock once, the two calls take it twice. *)
Theorem vector_batch_under_one_lock Policy fuel a b s
    (Hpol : LockGuard.policy_ (holder s) = Policy)
    (Hidle : writable (holder s) (container_mixin.world s) = true)
    (Hfuel : (0 < fuel)%nat) :
  let o := with_data (container_mixin.self s) (contents s ++ [a; b]) in
  ts_vector.with_write_lock Policy fuel
      (ts_vector.unsafe_push_back a ;; ts_vector.unsafe_push_back b) s
    = Ret tt (container_mixin.State o (after_write s)) /\
  (ts_vector.push_back Policy fuel a ;; ts_vector.push_back Policy fuel b) s
    = Ret tt (container_mixin.State o
                (with_events (after_write s) (write_cycle (holder s)))).
Proof.
  intros o. split.
  - unfold ts_vector.with_write_lock. apply write_member_ret; try assumption.
    unfold bind, ts_vector.unsafe_push_back, bind, container_mixin.derived. cbn.
    unfold o, with_data. now rewrite <- app_assoc.
  - unfold bind at 1.
    rewrite (vector_push_back_outcome Policy fuel a s Hpol Hidle Hfuel).
    rewrite vector_push_back_outcome; try assumption. cbn.
    unfold o, with_data. cbn. now rewrite <- app_assoc.
Qed.

(** X7: A member that takes the lock itself must not be called inside
    [with_write_lock]: under [SpinLock] the inner acquisition spins on
    the flag the outer scope has set, and the call does not return.
    The [unsafe_] member in its place returns. *)
Theorem vector_locking_member_in_batch_blocks Policy fuel fuel' v pos s
    (Hlock : Policy = LockPolicy.SpinLock)
    (Hpol : LockGuard.policy_ (holder s) = Policy)
    (Hidle : writable (holder s) (container_mixin.world s) = true)
    (Hfuel : (0 < fuel)%nat) :
  ts_vector.with_write_lock Policy fuel (ts_vector.push_back Policy fuel' v) s = Blocks /\
  ts_vector.with_write_lock Policy fuel
      (ts_vector.get_const Policy fuel' pos ;; ret tt) s = Blocks /\
  ts_vector.with_write_lock Policy fuel (ts_vector.unsafe_push_back v) s
    = Ret tt (container_mixin.State
                (with_data (container_mixin.self s) (contents s ++ [v]))
                (after_write s)).
Proof.
  destruct (acquire_write_idle Policy fuel s Hpol Hidle Hfuel) as (g & Hacq & Hrel).
  destruct (acquire_while_write_locked Policy fuel' s Hlock Hpol Hidle) as [Hw Hr].
  split; [|split].
  - unfold ts_vector.with_write_lock. unfold bind at 1. rewrite Hacq.
    unfold container_mixin.scoped, finally, ts_vector.push_back.
    unfold bind at 1. now rewrite Hw.
  - unfold ts_vector.with_write_lock. unfold bind at 1. rewrite Hacq.
    unfold container_mixin.scoped, finally, ts_vector.get_const.
    unfold bind at 1. unfold bind at 1. now rewrite Hr.
  - unfold ts_vector.with_write_lock. now apply write_member_ret.
Qed.

(** X8: On an empty vector the generic template reports [front], [back]
    and [pop_back] by [std::out_of_range]; the [LockFree]
    specialisation makes no check, and the same calls are undefined
    there.  On a vector that is not empty the two agree. *)
Theorem vector_empty_access Policy fuel s
    (Hpol : LockGuard.policy_ (holder s) = Policy)
    (Hidle : writable (holder s) (container_mixin.world s) = true)
    (Hfuel : (0 < fuel)%nat) :
  (contents s = [] ->
     ts_vector.front Policy fuel s
       = Throw (out_of_range "Vector is empty") (at_world s (after_read s)) /\
     ts_vector.back Policy fuel s
       = Throw (out_of_range "Vector is empty") (at_world s (after_read s)) /\
     ts_vector.pop_back Policy fuel s
       = Throw (out_of_range "Cannot pop from empty vector") (at_world s (after_write s)) /\
     ts_vector_LockFree.front (contents s) = Undefined /\
     ts_vector_LockFree.back (contents s) = Undefined /\
     ts_vector_LockFree.pop_back (contents s) = Undefined) /\
  (forall x d y, contents s = x :: d -> last (x :: d) = Some y ->
     ts_vector.front Policy fuel s = Ret x (at_world s (after_read s)) /\
     ts_vector_LockFree.front (contents s) = Ret x (contents s) /\
     ts_vector.back Policy fuel s = Ret y (at_world s (after_read s)) /\
     ts_vector_LockFree.back (contents s) = Ret y (contents s) /\
     ts_vector.pop_back Policy fuel s
       = Ret tt (container_mixin.State
                   (with_data (container_mixin.self s) (removelast (contents s)))
                   (after_write s)) /\
     ts_vector_LockFree.pop_back (contents s) = Ret tt (removelast (contents s))).
Proof.
  pose proof (writable_readable _ _ Hidle) as Hread.
  pose proof (vector_front_outcome Policy fuel s Hpol Hread Hfuel) as Hfront.
  pose proof (vector_back_outcome Policy fuel s Hpol Hread Hfuel) as Hback.
  pose proof (vector_pop_back_outcome Policy fuel s Hpol Hidle Hfuel) as Hpop.
  split.
  - intros E. rewrite E in *. repeat split; assumption.
  - intros x d y E El. rewrite E in *. rewrite El in Hback.
    repeat split; try assumption.
    unfold ts_vector_LockFree.back, std_container.back. now rewrite El.
Qed.

Lemma resized_length (d : list T) count v :
  length (resized d count v) = count.
Proof.
  unfold resized. destruct (Nat.leb_spec count (length d)).
  - rewrite length_take. lia.
  - rewrite length_app, length_replicate. lia.
Qed.

Lemma resized_lookup (d : list T) count v pos :
  resized d count v !! pos =
    if (pos <? count)%nat
    then match d !! pos with Some x => Some x | None => Some v end
    else None.
Proof.
  unfold resized.
  destruct (Nat.leb_spec count (length d)) as [Hle|Hgt];
    destruct (Nat.ltb_spec pos count) as [Hlt|Hge].
  - rewrite lookup_take_lt by assumption.
    destruct (d !! pos) eqn:E; [reflexivity|].
    apply lookup_ge_None in E. lia.
  - apply lookup_ge_None. rewrite length_take. lia.
  - destruct (d !! pos) eqn:E.
    + rewrite lookup_app_l by (now apply lookup_lt_Some in E). exact E.
    + apply lookup_ge_None in E. rewrite lookup_app_r by assumption.
      apply lookup_replicate_2. lia.
  - apply lookup_ge_None. rewrite length_app, length_replicate. lia.
Qed.

(** [std::vector::resize] within [max_size()] and beyond it. *)
Lemma resize_within {St} max_size (d : list T) count v (st : St) :
  (count <= max_size)%nat ->
  std_container.resize max_size d count v st = Ret (resized d count v) st.
Proof.
  intros Hle. unfold std_container.resize, resized.
  destruct (count <=? length d)%nat; [reflexivity|].
  now apply Nat.ltb_ge in Hle as ->.
Qed.

Lemma resize_beyond {St} max_size (d : list T) count v (st : St) :
  (length d <= max_size)%nat -> (max_size < count)%nat ->
  std_container.resize max_size d count v st
    = Throw (length_error "vector::_M_fill_insert") st.
Proof.
  intros Hinv Hgt. unfold std_container.resize.
  assert (Hn : (count <=? length d)%nat = false) by (apply Nat.leb_gt; lia).
  rewrite Hn. now apply Nat.ltb_lt in Hgt as ->.
Qed.

(** X9: [resize(count, value)] with a [count] the vector can grow to
    leaves a vector of [count] elements: those it had at the positions
    below [count], and [value] at the positions it did not have.  A
    [count] above [max_size()] is refused with [std::length_error]; the
    vector is left as it was and the write lock is given back. *)
Theorem vector_resize Policy max_size fuel count v s
    (Hpol : LockGuard.policy_ (holder s) = Policy)
    (Hidle : writable (holder s) (container_mixin.world s) = true)
    (Hfuel : (0 < fuel)%nat)
    (Hinv : (length (contents s) <= max_size)%nat) :
  ((count <= max_size)%nat ->
   exists d,
     ts_vector.resize Policy max_size fuel count v s
       = Ret tt (container_mixin.State (with_data (container_mixin.self s) d)
                   (after_write s)) /\
     length d = count /\
     (forall pos x, (pos < count)%nat -> contents s !! pos = Some x -> d !! pos = Some x) /\
     (forall pos, (pos < count)%nat -> contents s !! pos = None -> d !! pos = Some v) /\
     (ts_vector.resize Policy max_size fuel count v ;; ts_vector.size Policy fuel) s
       = Ret (Z.of_nat count)
           (container_mixin.State (with_data (container_mixin.self s) d)
              (with_events (after_write s) (read_cycle (holder s))))) /\
  ((max_size < count)%nat ->
   ts_vector.resize Policy max_size fuel count v s
     = Throw (length_error "vector::_M_fill_insert") (at_world s (after_write s))).
Proof.
  split.
  - intros Hle. exists (resized (contents s) count v).
    assert (Hres : ts_vector.resize Policy max_size fuel count v s
        = Ret tt (container_mixin.State
                    (with_data (container_mixin.self s) (resized (contents s) count v))
                    (after_write s))).
    { unfold ts_vector.resize. apply write_member_ret; try assumption.
      unfold bind at 1. unfold container_mixin.derived.
      cbn [container_mixin.self container_mixin.data_].
      unfold bind. now rewrite resize_within. }
    split; [exact Hres|]. split; [apply resized_length|]. split; [|split].
    + intros pos x Hlt E. rewrite resized_lookup, E.
      now apply Nat.ltb_lt in Hlt as ->.
    + intros pos Hlt E. rewrite resized_lookup, E.
      now apply Nat.ltb_lt in Hlt as ->.
    + unfold bind at 1. rewrite Hres.
      rewrite vector_size_outcome; try assumption.
      * cbn. now rewrite resized_length.
      * now apply writable_readable.
  - intros Hgt. unfold ts_vector.resize. apply write_member_throw; try assumption.
    unfold bind at 1. unfold container_mixin.derived.
    cbn [container_mixin.self container_mixin.data_].
    unfold bind. rewrite resize_beyond by assumption. now destruct s as [[h d] w].
Qed.

End VectorProperties.

(** ** The list *)

Section ListProperties.
Context {T : Type}.
Implicit Types (s : @container_mixin.state T) (Policy : LockPolicy.t).

(** The loop passes every element once: it keeps, in order, those
    [pred] rejects and counts the others. *)
Lemma remove_loop_spec (pred : T -> bool) rest : forall before count,
  0 <= count ->
  count + Z.of_nat (length rest) < container_mixin.size_type_modulus ->
  ts_list.remove_loop pred before rest count
    = (before ++ List.filter (fun x => negb (pred x)) rest,
       count + Z.of_nat (length (List.filter pred rest))).
Proof.
  induction rest as [|x rest IH]; intros before count Hc Hsize.
  - cbn. rewrite app_nil_r. f_equal. lia.
  - cbn [ts_list.remove_loop List.filter length] in *.
    destruct (pred x); cbn [negb length].
    + rewrite Z.mod_small by lia. rewrite IH by lia. f_equal. lia.
    + rewrite IH by lia. now rewrite <- app_assoc.
Qed.

Lemma filter_partition_length (pred : T -> bool) (l : list T) :
  (length (List.filter pred l) + length (List.filter (fun x => negb (pred x)) l)
   = length l)%nat.
Proof.
  induction l as [|x l IH]; [reflexivity|]. cbn.
  destruct (pred x); cbn; lia.
Qed.

(** X10: [remove_if] drops exactly the elements [pred] accepts, keeps the
    others in their order, and returns how many it dropped. *)
Theorem list_remove_if Policy fuel (pred : T -> bool) s
    (Hpol : LockGuard.policy_ (holder s) = Policy)
    (Hidle : writable (holder s) (container_mixin.world s) = true)
    (Hfuel : (0 < fuel)%nat)
    (Hsize : Z.of_nat (length (contents s)) < container_mixin.size_type_modulus) :
  let kept := List.filter (fun x => negb (pred x)) (contents s) in
  let dropped := List.filter pred (contents s) in
  ts_list.remove_if Policy fuel pred s
    = Ret (Z.of_nat (length dropped))
        (container_mixin.State (with_data (container_mixin.self s) kept)
           (after_write s)) /\
  Forall (fun x => pred x = false) kept /\
  (length kept + length dropped = length (contents s))%nat.
Proof.
  intros kept dropped. split; [|split].
  - unfold ts_list.remove_if. apply write_member_ret; try assumption.
    unfold bind at 1. unfold container_mixin.derived.
    cbn [container_mixin.self container_mixin.data_].
    rewrite remove_loop_spec by lia. reflexivity.
  - apply List.Forall_forall. intros x Hx. apply filter_In in Hx as [_ Hx].
    now apply negb_true_iff.
  - unfold kept, dropped. rewrite Nat.add_comm. apply filter_partition_length.
Qed.

(** With a value that is no element of the list the loop of [remove]
    is the loop of [remove_if]. *)
Lemma remove_loop_outside (eqT : T -> T -> bool) v rest : forall before count,
  ts_list.remove_loop_by_reference eqT (ts_list.Alive v None) before rest count
    = Some (ts_list.remove_loop (fun x => eqT x v) before rest count).
Proof.
  induction rest as [|x rest IH]; intros before count; [reflexivity|].
  cbn. destruct (eqT x v); apply IH.
Qed.

(** With the last of the elements to come the comparison has been made
    for the last time when that element is erased. *)
Lemma remove_loop_last (eqT : T -> T -> bool) v rest : forall k before count,
  S k = length rest ->
  ts_list.remove_loop_by_reference eqT (ts_list.Alive v (Some k)) before rest count
    = Some (ts_list.remove_loop (fun x => eqT x v) before rest count).
Proof.
  induction rest as [|x rest IH]; intros k before count Hk; [discriminate|].
  cbn in Hk. cbn [ts_list.remove_loop_by_reference ts_list.remove_loop].
  destruct k as [|k].
  - destruct rest; [|discriminate]. now destruct (eqT x v).
  - destruct (eqT x v); cbn [ts_list.after_step]; apply IH; lia.
Qed.

(** With an element that is equal to itself and has elements after it,
    the loop compares with the erased element. *)
Lemma remove_loop_dangling (eqT : T -> T -> bool) v rest : forall k before count,
  rest !! k = Some v -> eqT v v = true -> (S k < length rest)%nat ->
  ts_list.remove_loop_by_reference eqT (ts_list.Alive v (Some k)) before rest count
    = None.
Proof.
  induction rest as [|x rest IH]; intros k before count Hk Hrefl Hlen; [discriminate|].
  cbn in Hlen. cbn [ts_list.remove_loop_by_reference].
  destruct k as [|k].
  - cbn in Hk. injection Hk as ->. rewrite Hrefl. cbn [ts_list.after_step].
    destruct rest; [cbn in Hlen; lia|reflexivity].
  - cbn in Hk. destruct (eqT x v); cbn [ts_list.after_step]; apply IH;
      try assumption; lia.
Qed.

(** X11: [remove] with a value that is no element of the list drops
    exactly the elements equal to it, keeps the others in their order,
    and returns how many it dropped; a second [remove] of the same value
    finds none and returns 0.  The parameter is a reference: bound to an
    element of the list that has elements after it, as in
    [l.remove(l.front())] on a list of two, it is compared with after
    its node was erased, which is undefined; bound to the last element
    it does what it does with a copy. *)
Theorem list_remove (eqT : T -> T -> bool) Policy fuel value s
    (Hpol : LockGuard.policy_ (holder s) = Policy)
    (Hidle : writable (holder s) (container_mixin.world s) = true)
    (Hfuel : (0 < fuel)%nat)
    (Hsize : Z.of_nat (length (contents s)) < container_mixin.size_type_modulus) :
  let kept := List.filter (fun x => negb (eqT x value)) (contents s) in
  ts_list.remove eqT Policy fuel (ts_list.Outside value) s
    = Ret (Z.of_nat (length (contents s)) - Z.of_nat (length kept))
        (container_mixin.State (with_data (container_mixin.self s) kept)
           (after_write s)) /\
  (forall x, In x kept <-> In x (contents s) /\ eqT x value = false) /\
  (ts_list.remove eqT Policy fuel (ts_list.Outside value) ;;
   ts_list.remove eqT Policy fuel (ts_list.Outside value)) s
    = Ret 0 (container_mixin.State (with_data (container_mixin.self s) kept)
               (with_events (after_write s) (write_cycle (holder s)))) /\
  (forall pos,
     contents s !! pos = Some value -> eqT value value = true ->
     (S pos < length (contents s))%nat ->
     ts_list.remove eqT Policy fuel (ts_list.Element pos) s = Undefined) /\
  (forall pos,
     contents s !! pos = Some value -> S pos = length (contents s) ->
     ts_list.remove eqT Policy fuel (ts_list.Element pos) s
       = ts_list.remove eqT Policy fuel (ts_list.Outside value) s).
Proof.
  intros kept.
  assert (Hrun : forall s', LockGuard.policy_ (holder s') = Policy ->
    writable (holder s') (container_mixin.world s') = true ->
    Z.of_nat (length (contents s')) < container_mixin.size_type_modulus ->
    ts_list.remove eqT Policy fuel (ts_list.Outside value) s'
    = Ret (Z.of_nat (length (List.filter (fun x => eqT x value) (contents s'))))
        (container_mixin.State
           (with_data (container_mixin.self s')
              (List.filter (fun x => negb (eqT x value)) (contents s')))
           (with_events (container_mixin.world s') (write_cycle (holder s'))))).
  { intros s' Hp' Hi' Hs'. unfold ts_list.remove. apply write_member_ret; try assumption.
    unfold bind at 1. unfold container_mixin.derived.
    cbn [container_mixin.self container_mixin.data_ ts_list.bind_argument]. cbv zeta.
    rewrite remove_loop_outside, remove_loop_spec by lia. reflexivity. }
  pose proof (filter_partition_length (fun x => eqT x value) (contents s)) as Hlen.
  split; [|split; [|split; [|split]]].
  - rewrite Hrun by assumption. f_equal. unfold kept. lia.
  - intros x. unfold kept. rewrite filter_In, negb_true_iff. reflexivity.
  - unfold bind at 1. rewrite Hrun by assumption.
    rewrite Hrun; cbn; try assumption.
    + fold kept. f_equal.
      * assert (E : List.filter (fun x => eqT x value) kept = []).
        { unfold kept. clear. induction (contents s) as [|x l IH]; [reflexivity|].
          cbn. destruct (eqT x value) eqn:E; cbn; [exact IH|]. now rewrite E. }
        now rewrite E.
      * f_equal. unfold with_data. cbn. f_equal.
        unfold kept. clear. induction (contents s) as [|x l IH]; [reflexivity|].
        cbn. destruct (eqT x value) eqn:E; cbn; [exact IH|]. rewrite E. cbn.
        now rewrite IH.
    + fold kept. pose proof (filter_length_le (fun x => negb (eqT x value)) (contents s)).
      unfold kept. lia.
  - intros pos Hpos Hrefl Hmore. unfold ts_list.remove.
    apply write_member_undefined; try assumption.
    unfold bind at 1. unfold container_mixin.derived.
    cbn [container_mixin.self container_mixin.data_ ts_list.bind_argument]. cbv zeta.
    rewrite Hpos. now rewrite remove_loop_dangling.
  - intros pos Hpos Hlast. rewrite Hrun by assumption.
    unfold ts_list.remove. apply write_member_ret; try assumption.
    unfold bind at 1. unfold container_mixin.derived.
    cbn [container_mixin.self container_mixin.data_ ts_list.bind_argument]. cbv zeta.
    rewrite Hpos. rewrite remove_loop_last by assumption.
    rewrite remove_loop_spec by lia. reflexivity.
Qed.

Lemma list_front_outcome Policy fuel s :
  LockGuard.policy_ (holder s) = Policy ->
  readable (holder s) (container_mixin.world s) = true ->
  (0 < fuel)%nat ->
  ts_list.front Policy fuel s =
    match contents s with
    | x :: _ => Ret x (at_world s (after_read s))
    | [] => Throw (out_of_range "List is empty") (at_world s (after_read s))
    end.
Proof.
  intros Hpol Hidle Hfuel. unfold ts_list.front.
  destruct (contents s) as [|x d] eqn:E.
  - apply read_member_throw; try assumption.
    unfold bind, container_mixin.derived. cbn. now rewrite E.
  - apply read_member_ret; try assumption.
    unfold bind, container_mixin.derived. cbn. now rewrite E.
Qed.

Lemma list_back_outcome Policy fuel s :
  LockGuard.policy_ (holder s) = Policy ->
  readable (holder s) (container_mixin.world s) = true ->
  (0 < fuel)%nat ->
  ts_list.back Policy fuel s =
    match last (contents s) with
    | Some x => Ret x (at_world s (after_read s))
    | None => Throw (out_of_range "List is empty") (at_world s (after_read s))
    end.
Proof.
  intros Hpol Hidle Hfuel. unfold ts_list.back.
  destruct (contents s) as [|x d] eqn:E.
  - apply read_member_throw; try assumption.
    unfold bind, container_mixin.derived. cbn. now rewrite E.
  - destruct (last (x :: d)) as [y|] eqn:El.
    + apply read_member_ret; try assumption.
      unfold bind, container_mixin.derived. cbn. rewrite E.
      unfold std_container.back. now rewrite El.
    + apply last_None in El. discriminate.
Qed.

Lemma list_set_front_outcome Policy fuel v s :
  LockGuard.policy_ (holder s) = Policy ->
  writable (holder s) (container_mixin.world s) = true ->
  (0 < fuel)%nat ->
  ts_list.set_front Policy fuel v s =
    match contents s with
    | _ :: d => Ret tt (container_mixin.State
                          (with_data (container_mixin.self s) (v :: d)) (after_write s))
    | [] => Throw (out_of_range "List is empty") (at_world s (after_write s))
    end.
Proof.
  intros Hpol Hidle Hfuel. unfold ts_list.set_front.
  destruct (contents s) as [|x d] eqn:E.
  - apply write_member_throw; try assumption.
    unfold bind, container_mixin.derived. cbn. now rewrite E.
  - apply write_member_ret; try assumption.
    unfold bind, container_mixin.derived. cbn. now rewrite E.
Qed.

Lemma list_set_back_outcome Policy fuel v s :
  LockGuard.policy_ (holder s) = Policy ->
  writable (holder s) (container_mixin.world s) = true ->
  (0 < fuel)%nat ->
  ts_list.set_back Policy fuel v s =
    match contents s with
    | _ :: _ => Ret tt (container_mixin.State
                          (with_data (container_mixin.self s)
                             (removelast (contents s) ++ [v]))
                          (after_write s))
    | [] => Throw (out_of_range "List is empty") (at_world s (after_write s))
    end.
Proof.
  intros Hpol Hidle Hfuel. unfold ts_list.set_back.
  destruct (contents s) as [|x d] eqn:E.
  - apply write_member_throw; try assumption.
    unfold bind, container_mixin.derived. cbn. now rewrite E.
  - apply write_member_ret; try assumption.
    unfold bind, container_mixin.derived. cbn. now rewrite E.
Qed.

(** X12: under the policies of the primary template, all but
    [LockFree], [set_front] and [set_back] replace the first, the last
    element and no other, and [front] and [back] then return the new
    value; on an empty list all four throw [std::out_of_range] and
    change nothing. *)
Theorem list_set_ends Policy fuel v s
    (Hlock : Policy <> LockPolicy.LockFree)
    (Hpol : LockGuard.policy_ (holder s) = Policy)
    (Hidle : writable (holder s) (container_mixin.world s) = true)
    (Hfuel : (0 < fuel)%nat) :
  (contents s = [] ->
     ts_list.set_front Policy fuel v s
       = Throw (out_of_range "List is empty") (at_world s (after_write s)) /\
     ts_list.set_back Policy fuel v s
       = Throw (out_of_range "List is empty") (at_world s (after_write s)) /\
     ts_list.front Policy fuel s
       = Throw (out_of_range "List is empty") (at_world s (after_read s)) /\
     ts_list.back Policy fuel s
       = Throw (out_of_range "List is empty") (at_world s (after_read s))) /\
  (forall x d, contents s = x :: d ->
     let s1 := container_mixin.State (with_data (container_mixin.self s) (v :: d))
                 (after_write s) in
     ts_list.set_front Policy fuel v s = Ret tt s1 /\
     (ts_list.set_front Policy fuel v ;; ts_list.front Policy fuel) s
       = Ret v (at_world s1 (after_read s1))) /\
  (forall d x, contents s = d ++ [x] ->
     let s1 := container_mixin.State (with_data (container_mixin.self s) (d ++ [v]))
                 (after_write s) in
     ts_list.set_back Policy fuel v s = Ret tt s1 /\
     (ts_list.set_back Policy fuel v ;; ts_list.back Policy fuel) s
       = Ret v (at_world s1 (after_read s1))).
Proof.
  pose proof (writable_readable _ _ Hidle) as Hread.
  pose proof (list_set_front_outcome Policy fuel v s Hpol Hidle Hfuel) as Hsf.
  pose proof (list_set_back_outcome Policy fuel v s Hpol Hidle Hfuel) as Hsb.
  pose proof (list_front_outcome Policy fuel s Hpol Hread Hfuel) as Hf.
  pose proof (list_back_outcome Policy fuel s Hpol Hread Hfuel) as Hb.
  split; [|split].
  - intros E. rewrite E in *. repeat split; assumption.
  - intros x d E s1. rewrite E in Hsf. split; [exact Hsf|].
    unfold bind at 1. rewrite Hsf.
    now rewrite list_front_outcome.
  - intros d x E s1. rewrite E in Hsb. rewrite removelast_last in Hsb.
    assert (Hsb' : ts_list.set_back Policy fuel v s = Ret tt s1).
    { destruct (d ++ [x]) eqn:E'; [now destruct d|exact Hsb]. }
    split; [exact Hsb'|].
    unfold bind at 1. rewrite Hsb'.
    rewrite list_back_outcome; try assumption. cbn. now rewrite last_snoc.
Qed.

Lemma list_pop_front_outcome Policy fuel s :
  LockGuard.policy_ (holder s) = Policy ->
  writable (holder s) (container_mixin.world s) = true ->
  (0 < fuel)%nat ->
  ts_list.pop_front Policy fuel s =
    match contents s with
    | _ :: d => Ret tt (container_mixin.State
                          (with_data (container_mixin.self s) d) (after_write s))
    | [] => Throw (out_of_range "Cannot pop from empty list")
              (at_world s (after_write s))
    end.
Proof.
  intros Hpol Hidle Hfuel. unfold ts_list.pop_front.
  destruct (contents s) as [|x d] eqn:E.
  - apply write_member_throw; try assumption.
    unfold bind, container_mixin.derived. cbn. now rewrite E.
  - apply write_member_ret; try assumption.
    unfold bind, container_mixin.derived. cbn. now rewrite E.
Qed.

Lemma list_pop_back_outcome Policy fuel s :
  LockGuard.policy_ (holder s) = Policy ->
  writable (holder s) (container_mixin.world s) = true ->
  (0 < fuel)%nat ->
  ts_list.pop_back Policy fuel s =
    match contents s with
    | _ :: _ => Ret tt (container_mixin.State
                          (with_data (container_mixin.self s) (removelast (contents s)))
                          (after_write s))
    | [] => Throw (out_of_range "Cannot pop from empty list")
              (at_world s (after_write s))
    end.
Proof.
  intros Hpol Hidle Hfuel. unfold ts_list.pop_back.
  destruct (contents s) as [|x d] eqn:E.
  - apply write_member_throw; try assumption.
    unfold bind, container_mixin.derived. cbn. now rewrite E.
  - apply write_member_ret; try assumption.
    unfold bind, container_mixin.derived. cbn. now rewrite E.
Qed.

(** X13: under the policies of the primary template, all but
    [LockFree], the list works as a queue: what [push_back] adds,
    [pop_front] removes only after everything that was there before;
    [push_front] followed by [pop_front] gives the list back;
    [pop_front] on an empty list throws and changes nothing. *)
Theorem list_push_pop_front Policy fuel v s
    (Hlock : Policy <> LockPolicy.LockFree)
    (Hpol : LockGuard.policy_ (holder s) = Policy)
    (Hidle : writable (holder s) (container_mixin.world s) = true)
    (Hfuel : (0 < fuel)%nat) :
  (contents s = [] ->
     ts_list.pop_front Policy fuel s
       = Throw (out_of_range "Cannot pop from empty list") (at_world s (after_write s))) /\
  (ts_list.push_front Policy fuel v ;; ts_list.pop_front Policy fuel) s
    = Ret tt (at_world s (with_events (after_write s) (write_cycle (holder s)))) /\
  (forall x d, contents s = x :: d ->
     (ts_list.push_back Policy fuel v ;; ts_list.pop_front Policy fuel) s
       = Ret tt (container_mixin.State (with_data (container_mixin.self s) (d ++ [v]))
                   (with_events (after_write s) (write_cycle (holder s))))) /\
  (contents s = [] ->
     (ts_list.push_back Policy fuel v ;; ts_list.front Policy fuel) s
       = Ret v (container_mixin.State (with_data (container_mixin.self s) [v])
                  (with_events (after_write s) (read_cycle (holder s))))).
Proof.
  pose proof (writable_readable _ _ Hidle) as Hread.
  assert (Hpf : ts_list.push_front Policy fuel v s
    = Ret tt (container_mixin.State (with_data (container_mixin.self s) (v :: contents s))
                (after_write s))).
  { unfold ts_list.push_front. now apply write_member_ret. }
  assert (Hpb : ts_list.push_back Policy fuel v s
    = Ret tt (container_mixin.State (with_data (container_mixin.self s) (contents s ++ [v]))
                (after_write s))).
  { unfold ts_list.push_back. now apply write_member_ret. }
  split; [|split; [|split]].
  - intros E. rewrite list_pop_front_outcome by assumption. now rewrite E.
  - unfold bind at 1. rewrite Hpf. rewrite list_pop_front_outcome by assumption.
    cbn. unfold with_data. cbn. now destruct s as [[h d] w].
  - intros x d E. unfold bind at 1. rewrite Hpb.
    rewrite list_pop_front_outcome by assumption. cbn. now rewrite E.
  - intros E. unfold bind at 1. rewrite Hpb.
    rewrite list_front_outcome by assumption. cbn. now rewrite E.
Qed.

(** X14: under the policies of the primary template, all but
    [LockFree], [unsafe_pop_back] and [unsafe_pop_front] take no lock
    and, unlike [pop_back] and [pop_front], do nothing on an empty list
    instead of throwing; on a list that is not empty they remove the
    same element as the locked members. *)
Theorem list_unsafe_pop_ignores_empty Policy fuel s
    (Hlock : Policy <> LockPolicy.LockFree)
    (Hpol : LockGuard.policy_ (holder s) = Policy)
    (Hidle : writable (holder s) (container_mixin.world s) = true)
    (Hfuel : (0 < fuel)%nat) :
  (contents s = [] ->
     ts_list.unsafe_pop_back s = Ret tt s /\
     ts_list.unsafe_pop_front s = Ret tt s /\
     ts_list.pop_back Policy fuel s
       = Throw (out_of_range "Cannot pop from empty list") (at_world s (after_write s)) /\
     ts_list.pop_front Policy fuel s
       = Throw (out_of_range "Cannot pop from empty list") (at_world s (after_write s))) /\
  (forall x d, contents s = x :: d ->
     ts_list.unsafe_pop_front s
       = Ret tt (container_mixin.State (with_data (container_mixin.self s) d)
                   (container_mixin.world s)) /\
     ts_list.pop_front Policy fuel s
       = Ret tt (container_mixin.State (with_data (container_mixin.self s) d)
                   (after_write s)) /\
     ts_list.unsafe_pop_back s
       = Ret tt (container_mixin.State
                   (with_data (container_mixin.self s) (removelast (x :: d)))
                   (container_mixin.world s)) /\
     ts_list.pop_back Policy fuel s
       = Ret tt (container_mixin.State
                   (with_data (container_mixin.self s) (removelast (x :: d)))
                   (after_write s))).
Proof.
  pose proof (list_pop_front_outcome Policy fuel s Hpol Hidle Hfuel) as Hpf.
  pose proof (list_pop_back_outcome Policy fuel s Hpol Hidle Hfuel) as Hpb.
  split.
  - intros E. rewrite E in *. split; [|split; [|split]]; try assumption.
    + unfold ts_list.unsafe_pop_back, bind, container_mixin.derived. now rewrite E.
    + unfold ts_list.unsafe_pop_front, bind, container_mixin.derived. now rewrite E.
  - intros x d E. rewrite E in *. split; [|split; [|split]]; try assumption.
    + unfold ts_list.unsafe_pop_front, bind, container_mixin.derived. now rewrite E.
    + unfold ts_list.unsafe_pop_back, bind, container_mixin.derived. now rewrite E.
Qed.

End ListProperties.

(** ** The spin lock guard *)

Lemma spin_clear_allocated a w st :
  spinlocks w !! a = Some st ->
  SpinLock.unlock a w = Ret tt (log (Clear a) (set_spin a (SpinState false) w)).
Proof. intros H. unfold SpinLock.unlock, SpinLock.clear. now rewrite H. Qed.

(** X15: A [SpinLockGuard] takes the lock when it is constructed, and move
    construction hands the lock on: after the new guard and the source
    are destroyed the flag is clear and was cleared once. *)
Theorem spin_lock_guard_move_construction (fuel : nat) (a : addr) (w : World)
    (st : spin_state)
    (Halloc : spinlocks w !! a = Some st)
    (Hfree : flag_ st = false)
    (Hfuel : (0 < fuel)%nat) :
  exists w',
    (let* g := SpinLockGuard.ctor fuel a in spin_guard_moved_then_destroyed g) w
      = Ret tt w' /\
    SpinLockGuard.ctor fuel a w
      = Ret (SpinLockGuard.Guard a true) (after_test_and_set a st w) /\
    spinlocks w' !! a = Some (SpinState false) /\
    trace w' = trace w ++ [TestAndSet a false; Clear a].
Proof.
  destruct fuel as [|fuel]; [lia|].
  assert (Hctor : SpinLockGuard.ctor (S fuel) a w
                  = Ret (SpinLockGuard.Guard a true) (after_test_and_set a st w)).
  { unfold SpinLockGuard.ctor, bind. cbn [SpinLockGuard.lock_].
    now rewrite (lock_free_flag _ _ _ _ Halloc Hfree). }
  eexists. split; [|split; [exact Hctor|]].
  - unfold bind at 1. rewrite Hctor.
    unfold spin_guard_moved_then_destroyed, SpinLockGuard.move_ctor, bind, ret,
      SpinLockGuard.dtor. cbn.
    erewrite spin_clear_allocated by (cbn; apply lookup_insert_eq). reflexivity.
  - cbn. rewrite lookup_insert_eq. split; [reflexivity|].
    rewrite Hfree. now rewrite <- app_assoc.
Qed.

Lemma releases_snoc r t e :
  releases r (t ++ [e])
    = (releases r t + (if event_eq_dec e (release_event r) then 1 else 0))%nat.
Proof.
  unfold releases. rewrite count_occ_app. cbn [count_occ].
  destruct (event_eq_dec e (release_event r)); reflexivity.
Qed.

Lemma releases_snoc_clear a b t :
  releases (RSpin b) (t ++ [Clear a])
    = (releases (RSpin b) t + (if decide (a = b) then 1 else 0))%nat.
Proof.
  rewrite releases_snoc. cbn [release_event].
  destruct (event_eq_dec (Clear a) (Clear b)) as [E|N]; destruct (decide (a = b));
    try reflexivity; congruence.
Qed.

(** X16: Move assignment of a [SpinLockGuard] copies the ownership flag but
    cannot rebind the reference [lock_]: when source and destination
    refer to different locks, the lock of the source is never
    released, its flag stays set for good, and the destination clears
    its own lock once more at the end of its scope.  When both refer
    to the same lock the lock is released once. *)
Theorem spin_lock_guard_move_assignment_leaks (a b : addr) (owns_dst : bool)
    (w : World) (sa : spin_state)
    (Ha : spinlocks w !! a = Some sa)
    (Hb : spinlocks w !! b = Some (SpinState true)) :
  let dst := SpinLockGuard.Guard a owns_dst in
  let src := SpinLockGuard.Guard b true in
  exists w',
    spin_guard_assigned_then_destroyed dst src w = Ret tt w' /\
    (a <> b ->
       spinlocks w' !! b = Some (SpinState true) /\
       releases (RSpin b) (trace w') = releases (RSpin b) (trace w) /\
       releases (RSpin a) (trace w')
         = (releases (RSpin a) (trace w) + (if owns_dst then 2 else 1))%nat) /\
    (a = b -> owns_dst = false ->
       spinlocks w' !! b = Some (SpinState false) /\
       releases (RSpin b) (trace w') = S (releases (RSpin b) (trace w))).
Proof.
  intros dst src. unfold spin_guard_assigned_then_destroyed, SpinLockGuard.move_assign.
  unfold dst, src. cbn [SpinLockGuard.owns_lock_ SpinLockGuard.lock_].
  destruct owns_dst.
  - eexists. split.
    + unfold bind at 1. unfold bind at 1.
      rewrite (spin_clear_allocated a w sa Ha). cbn.
      unfold bind, ret, SpinLockGuard.dtor. cbn.
      erewrite spin_clear_allocated by (cbn; apply lookup_insert_eq). reflexivity.
    + split.
      * intros Hne. cbn [spinlocks log set_spin trace].
        rewrite !lookup_insert_ne by congruence.
        split; [exact Hb|]. rewrite !releases_snoc_clear.
        destruct (decide (a = b)); [congruence|].
        destruct (decide (a = a)); [|congruence]. split; lia.
      * discriminate.
  - eexists. split.
    + unfold bind at 1. unfold bind at 1. cbn.
      unfold bind, ret, SpinLockGuard.dtor. cbn.
      rewrite (spin_clear_allocated a w sa Ha). reflexivity.
    + split.
      * intros Hne. cbn [spinlocks log set_spin trace].
        rewrite lookup_insert_ne by congruence.
        split; [exact Hb|]. rewrite !releases_snoc_clear.
        destruct (decide (a = b)); [congruence|].
        destruct (decide (a = a)); [|congruence]. split; lia.
      * intros -> _. cbn [spinlocks log set_spin trace].
        rewrite lookup_insert_eq. split; [reflexivity|].
        rewrite releases_snoc_clear. destruct (decide (b = b)); [lia|congruence].
Qed.

(** ** Further members of the mixin *)

Section MixinProperties.
Context {T : Type}.
Implicit Types (s : @container_mixin.state T) (Policy : LockPolicy.t).

Lemma std_find_if_spec (pred : T -> bool) (l : list T) :
  let i := container_mixin.std_find_if l pred in
  (i <= length l)%nat /\
  (forall j x, (j < i)%nat -> l !! j = Some x -> pred x = false) /\
  (forall x, l !! i = Some x -> pred x = true).
Proof.
  induction l as [|y l IH]; cbn.
  - split; [lia|]. split; [intros; lia|discriminate].
  - destruct (pred y) eqn:E.
    + split; [lia|]. split; [intros; lia|]. now intros x [= <-].
    + destruct IH as (Hle & Hbefore & Hat). split; [lia|]. split.
      * intros [|j] x Hj Hx; cbn in Hx; [now injection Hx as <-|].
        apply (Hbefore j); [lia|exact Hx].
      * intros x Hx. now apply Hat.
Qed.

(** X17: [find_if] returns the position of the first element the predicate
    accepts: no earlier element is accepted, and the position is the
    length exactly when no element is.  The container is as before and
    the read lock given back. *)
Theorem mixin_find_if Policy fuel (pred : T -> bool) s
    (Hpol : LockGuard.policy_ (holder s) = Policy)
    (Hidle : readable (holder s) (container_mixin.world s) = true)
    (Hfuel : (0 < fuel)%nat) :
  exists i,
    container_mixin.find_if Policy fuel pred s = Ret i (at_world s (after_read s)) /\
    (i <= length (contents s))%nat /\
    (forall j x, (j < i)%nat -> contents s !! j = Some x -> pred x = false) /\
    (forall x, contents s !! i = Some x -> pred x = true) /\
    (i = length (contents s) <-> forall x, In x (contents s) -> pred x = false).
Proof.
  exists (container_mixin.std_find_if (contents s) pred).
  destruct (std_find_if_spec pred (contents s)) as (Hle & Hbefore & Hat).
  split; [|split; [exact Hle|split; [exact Hbefore|split; [exact Hat|]]]].
  - unfold container_mixin.find_if. now apply read_member_ret.
  - split.
    + intros Hend x Hin. apply list_elem_of_In, list_elem_of_lookup in Hin as [j Hj].
      apply (Hbefore j); [|exact Hj]. apply lookup_lt_Some in Hj. lia.
    + intros Hnone.
      destruct (contents s !! container_mixin.std_find_if (contents s) pred) as [x|] eqn:E.
      * pose proof (Hat x eq_refl) as Hx.
        rewrite (Hnone x) in Hx; [discriminate|].
        apply list_elem_of_In, list_elem_of_lookup. eauto.
      * apply lookup_ge_None in E. lia.
Qed.

(** X18: [with_write_lock] and [with_read_lock] give the lock back whether
    the callback returns or throws; an exception of the callback
    reaches the caller, with what the callback did to the object before
    it threw; and the lock can then be taken again. *)
Theorem mixin_with_lock_is_exception_safe Policy fuel
    (func : M (@container_mixin.state T) unit) s
    (Hpol : LockGuard.policy_ (holder s) = Policy)
    (Hidle : writable (holder s) (container_mixin.world s) = true)
    (Hfuel : (0 < fuel)%nat) :
  let w_locked := write_locked (holder s) (container_mixin.world s) in
  let r_locked := read_locked (holder s) (container_mixin.world s) in
  (forall o, func (at_world s w_locked) = Ret tt (container_mixin.State o w_locked) ->
     container_mixin.with_write_lock Policy fuel func s
       = Ret tt (container_mixin.State o (after_write s))) /\
  (forall e o, func (at_world s w_locked) = Throw e (container_mixin.State o w_locked) ->
     container_mixin.with_write_lock Policy fuel func s
       = Throw e (container_mixin.State o (after_write s))) /\
  (forall o, func (at_world s r_locked) = Ret tt (container_mixin.State o r_locked) ->
     container_mixin.with_read_lock Policy fuel func s
       = Ret tt (container_mixin.State o (after_read s))) /\
  (forall e o, func (at_world s r_locked) = Throw e (container_mixin.State o r_locked) ->
     container_mixin.with_read_lock Policy fuel func s
       = Throw e (container_mixin.State o (after_read s))) /\
  writable (holder s) (after_write s) = true /\
  writable (holder s) (after_read s) = true.
Proof.
  intros w_locked r_locked.
  pose proof (writable_readable _ _ Hidle) as Hread.
  unfold container_mixin.with_write_lock, container_mixin.with_read_lock.
  repeat split.
  - intros o Hf. now apply write_member_ret.
  - intros e o Hf. now apply write_member_throw.
  - intros o Hf. now apply read_member_ret.
  - intros e o Hf. now apply read_member_throw.
  - exact Hidle.
  - exact Hidle.
Qed.

(** X19: The guard [acquire_write_guard] returns holds the lock until it is
    destroyed: in between, under [SpinLock], a second acquisition, for
    writing or reading, spins and does not return; under [LockFree] it
    returns at once, for nothing is held.  After the destructor the
    lock is free again. *)
Theorem mixin_manual_guard_scope Policy fuel fuel' s
    (Hpol : LockGuard.policy_ (holder s) = Policy)
    (Hidle : writable (holder s) (container_mixin.world s) = true)
    (Hfuel : (0 < fuel)%nat) :
  let locked := at_world s (write_locked (holder s) (container_mixin.world s)) in
  exists g,
    container_mixin.acquire_write_guard Policy fuel s = Ret g locked /\
    container_mixin.guard_dtor g (container_mixin.world locked) = Ret tt (after_write s) /\
    writable (holder s) (after_write s) = true /\
    (Policy = LockPolicy.SpinLock ->
       container_mixin.acquire_write_guard Policy fuel' locked = Blocks /\
       container_mixin.acquire_read_guard Policy fuel' locked = Blocks) /\
    (Policy = LockPolicy.LockFree ->
       container_mixin.acquire_write_guard Policy fuel' locked
         = Ret (container_mixin.Unified empty_guard) locked /\
       container_mixin.acquire_read_guard Policy fuel' locked
         = Ret (container_mixin.Unified empty_guard) locked).
Proof.
  intros locked.
  destruct (acquire_write_idle Policy fuel s Hpol Hidle Hfuel) as (g & Hacq & Hrel).
  exists g. split; [exact Hacq|]. split; [exact Hrel|]. split; [exact Hidle|]. split.
  - intros Hlock. now apply acquire_while_write_locked.
  - intros ->. unfold container_mixin.acquire_write_guard, container_mixin.acquire_read_guard.
    rewrite acquire_write_lock_exclusive, acquire_read_lock_exclusive by discriminate.
    unfold locked.
    rewrite (on_world_fmapM_ret _ _ _ empty_guard
               (write_locked (holder s) (container_mixin.world s))).
    + split; reflexivity.
    + now apply write_lock_LockFree.
Qed.

End MixinProperties.

Section ForEach.
Context {T U : Type}.
Implicit Types (s : @container_mixin.state T) (u : U) (func : T -> M U unit).

(** A callback that always returns is folded over the elements. *)
Lemma std_for_each_returns func (step : T -> U -> U) (l : list T) : forall u,
  (forall x u, func x u = Ret tt (step x u)) ->
  container_mixin.std_for_each l func u = Ret tt (fold_left (fun u x => step x u) l u).
Proof.
  induction l as [|x l IH]; intros u Hf; [reflexivity|].
  cbn. unfold bind. rewrite Hf. now apply IH.
Qed.

(** A callback that throws ends the loop there. *)
Lemma std_for_each_throws func (step : T -> U -> U) before x rest e u u' :
  (forall y u, In y before -> func y u = Ret tt (step y u)) ->
  func x (fold_left (fun u y => step y u) before u) = Throw e u' ->
  container_mixin.std_for_each (before ++ x :: rest) func u = Throw e u'.
Proof.
  revert u. induction before as [|y before IH]; intros u Hf Hx.
  - cbn in *. unfold bind. now rewrite Hx.
  - cbn. unfold bind. rewrite Hf by now left.
    apply IH; [|exact Hx]. intros z v Hz. apply Hf. now right.
Qed.

(** X20: [for_each] calls the callback on every element once, in the order
    of iteration, under the read lock; when the callback throws at an
    element, the later elements are not visited, the exception reaches
    the caller, and the read lock has been given back all the same. *)
Theorem mixin_for_each Policy fuel func s u
    (Hpol : LockGuard.policy_ (holder s) = Policy)
    (Hidle : readable (holder s) (container_mixin.world s) = true)
    (Hfuel : (0 < fuel)%nat) :
  container_mixin.for_each Policy fuel func (s, u)
    = match container_mixin.std_for_each (contents s) func u with
      | Ret _ u' => Ret tt (at_world s (after_read s), u')
      | Throw e u' => Throw e (at_world s (after_read s), u')
      | Blocks => Blocks
      | Undefined => Undefined
      end /\
  (forall step : T -> U -> U,
     (forall x u, func x u = Ret tt (step x u)) ->
     container_mixin.for_each Policy fuel func (s, u)
       = Ret tt (at_world s (after_read s),
                 fold_left (fun u x => step x u) (contents s) u)) /\
  (forall (step : T -> U -> U) before x rest e u',
     contents s = before ++ x :: rest ->
     (forall y u, In y before -> func y u = Ret tt (step y u)) ->
     func x (fold_left (fun u y => step y u) before u) = Throw e u' ->
     container_mixin.for_each Policy fuel func (s, u)
       = Throw e (at_world s (after_read s), u')).
Proof.
  destruct (acquire_read_idle Policy fuel s Hpol Hidle Hfuel) as (g & Hacq & Hrel).
  assert (Hrun : container_mixin.for_each Policy fuel func (s, u)
    = match container_mixin.std_for_each (contents s) func u with
      | Ret _ u' => Ret tt (at_world s (after_read s), u')
      | Throw e u' => Throw e (at_world s (after_read s), u')
      | Blocks => Blocks
      | Undefined => Undefined
      end).
  { unfold container_mixin.for_each. unfold bind at 1.
    unfold container_mixin.on_object at 1. cbn [fst snd]. rewrite Hacq.
    unfold finally. unfold bind at 1. unfold container_mixin.on_object at 1.
    unfold container_mixin.derived. cbn [fst snd container_mixin.self].
    unfold container_mixin.on_caller. cbn [fst snd].
    destruct (container_mixin.std_for_each (contents s) func u) as [[] u1|e u1| |];
      try reflexivity.
    - unfold bind, container_mixin.on_object, container_mixin.on_world. cbn.
      now rewrite Hrel.
    - unfold bind, container_mixin.on_object, container_mixin.on_world. cbn.
      now rewrite Hrel. }
  split; [exact Hrun|]. split.
  - intros step Hf. rewrite Hrun. now rewrite (std_for_each_returns func step).
  - intros step before x rest e u' Hsplit Hf Hx. rewrite Hrun, Hsplit.
    now rewrite (std_for_each_throws func step before x rest e u u').
Qed.

End ForEach.

(** ** The map *)

Section StdMap.
Context {Key V : Type}.
Variable comp : Key -> Key -> bool.
Hypothesis Horder : strict_total_order comp.
Implicit Types (m : list (Key * V)) (k : Key) (v : V).

Lemma ascending_cons_inv k0 v0 m :
  keys_ascending comp ((k0, v0) :: m) ->
  keys_ascending comp m /\ forall k v, In (k, v) m -> comp k0 k = true.
Proof.
  intros [Hall Hs]. split; [exact Hs|].
  intros k v Hin. rewrite List.Forall_forall in Hall. exact (Hall (k, v) Hin).
Qed.

Lemma ascending_cons k0 v0 m :
  keys_ascending comp m -> (forall k v, In (k, v) m -> comp k0 k = true) ->
  keys_ascending comp ((k0, v0) :: m).
Proof.
  intros Hs Hall. split; [|exact Hs].
  apply List.Forall_forall. intros [k v] Hin. exact (Hall k v Hin).
Qed.

Lemma comp_asymmetric a b : comp a b = true -> comp b a = false.
Proof.
  intros Hab. destruct (comp b a) eqn:Hba; [|reflexivity].
  pose proof (comp_transitive comp Horder a b a Hab Hba) as H.
  now rewrite (comp_irreflexive comp Horder) in H.
Qed.

(** In an ascending map the value found for a key is the one of the
    element with that key. *)
Lemma mapped_In m k v :
  keys_ascending comp m -> (mapped comp m k = Some v <-> In (k, v) m).
Proof.
  unfold mapped. induction m as [|[k0 v0] m IH]; intros Hs.
  - cbn. split; [discriminate|tauto].
  - apply ascending_cons_inv in Hs as [Hs Hall]. specialize (IH Hs). cbn.
    destruct (comp k0 k) eqn:E1.
    + destruct (std_map.find comp m k) as [[i x]|].
      * rewrite IH. split; [tauto|]. intros [[= -> ->]|H]; [|exact H].
        now rewrite (comp_irreflexive comp Horder) in E1.
      * split; [discriminate|]. intros [[= -> ->]|H].
        -- now rewrite (comp_irreflexive comp Horder) in E1.
        -- now apply IH in H.
    + destruct (comp k k0) eqn:E2.
      * split; [discriminate|]. intros [[= -> ->]|H].
        -- now rewrite (comp_irreflexive comp Horder) in E2.
        -- apply Hall in H. congruence.
      * pose proof (comp_total comp Horder _ _ E1 E2) as ->.
        split; [intros [= ->]; now left|].
        intros [[= ->]|H]; [reflexivity|].
        apply Hall in H. now rewrite (comp_irreflexive comp Horder) in H.
Qed.

Lemma mapped_ext m m' k :
  keys_ascending comp m -> keys_ascending comp m' ->
  (forall v, In (k, v) m' <-> In (k, v) m) ->
  mapped comp m' k = mapped comp m k.
Proof.
  intros Hs Hs' Hin.
  destruct (mapped comp m' k) as [v'|] eqn:E'; destruct (mapped comp m k) as [v|] eqn:E;
    try reflexivity.
  - apply mapped_In, Hin, mapped_In in E'; try assumption. congruence.
  - apply mapped_In, Hin, mapped_In in E'; try assumption. congruence.
  - apply mapped_In, Hin, mapped_In in E; try assumption. congruence.
Qed.

(** The elements after [m[key] = value]. *)
Lemma subscript_assign_In m k v k' v' :
  keys_ascending comp m ->
  In (k', v') (std_map.subscript_assign comp m k v) <->
  (k' = k /\ v' = v) \/ (k' <> k /\ In (k', v') m).
Proof.
  induction m as [|[k0 v0] m IH]; intros Hs.
  - cbn. split.
    + intros [[= -> ->]|[]]. now left.
    + intros [[-> ->]|[_ []]]. now left.
  - apply ascending_cons_inv in Hs as [Hs Hall]. specialize (IH Hs). cbn.
    destruct (comp k0 k) eqn:E1.
    + cbn. rewrite IH. split.
      * intros [[= -> ->]|[H|[Hne H]]]; [|now left|right; split; [exact Hne|now right]].
        right. split; [|now left]. intros ->.
        now rewrite (comp_irreflexive comp Horder) in E1.
      * intros [H|[Hne [[= -> ->]|H]]]; [right; now left|now left|right; right; now split].
    + destruct (comp k k0) eqn:E2.
      * cbn. split.
        -- intros [[= -> ->]|[[= -> ->]|H]]; [now left| |].
           ++ right. split; [|now left]. intros ->.
              now rewrite (comp_irreflexive comp Horder) in E2.
           ++ right. split; [|now right]. intros ->.
              apply Hall in H. congruence.
        -- intros [[-> ->]|[Hne [[= -> ->]|H]]]; [now left|right; now left|right; now right].
      * pose proof (comp_total comp Horder _ _ E1 E2) as ->. cbn. split.
        -- intros [[= -> ->]|H]; [now left|].
           right. split; [|now right]. intros ->.
           apply Hall in H. now rewrite (comp_irreflexive comp Horder) in H.
        -- intros [[-> ->]|[Hne [[= -> ->]|H]]]; [now left|congruence|now right].
Qed.

Lemma subscript_assign_ascending m k v :
  keys_ascending comp m -> keys_ascending comp (std_map.subscript_assign comp m k v).
Proof.
  induction m as [|[k0 v0] m IH]; intros Hs.
  - cbn. split; [constructor|exact I].
  - pose proof Hs as Hs0. apply ascending_cons_inv in Hs as [Hs Hall]. cbn.
    destruct (comp k0 k) eqn:E1.
    + apply ascending_cons; [now apply IH|].
      intros k' v' Hin. apply subscript_assign_In in Hin as [[-> ->]|[_ Hin]];
        [exact E1|now apply (Hall k' v')|exact Hs].
    + destruct (comp k k0) eqn:E2.
      * apply ascending_cons; [exact Hs0|].
        intros k' v' [[= -> ->]|Hin]; [exact E2|].
        apply (comp_transitive comp Horder k k0 k' E2). now apply (Hall k' v').
      * now apply ascending_cons.
Qed.

(** [insert] keeps an element that is there and otherwise does what
    [m[key] = value] does; the position it reports is the number of
    smaller keys. *)
Lemma insert_spec m k v :
  keys_ascending comp m ->
  std_map.insert comp m k v =
    match mapped comp m k with
    | Some _ => (m, (rank comp m k, false))
    | None => (std_map.subscript_assign comp m k v, (rank comp m k, true))
    end.
Proof.
  unfold mapped, rank. induction m as [|[k0 v0] m IH]; intros Hs; [reflexivity|].
  apply ascending_cons_inv in Hs as [Hs Hall]. specialize (IH Hs). cbn.
  assert (Hnone : comp k0 k = false ->
                  List.filter (fun p => comp (fst p) k) m = []).
  { intros E1. clear IH. induction m as [|[k1 v1] m IHm]; [reflexivity|].
    cbn. assert (E : comp k1 k = false).
    { destruct (comp k1 k) eqn:E; [|reflexivity].
      pose proof (comp_transitive comp Horder k0 k1 k
                    (Hall k1 v1 (or_introl eq_refl)) E). congruence. }
    rewrite E. apply IHm.
    - now apply ascending_cons_inv in Hs as [Hs _].
    - intros k' v' Hin. apply (Hall k' v'). now right. }
  destruct (comp k0 k) eqn:E1.
  - rewrite IH. destruct (std_map.find comp m k) as [[i x]|]; reflexivity.
  - rewrite (Hnone eq_refl). cbn. destruct (comp k k0); reflexivity.
Qed.

(** The elements after [m.erase(key)], and the count it returns. *)
Lemma erase_In m k k' v' :
  keys_ascending comp m ->
  In (k', v') (fst (std_map.erase comp m k)) <-> k' <> k /\ In (k', v') m.
Proof.
  induction m as [|[k0 v0] m IH]; intros Hs.
  - cbn. tauto.
  - apply ascending_cons_inv in Hs as [Hs Hall]. specialize (IH Hs). cbn.
    destruct (comp k0 k) eqn:E1.
    + destruct (std_map.erase comp m k) as [rest' n] eqn:Er. cbn in *.
      rewrite IH. split.
      * intros [[= -> ->]|[Hne H]]; [|split; [exact Hne|now right]].
        split; [|now left]. intros ->.
        now rewrite (comp_irreflexive comp Horder) in E1.
      * intros [Hne [[= -> ->]|H]]; [now left|right; now split].
    + destruct (comp k k0) eqn:E2.
      * cbn. split.
        -- intros [[= -> ->]|H].
           ++ split; [|now left]. intros ->.
              now rewrite (comp_irreflexive comp Horder) in E2.
           ++ split; [|now right]. intros ->. apply Hall in H. congruence.
        -- tauto.
      * pose proof (comp_total comp Horder _ _ E1 E2) as ->. cbn. split.
        -- intros H. split; [|now right]. intros ->.
           apply Hall in H. now rewrite (comp_irreflexive comp Horder) in H.
        -- intros [Hne [[= -> ->]|H]]; [congruence|exact H].
Qed.

Lemma erase_ascending m k :
  keys_ascending comp m -> keys_ascending comp (fst (std_map.erase comp m k)).
Proof.
  induction m as [|[k0 v0] m IH]; intros Hs; [exact Hs|].
  pose proof Hs as Hs0. apply ascending_cons_inv in Hs as [Hs Hall]. cbn.
  destruct (comp k0 k) eqn:E1.
  - pose proof (fun k' v' => erase_In m k k' v' Hs) as HIn.
    specialize (IH Hs).
    destruct (std_map.erase comp m k) as [rest' n]. cbn in *.
    split; [|exact IH].
    apply List.Forall_forall. intros [k' v'] Hin.
    apply HIn in Hin as [_ Hin]. now apply (Hall k' v').
  - destruct (comp k k0); [exact Hs0|exact Hs].
Qed.

Lemma erase_count m k :
  snd (std_map.erase comp m k) =
    match mapped comp m k with Some _ => 1 | None => 0 end /\
  length (fst (std_map.erase comp m k))
    = match mapped comp m k with Some _ => pred (length m) | None => length m end.
Proof.
  unfold mapped. induction m as [|[k0 v0] m IH]; [split; reflexivity|]. cbn.
  destruct (comp k0 k) eqn:E1.
  - destruct (std_map.erase comp m k) as [rest' n]. cbn in *.
    destruct (std_map.find comp m k) as [[i x]|] eqn:Ef; destruct IH as [-> Hl];
      (split; [reflexivity|]); rewrite Hl; [|reflexivity].
    destruct m; [discriminate Ef|reflexivity].
  - destruct (comp k k0); split; reflexivity.
Qed.

End StdMap.

Section MapProperties.
Context {Key V : Type}.
Variable comp : Key -> Key -> bool.
Hypothesis Horder : strict_total_order comp.
Implicit Types (s : @container_mixin.state (Key * V)) (Policy : LockPolicy.t)
  (m : list (Key * V)) (k : Key) (v : V).

Lemma mapped_subscript_assign m k v k' :
  keys_ascending comp m ->
  mapped comp (std_map.subscript_assign comp m k v) k'
    = if comp k k' || comp k' k then mapped comp m k' else Some v.
Proof.
  intros Hs.
  pose proof (subscript_assign_ascending comp Horder m k v Hs) as Hs'.
  destruct (comp k k' || comp k' k) eqn:E.
  - assert (Hne : k' <> k).
    { intros ->. now rewrite (comp_irreflexive comp Horder) in E. }
    apply (mapped_ext comp Horder); try assumption.
    intros x. rewrite (subscript_assign_In comp Horder) by assumption. tauto.
  - apply orb_false_elim in E as [E1 E2].
    pose proof (comp_total comp Horder _ _ E1 E2) as ->.
    apply (mapped_In comp Horder); [assumption|].
    apply (subscript_assign_In comp Horder); [assumption|]. now left.
Qed.

Lemma comp_distinct k k' : k' <> k -> comp k k' || comp k' k = true.
Proof.
  intros Hne. destruct (comp k k') eqn:E1; [reflexivity|].
  destruct (comp k' k) eqn:E2; [reflexivity|].
  pose proof (comp_total comp Horder _ _ E1 E2). congruence.
Qed.

Lemma subscript_spec m k initial :
  std_map.subscript comp m k initial =
    match mapped comp m k with
    | Some x => (m, x)
    | None => (std_map.subscript_assign comp m k initial, initial)
    end.
Proof.
  unfold mapped. induction m as [|[k0 v0] m IH]; [reflexivity|]. cbn.
  destruct (comp k0 k).
  - rewrite IH. destruct (std_map.find comp m k) as [[i x]|]; reflexivity.
  - destruct (comp k k0); reflexivity.
Qed.

Lemma subscript_assign_length m k v :
  length (std_map.subscript_assign comp m k v)
    = match mapped comp m k with Some _ => length m | None => S (length m) end.
Proof.
  unfold mapped. induction m as [|[k0 v0] m IH]; [reflexivity|]. cbn.
  destruct (comp k0 k).
  - cbn. rewrite IH. destruct (std_map.find comp m k) as [[i x]|]; reflexivity.
  - destruct (comp k k0); reflexivity.
Qed.

Lemma map_get_outcome Policy fuel k d s :
  LockGuard.policy_ (holder s) = Policy ->
  readable (holder s) (container_mixin.world s) = true ->
  (0 < fuel)%nat ->
  ts_map.get comp Policy fuel k d s =
    Ret (match mapped comp (contents s) k with Some x => x | None => d end)
        (at_world s (after_read s)).
Proof.
  intros Hpol Hidle Hfuel. unfold ts_map.get. apply read_member_ret; try assumption.
  unfold bind, container_mixin.derived, mapped. cbn.
  destruct (std_map.find comp (contents s) k) as [[i x]|]; reflexivity.
Qed.

Lemma map_contains_outcome Policy fuel k s :
  LockGuard.policy_ (holder s) = Policy ->
  readable (holder s) (container_mixin.world s) = true ->
  (0 < fuel)%nat ->
  ts_map.contains comp Policy fuel k s =
    Ret (match mapped comp (contents s) k with Some _ => true | None => false end)
        (at_world s (after_read s)).
Proof.
  intros Hpol Hidle Hfuel. unfold ts_map.contains. apply read_member_ret; try assumption.
  unfold bind, container_mixin.derived, mapped. cbn.
  destruct (std_map.find comp (contents s) k) as [[i x]|]; reflexivity.
Qed.

Lemma map_set_outcome Policy fuel k v s :
  LockGuard.policy_ (holder s) = Policy ->
  writable (holder s) (container_mixin.world s) = true ->
  (0 < fuel)%nat ->
  ts_map.set comp Policy fuel k v s =
    Ret tt (container_mixin.State
              (with_data (container_mixin.self s)
                 (std_map.subscript_assign comp (contents s) k v))
              (after_write s)).
Proof.
  intros Hpol Hidle Hfuel. unfold ts_map.set. now apply write_member_ret.
Qed.

Lemma map_insert_outcome Policy fuel k v s :
  keys_ascending comp (contents s) ->
  LockGuard.policy_ (holder s) = Policy ->
  writable (holder s) (container_mixin.world s) = true ->
  (0 < fuel)%nat ->
  ts_map.insert comp Policy fuel k v s =
    match mapped comp (contents s) k with
    | Some _ =>
        Ret (false, Z.of_nat (rank comp (contents s) k)) (at_world s (after_write s))
    | None =>
        Ret (true, Z.of_nat (rank comp (contents s) k))
          (container_mixin.State
             (with_data (container_mixin.self s)
                (std_map.subscript_assign comp (contents s) k v))
             (after_write s))
    end.
Proof.
  intros Hs Hpol Hidle Hfuel. unfold ts_map.insert.
  destruct (mapped comp (contents s) k) eqn:E.
  - apply write_member_ret; try assumption.
    unfold bind at 1. unfold container_mixin.derived.
    cbn [container_mixin.self container_mixin.data_].
    rewrite (insert_spec comp Horder) by assumption. rewrite E.
    unfold bind, ts_map.assign_data_, ret. cbn. now destruct s as [[h d] w].
  - apply write_member_ret; try assumption.
    unfold bind at 1. unfold container_mixin.derived.
    cbn [container_mixin.self container_mixin.data_].
    rewrite (insert_spec comp Horder) by assumption. rewrite E. reflexivity.
Qed.

Lemma map_erase_outcome Policy fuel k s :
  LockGuard.policy_ (holder s) = Policy ->
  writable (holder s) (container_mixin.world s) = true ->
  (0 < fuel)%nat ->
  ts_map.erase comp Policy fuel k s =
    Ret (snd (std_map.erase comp (contents s) k))
      (container_mixin.State
         (with_data (container_mixin.self s) (fst (std_map.erase comp (contents s) k)))
         (after_write s)).
Proof.
  intros Hpol Hidle Hfuel. unfold ts_map.erase. apply write_member_ret; try assumption.
  unfold bind at 1. unfold container_mixin.derived.
  cbn [container_mixin.self container_mixin.data_].
  now destruct (std_map.erase comp (contents s) k).
Qed.

(** X21: What [set] stores for a key is what [get] returns for it, whatever
    was there; every other key keeps its value; the keys stay in
    ascending order. *)
Theorem map_set_then_get Policy fuel k v d s
    (Hasc : keys_ascending comp (contents s))
    (Hpol : LockGuard.policy_ (holder s) = Policy)
    (Hidle : writable (holder s) (container_mixin.world s) = true)
    (Hfuel : (0 < fuel)%nat) :
  let s1 := container_mixin.State
              (with_data (container_mixin.self s)
                 (std_map.subscript_assign comp (contents s) k v))
              (after_write s) in
  ts_map.set comp Policy fuel k v s = Ret tt s1 /\
  keys_ascending comp (contents s1) /\
  (ts_map.set comp Policy fuel k v ;; ts_map.get comp Policy fuel k d) s
    = Ret v (at_world s1 (after_read s1)) /\
  forall k', k' <> k ->
    (ts_map.set comp Policy fuel k v ;; ts_map.get comp Policy fuel k' d) s
      = Ret (match mapped comp (contents s) k' with Some x => x | None => d end)
          (at_world s1 (after_read s1)).
Proof.
  intros s1.
  pose proof (map_set_outcome Policy fuel k v s Hpol Hidle Hfuel) as Hset.
  pose proof (writable_readable _ _ Hidle) as Hread.
  split; [exact Hset|]. split; [now apply subscript_assign_ascending|]. split.
  - unfold bind at 1. rewrite Hset. rewrite map_get_outcome by assumption.
    cbn. rewrite mapped_subscript_assign by assumption.
    now rewrite (comp_irreflexive comp Horder).
  - intros k' Hne. unfold bind at 1. rewrite Hset. rewrite map_get_outcome by assumption.
    cbn. rewrite mapped_subscript_assign by assumption.
    now rewrite (comp_distinct k k' Hne).
Qed.

(** X22: For a key the map does not hold, [get] returns the default and
    [contains] returns [false], and neither adds the key; [unsafe_at]
    on a map that is not [const] adds the key with a
    value-initialised value and returns that. *)
Theorem map_get_missing_key Policy fuel k d initial s
    (Hasc : keys_ascending comp (contents s))
    (Hpol : LockGuard.policy_ (holder s) = Policy)
    (Hidle : readable (holder s) (container_mixin.world s) = true)
    (Hfuel : (0 < fuel)%nat)
    (Hmissing : mapped comp (contents s) k = None) :
  ts_map.get comp Policy fuel k d s = Ret d (at_world s (after_read s)) /\
  ts_map.contains comp Policy fuel k s = Ret false (at_world s (after_read s)) /\
  exists m',
    ts_map.unsafe_at comp k initial s
      = Ret initial (container_mixin.State (with_data (container_mixin.self s) m')
                       (container_mixin.world s)) /\
    mapped comp m' k = Some initial /\
    length m' = S (length (contents s)).
Proof.
  split; [|split].
  - rewrite map_get_outcome by assumption. now rewrite Hmissing.
  - rewrite map_contains_outcome by assumption. now rewrite Hmissing.
  - exists (std_map.subscript_assign comp (contents s) k initial). split; [|split].
    + unfold ts_map.unsafe_at, bind at 1. unfold container_mixin.derived.
      cbn [container_mixin.self container_mixin.data_].
      rewrite subscript_spec, Hmissing. reflexivity.
    + rewrite mapped_subscript_assign by assumption.
      now rewrite (comp_irreflexive comp Horder).
    + now rewrite subscript_assign_length, Hmissing.
Qed.

(** X23: [insert] does not replace: for a key the map holds it returns
    [false] and leaves the value, where [set] and [unsafe_insert] store
    the new one; for a new key it returns [true] and stores the value.
    The position it reports is the number of smaller keys. *)
Theorem map_insert_keeps_existing Policy fuel k v d s
    (Hasc : keys_ascending comp (contents s))
    (Hpol : LockGuard.policy_ (holder s) = Policy)
    (Hidle : writable (holder s) (container_mixin.world s) = true)
    (Hfuel : (0 < fuel)%nat) :
  let stored := std_map.subscript_assign comp (contents s) k v in
  ts_map.unsafe_insert comp k v s
    = Ret tt (container_mixin.State (with_data (container_mixin.self s) stored)
                (container_mixin.world s)) /\
  mapped comp stored k = Some v /\
  (forall v0, mapped comp (contents s) k = Some v0 ->
     ts_map.insert comp Policy fuel k v s
       = Ret (false, Z.of_nat (rank comp (contents s) k)) (at_world s (after_write s)) /\
     (ts_map.insert comp Policy fuel k v ;; ts_map.get comp Policy fuel k d) s
       = Ret v0 (at_world s (with_events (after_write s) (read_cycle (holder s))))) /\
  (mapped comp (contents s) k = None ->
     ts_map.insert comp Policy fuel k v s
       = Ret (true, Z.of_nat (rank comp (contents s) k))
           (container_mixin.State (with_data (container_mixin.self s) stored)
              (after_write s)) /\
     (ts_map.insert comp Policy fuel k v ;; ts_map.get comp Policy fuel k d) s
       = Ret v (container_mixin.State (with_data (container_mixin.self s) stored)
                  (with_events (after_write s) (read_cycle (holder s)))) /\
     length stored = S (length (contents s))).
Proof.
  intros stored.
  pose proof (map_insert_outcome Policy fuel k v s Hasc Hpol Hidle Hfuel) as Hins.
  pose proof (writable_readable _ _ Hidle) as Hread.
  assert (Hstored : mapped comp stored k = Some v).
  { unfold stored. rewrite mapped_subscript_assign by assumption.
    now rewrite (comp_irreflexive comp Horder). }
  split; [reflexivity|]. split; [exact Hstored|]. split.
  - intros v0 E. rewrite E in Hins. split; [exact Hins|].
    unfold bind at 1. rewrite Hins. rewrite map_get_outcome by assumption.
    cbn. now rewrite E.
  - intros E. rewrite E in Hins. split; [exact Hins|]. split.
    + unfold bind at 1. rewrite Hins. rewrite map_get_outcome by assumption.
      cbn. fold stored. now rewrite Hstored.
    + unfold stored. now rewrite subscript_assign_length, E.
Qed.

(** X24: [erase] returns 1 when the map holds the key and 0 when it does
    not; afterwards the map does not hold the key, every other key has
    the value it had, and the keys are still in ascending order. *)
Theorem map_erase Policy fuel k s
    (Hasc : keys_ascending comp (contents s))
    (Hpol : LockGuard.policy_ (holder s) = Policy)
    (Hidle : writable (holder s) (container_mixin.world s) = true)
    (Hfuel : (0 < fuel)%nat) :
  exists m',
    let s1 := container_mixin.State (with_data (container_mixin.self s) m')
                (after_write s) in
    ts_map.erase comp Policy fuel k s
      = Ret (match mapped comp (contents s) k with Some _ => 1 | None => 0 end) s1 /\
    keys_ascending comp m' /\
    mapped comp m' k = None /\
    (forall k', k' <> k -> mapped comp m' k' = mapped comp (contents s) k') /\
    length m' = match mapped comp (contents s) k with
                | Some _ => pred (length (contents s))
                | None => length (contents s)
                end /\
    (ts_map.erase comp Policy fuel k ;; ts_map.contains comp Policy fuel k) s
      = Ret false (at_world s1 (after_read s1)).
Proof.
  exists (fst (std_map.erase comp (contents s) k)). cbv zeta.
  pose proof (map_erase_outcome Policy fuel k s Hpol Hidle Hfuel) as Herase.
  pose proof (erase_count comp (contents s) k) as [Hn Hlen].
  pose proof (erase_ascending comp Horder (contents s) k Hasc) as Hasc'.
  pose proof (writable_readable _ _ Hidle) as Hread.
  assert (Hgone : mapped comp (fst (std_map.erase comp (contents s) k)) k = None).
  { destruct (mapped comp (fst (std_map.erase comp (contents s) k)) k) as [x|] eqn:E;
      [|reflexivity].
    apply (mapped_In comp Horder) in E; [|assumption].
    apply (erase_In comp Horder) in E as [Hne _]; [congruence|assumption]. }
  split; [now rewrite <- Hn|]. split; [exact Hasc'|]. split; [exact Hgone|].
  split; [|split; [exact Hlen|]].
  - intros k' Hne. apply (mapped_ext comp Horder); try assumption.
    intros x. rewrite (erase_In comp Horder) by assumption. tauto.
  - unfold bind at 1. rewrite Herase. rewrite map_contains_outcome by assumption.
    cbn. now rewrite Hgone.
Qed.

End MapProperties.

(** * The properties at sample inputs *)


Lemma C2_witness :
  well_formed (mutex_guard 0) = true /\
  payload (mutex_guard 0) = [RMutex 0] /\
  held held_world (RMutex 0) = true /\
  (exists w',
     moved_then_destroyed [MoveConstruct; MoveConstruct] (mutex_guard 0) held_world
       = Ret tt w' /\
     releases (RMutex 0) (trace w') = 1%nat /\
     releases (RSpin 1) (trace w') = 0%nat) /\
  UnifiedLockGuard.move_assign (spin_guard 1) (mutex_guard 0) held_world = Undefined /\
  moved_then_destroyed sample_chain (mutex_guard 0) held_world = Undefined.
Proof.
  split; [reflexivity|]. split; [reflexivity|]. split; [reflexivity|].
  split; [|split].
  - destruct (C2_release_through_moves [MoveConstruct; MoveConstruct] (mutex_guard 0)
                held_world (RMutex 0) eq_refl eq_refl eq_refl)
      as (_ & Hchain & _).
    destruct (Hchain eq_refl) as (w' & Hrun & Hone & _ & Hothers).
    exists w'. split; [exact Hrun|]. split; [exact Hone|].
    apply (Hothers (RSpin 1)). discriminate.
  - destruct (C2_release_through_moves [] (mutex_guard 0) held_world (RMutex 0)
                eq_refl eq_refl eq_refl) as (_ & _ & Hassign & _).
    exact (Hassign (spin_guard 1)).
  - destruct (C2_release_through_moves sample_chain (mutex_guard 0) held_world (RMutex 0)
                eq_refl eq_refl eq_refl) as (_ & _ & _ & Hchain).
    apply Hchain. discriminate.
Defined.


Lemma C4_witness :
  container_mixin.acquire_read_lock LockPolicy.SpinLock 1
    (container_mixin.State (container_mixin.Object spin_holder [true]) free_spin_world)
  = container_mixin.acquire_write_lock LockPolicy.SpinLock 1
      (container_mixin.State (container_mixin.Object spin_holder [true]) free_spin_world) /\
  container_mixin.acquire_read_lock LockPolicy.ReadWrite 1 sample_state
  = Ret (container_mixin.SharedRW (owning_lock 0))
      (at_world sample_state
         (after_lock_shared 0 (SharedState false 0) free_shared_world)).
Proof.
  split.
  - apply (proj1 (C4_acquire_read_lock_routes LockPolicy.SpinLock 1 _)). discriminate.
  - apply (proj2 (C4_acquire_read_lock_routes LockPolicy.ReadWrite 1 sample_state)
             eq_refl); reflexivity.
Defined.

Lemma C5_witness :
  well_formed (spin_guard 1) = true /\
  Forall (fun r => held held_world r = true) (payload (spin_guard 1)) /\
  UnifiedLockGuard.from_SpinLock 1 0 free_spin_world
    = Ret (spin_guard 0) (after_test_and_set 0 (SpinState false) free_spin_world) /\
  UnifiedLockGuard.dtor (spin_guard 1) held_world
    = Ret (destroyed (spin_guard 1))
        (log (Clear 1) (set_spin 1 (SpinState false) held_world)).
Proof.
  assert (Hheld : Forall (fun r => held held_world r = true) (payload (spin_guard 1)))
    by (repeat constructor).
  split; [reflexivity|]. split; [exact Hheld|]. split.
  - destruct (C5_spin_guard_locks_and_unlocks 1 0 empty_guard free_spin_world
                eq_refl ltac:(constructor)) as (_ & _ & _ & Hctor & _).
    apply (Hctor (SpinState false)); [reflexivity|reflexivity|lia].
  - destruct (C5_spin_guard_locks_and_unlocks 1 0 (spin_guard 1) held_world
                eq_refl Hheld) as (_ & _ & _ & _ & w' & Hrun & Htag & _).
    destruct (Htag eq_refl) as (p & Hp & Hw'). injection Hp as <-.
    rewrite Hrun, Hw'. reflexivity.
Defined.

Lemma C6_witness :
  spinlocks free_spin_world !! 0%nat = Some (SpinState false) /\
  exists w',
    SpinLock.try_lock 0 free_spin_world = Ret true w' /\
    trace w' = [TestAndSet 0 false].
Proof.
  split; [reflexivity|].
  destruct (C6_try_lock_single_attempt 0 free_spin_world (SpinState false) eq_refl)
    as (b & w' & Hrun & Hb & Htrace & _).
  exists w'. rewrite Hrun, (proj2 Hb eq_refl). split; [reflexivity|exact Htrace].
Defined.


Lemma C10_witness :
  LockGuard.policy_ shared_holder = LockPolicy.ReadWrite /\
  LockGuard.write_lock 1 shared_holder free_shared_world
    = Throw (logic_error "Cannot acquire write_lock on ReadWrite policy")
        free_shared_world.
Proof.
  split; [reflexivity|].
  exact (proj1 (C10_write_lock_throws_under_ReadWrite 1 shared_holder
                  free_shared_world eq_refl)).
Defined.

(** ** Members of the containers at sample inputs *)

Lemma Z_ltb_strict_total_order : strict_total_order Z.ltb.
Proof.
  split.
  - intros a. apply Z.ltb_irrefl.
  - intros a b c H1 H2. apply Z.ltb_lt in H1, H2. apply Z.ltb_lt. lia.
  - intros a b H1 H2. apply Z.ltb_ge in H1, H2. lia.
Qed.

Lemma sample_map_ascending : keys_ascending Z.ltb (contents sample_map).
Proof. cbn. repeat constructor. Qed.

Lemma vector_get_checks_bounds_witness :
  readable (holder sample_state) (container_mixin.world sample_state) = true /\
  ts_vector.get_const LockPolicy.ReadWrite 1 1 sample_state
    = Ret 1%nat (at_world sample_state (after_read sample_state)) /\
  ts_vector.get_const LockPolicy.ReadWrite 1 3 sample_state
    = Throw (out_of_range "Index out of range")
        (at_world sample_state (after_read sample_state)).
Proof.
  split; [reflexivity|]. split.
  - exact (vector_get_checks_bounds LockPolicy.ReadWrite 1 1 sample_state
             eq_refl eq_refl ltac:(lia)).
  - exact (vector_get_checks_bounds LockPolicy.ReadWrite 1 3 sample_state
             eq_refl eq_refl ltac:(lia)).
Defined.

Lemma vector_set_then_get_witness :
  writable (holder mutex_sample) (container_mixin.world mutex_sample) = true /\
  (ts_vector.set LockPolicy.Mutex 1 1 7%nat ;; ts_vector.get_const LockPolicy.Mutex 1 1)
      mutex_sample
    = Ret 7%nat
        (container_mixin.State (container_mixin.Object mutex_holder [3; 7; 3]%nat)
           (with_events (after_write mutex_sample) (read_cycle mutex_holder))) /\
  ts_vector.set LockPolicy.Mutex 1 3 7%nat mutex_sample
    = Throw (out_of_range "Index out of range")
        (at_world mutex_sample (after_write mutex_sample)).
Proof.
  split; [reflexivity|]. split.
  - exact (proj1 (proj2 (vector_set_then_get LockPolicy.Mutex 1 1 7%nat mutex_sample
                           eq_refl eq_refl ltac:(lia)))).
  - exact (vector_set_then_get LockPolicy.Mutex 1 3 7%nat mutex_sample
             eq_refl eq_refl ltac:(lia)).
Defined.

Lemma vector_pop_back_checks_empty_witness :
  LockPolicy.Mutex <> LockPolicy.LockFree /\
  writable (holder empty_sample) (container_mixin.world empty_sample) = true /\
  ts_vector.pop_back LockPolicy.Mutex 1 empty_sample
    = Throw (out_of_range "Cannot pop from empty vector")
        (at_world empty_sample (after_write empty_sample)).
Proof.
  assert (Hlock : LockPolicy.Mutex <> LockPolicy.LockFree) by discriminate.
  split; [exact Hlock|]. split; [reflexivity|].
  exact (proj1 (vector_pop_back_checks_empty LockPolicy.Mutex 1 empty_sample
                  Hlock eq_refl eq_refl ltac:(lia)) eq_refl).
Defined.

Lemma vector_push_back_appends_witness :
  writable (holder spin_sample) (container_mixin.world spin_sample) = true /\
  (ts_vector.push_back LockPolicy.SpinLock 1 7%nat ;; ts_vector.back LockPolicy.SpinLock 1)
      spin_sample
    = Ret 7%nat
        (container_mixin.State (container_mixin.Object spin_holder [3; 1; 3; 7]%nat)
           (with_events (after_write spin_sample) (read_cycle spin_holder))) /\
  (ts_vector.push_back LockPolicy.SpinLock 1 7%nat ;; ts_vector.size LockPolicy.SpinLock 1)
      spin_sample
    = Ret 4
        (container_mixin.State (container_mixin.Object spin_holder [3; 1; 3; 7]%nat)
           (with_events (after_write spin_sample) (read_cycle spin_holder))).
Proof.
  split; [reflexivity|].
  destruct (vector_push_back_appends LockPolicy.SpinLock 1 7%nat spin_sample
              eq_refl eq_refl ltac:(lia)) as (_ & Hback & Hsize & _).
  split; [exact Hback|exact Hsize].
Defined.

Lemma vector_get_overloads_witness :
  LockGuard.policy_ (holder read_by_other_sample) = LockPolicy.ReadWrite /\
  ts_vector.get LockPolicy.ReadWrite 1 1 read_by_other_sample = Blocks /\
  ts_vector.get_const LockPolicy.ReadWrite 1 1 read_by_other_sample
    = Ret 1%nat (at_world read_by_other_sample (after_read read_by_other_sample)).
Proof.
  split; [reflexivity|].
  exact (proj2 (vector_get_overloads LockPolicy.ReadWrite 1 1 read_by_other_sample
                  eq_refl ltac:(lia)) 0%nat 0%nat eq_refl eq_refl eq_refl).
Defined.

Lemma vector_batch_under_one_lock_witness :
  writable (holder mutex_sample) (container_mixin.world mutex_sample) = true /\
  ts_vector.with_write_lock LockPolicy.Mutex 1
      (ts_vector.unsafe_push_back 7%nat ;; ts_vector.unsafe_push_back 8%nat) mutex_sample
    = Ret tt
        (container_mixin.State (container_mixin.Object mutex_holder [3; 1; 3; 7; 8]%nat)
           (after_write mutex_sample)) /\
  (ts_vector.push_back LockPolicy.Mutex 1 7%nat ;; ts_vector.push_back LockPolicy.Mutex 1 8%nat)
      mutex_sample
    = Ret tt
        (container_mixin.State (container_mixin.Object mutex_holder [3; 1; 3; 7; 8]%nat)
           (with_events (after_write mutex_sample) (write_cycle mutex_holder))).
Proof.
  split; [reflexivity|].
  exact (vector_batch_under_one_lock LockPolicy.Mutex 1 7%nat 8%nat mutex_sample
           eq_refl eq_refl ltac:(lia)).
Defined.

Lemma vector_locking_member_in_batch_blocks_witness :
  LockGuard.policy_ (holder spin_sample) = LockPolicy.SpinLock /\
  writable (holder spin_sample) (container_mixin.world spin_sample) = true /\
  ts_vector.with_write_lock LockPolicy.SpinLock 1
      (ts_vector.push_back LockPolicy.SpinLock 9 7%nat) spin_sample = Blocks /\
  ts_vector.with_write_lock LockPolicy.SpinLock 1
      (ts_vector.get_const LockPolicy.SpinLock 9 0 ;; ret tt) spin_sample = Blocks.
Proof.
  split; [reflexivity|]. split; [reflexivity|].
  destruct (vector_locking_member_in_batch_blocks LockPolicy.SpinLock 1 9 7%nat 0
              spin_sample eq_refl eq_refl eq_refl ltac:(lia)) as (Hpush & Hget & _).
  split; [exact Hpush|exact Hget].
Defined.

Lemma vector_empty_access_witness :
  writable (holder empty_sample) (container_mixin.world empty_sample) = true /\
  ts_vector.back LockPolicy.Mutex 1 empty_sample
    = Throw (out_of_range "Vector is empty")
        (at_world empty_sample (after_read empty_sample)) /\
  ts_vector_LockFree.back (contents empty_sample) = Undefined /\
  ts_vector_LockFree.pop_back (contents empty_sample) = Undefined.
Proof.
  split; [reflexivity|].
  destruct (proj1 (vector_empty_access LockPolicy.Mutex 1 empty_sample
                     eq_refl eq_refl ltac:(lia)) eq_refl)
    as (_ & Hback & _ & _ & Hback' & Hpop').
  split; [exact Hback|]. split; [exact Hback'|exact Hpop'].
Defined.

Lemma vector_resize_witness :
  writable (holder mutex_sample) (container_mixin.world mutex_sample) = true /\
  (length (contents mutex_sample) <= 8)%nat /\
  (exists d,
     ts_vector.resize LockPolicy.Mutex 8 1 5 0%nat mutex_sample
       = Ret tt (container_mixin.State (container_mixin.Object mutex_holder d)
                   (after_write mutex_sample)) /\
     length d = 5%nat /\ d !! 1%nat = Some 1%nat /\ d !! 4%nat = Some 0%nat) /\
  ts_vector.resize LockPolicy.Mutex 8 1 9 0%nat mutex_sample
    = Throw (length_error "vector::_M_fill_insert")
        (at_world mutex_sample (after_write mutex_sample)).
Proof.
  assert (Hinv : (length (contents mutex_sample) <= 8)%nat) by (cbn; lia).
  split; [reflexivity|]. split; [exact Hinv|]. split.
  - destruct (proj1 (vector_resize LockPolicy.Mutex 8 1 5 0%nat mutex_sample
                       eq_refl eq_refl ltac:(lia) Hinv) ltac:(lia))
      as (d & Hrun & Hlen & Hold & Hnew & _).
    exists d. split; [exact Hrun|]. split; [exact Hlen|]. split.
    + apply Hold; [lia|reflexivity].
    + apply Hnew; [lia|reflexivity].
  - apply (proj2 (vector_resize LockPolicy.Mutex 8 1 9 0%nat mutex_sample
                    eq_refl eq_refl ltac:(lia) Hinv)). lia.
Defined.

Lemma list_remove_if_witness :
  writable (holder mutex_sample) (container_mixin.world mutex_sample) = true /\
  Z.of_nat (length (contents mutex_sample)) < container_mixin.size_type_modulus /\
  ts_list.remove_if LockPolicy.Mutex 1 (Nat.eqb 3) mutex_sample
    = Ret 2 (container_mixin.State (container_mixin.Object mutex_holder [1%nat])
               (after_write mutex_sample)).
Proof.
  split; [reflexivity|]. split; [reflexivity|].
  exact (proj1 (list_remove_if LockPolicy.Mutex 1 (Nat.eqb 3) mutex_sample
                  eq_refl eq_refl ltac:(lia) eq_refl)).
Defined.

Lemma list_remove_witness :
  writable (holder spin_sample) (container_mixin.world spin_sample) = true /\
  Z.of_nat (length (contents spin_sample)) < container_mixin.size_type_modulus /\
  ts_list.remove Nat.eqb LockPolicy.SpinLock 1 (ts_list.Outside 3%nat) spin_sample
    = Ret 2 (container_mixin.State (container_mixin.Object spin_holder [1%nat])
               (after_write spin_sample)) /\
  ts_list.remove Nat.eqb LockPolicy.SpinLock 1 (ts_list.Element 0) spin_sample
    = Undefined /\
  ts_list.remove Nat.eqb LockPolicy.SpinLock 1 (ts_list.Element 2) spin_sample
    = Ret 2 (container_mixin.State (container_mixin.Object spin_holder [1%nat])
               (after_write spin_sample)).
Proof.
  split; [reflexivity|]. split; [reflexivity|].
  destruct (list_remove Nat.eqb LockPolicy.SpinLock 1 3%nat spin_sample
              eq_refl eq_refl ltac:(lia) eq_refl)
    as (Hrun & _ & _ & Hfront & Hlast).
  split; [exact Hrun|]. split.
  - apply Hfront; [reflexivity|reflexivity|cbn; lia].
  - rewrite (Hlast 2%nat eq_refl eq_refl). exact Hrun.
Defined.

Lemma list_set_ends_witness :
  LockPolicy.Mutex <> LockPolicy.LockFree /\
  writable (holder mutex_sample) (container_mixin.world mutex_sample) = true /\
  ts_list.set_front LockPolicy.Mutex 1 7%nat empty_sample
    = Throw (out_of_range "List is empty")
        (at_world empty_sample (after_write empty_sample)) /\
  ts_list.set_back LockPolicy.Mutex 1 7%nat mutex_sample
    = Ret tt (container_mixin.State (container_mixin.Object mutex_holder [3; 1; 7]%nat)
                (after_write mutex_sample)).
Proof.
  assert (Hlock : LockPolicy.Mutex <> LockPolicy.LockFree) by discriminate.
  split; [exact Hlock|]. split; [reflexivity|]. split.
  - exact (proj1 (proj1 (list_set_ends LockPolicy.Mutex 1 7%nat empty_sample
                           Hlock eq_refl eq_refl ltac:(lia)) eq_refl)).
  - exact (proj1 (proj2 (proj2 (list_set_ends LockPolicy.Mutex 1 7%nat mutex_sample
                                  Hlock eq_refl eq_refl ltac:(lia)))
                    [3; 1]%nat 3%nat eq_refl)).
Defined.

Lemma list_push_pop_front_witness :
  LockPolicy.Mutex <> LockPolicy.LockFree /\
  writable (holder mutex_sample) (container_mixin.world mutex_sample) = true /\
  (ts_list.push_front LockPolicy.Mutex 1 7%nat ;; ts_list.pop_front LockPolicy.Mutex 1)
      mutex_sample
    = Ret tt (at_world mutex_sample
                (with_events (after_write mutex_sample) (write_cycle mutex_holder))) /\
  (ts_list.push_back LockPolicy.Mutex 1 7%nat ;; ts_list.pop_front LockPolicy.Mutex 1)
      mutex_sample
    = Ret tt (container_mixin.State (container_mixin.Object mutex_holder [1; 3; 7]%nat)
                (with_events (after_write mutex_sample) (write_cycle mutex_holder))).
Proof.
  assert (Hlock : LockPolicy.Mutex <> LockPolicy.LockFree) by discriminate.
  split; [exact Hlock|]. split; [reflexivity|].
  destruct (list_push_pop_front LockPolicy.Mutex 1 7%nat mutex_sample
              Hlock eq_refl eq_refl ltac:(lia)) as (_ & Hfront & Hback & _).
  split; [exact Hfront|]. exact (Hback 3%nat [1; 3]%nat eq_refl).
Defined.

Lemma list_unsafe_pop_ignores_empty_witness :
  LockPolicy.Mutex <> LockPolicy.LockFree /\
  writable (holder empty_sample) (container_mixin.world empty_sample) = true /\
  ts_list.unsafe_pop_back empty_sample = Ret tt empty_sample /\
  ts_list.unsafe_pop_front empty_sample = Ret tt empty_sample /\
  ts_list.pop_back LockPolicy.Mutex 1 empty_sample
    = Throw (out_of_range "Cannot pop from empty list")
        (at_world empty_sample (after_write empty_sample)).
Proof.
  assert (Hlock : LockPolicy.Mutex <> LockPolicy.LockFree) by discriminate.
  split; [exact Hlock|]. split; [reflexivity|].
  destruct (proj1 (list_unsafe_pop_ignores_empty LockPolicy.Mutex 1 empty_sample
                     Hlock eq_refl eq_refl ltac:(lia)) eq_refl)
    as (Hback & Hfront & Hpop & _).
  split; [exact Hback|]. split; [exact Hfront|exact Hpop].
Defined.

Lemma spin_lock_guard_move_construction_witness :
  spinlocks free_spin_world !! 0%nat = Some (SpinState false) /\
  exists w',
    (let* g := SpinLockGuard.ctor 1 0 in spin_guard_moved_then_destroyed g)
        free_spin_world = Ret tt w' /\
    spinlocks w' !! 0%nat = Some (SpinState false) /\
    trace w' = [TestAndSet 0 false; Clear 0].
Proof.
  split; [reflexivity|].
  destruct (spin_lock_guard_move_construction 1 0 free_spin_world (SpinState false)
              eq_refl eq_refl ltac:(lia)) as (w' & Hrun & _ & Hfree & Htrace).
  exists w'. split; [exact Hrun|]. split; [exact Hfree|exact Htrace].
Defined.

Lemma spin_lock_guard_move_assignment_leaks_witness :
  spinlocks two_spin_world !! 0%nat = Some (SpinState false) /\
  spinlocks two_spin_world !! 1%nat = Some (SpinState true) /\
  exists w',
    spin_guard_assigned_then_destroyed
        (SpinLockGuard.Guard 0 false) (SpinLockGuard.Guard 1 true) two_spin_world
      = Ret tt w' /\
    spinlocks w' !! 1%nat = Some (SpinState true) /\
    releases (RSpin 1) (trace w') = 0%nat /\
    releases (RSpin 0) (trace w') = 1%nat.
Proof.
  split; [reflexivity|]. split; [reflexivity|].
  destruct (spin_lock_guard_move_assignment_leaks 0 1 false two_spin_world
              (SpinState false) eq_refl eq_refl) as (w' & Hrun & Hleak & _).
  exists w'. split; [exact Hrun|].
  destruct (Hleak ltac:(discriminate)) as (Hheld & Hb & Ha).
  split; [exact Hheld|]. split; [exact Hb|exact Ha].
Defined.

Lemma mixin_find_if_witness :
  readable (holder sample_state) (container_mixin.world sample_state) = true /\
  exists i,
    container_mixin.find_if LockPolicy.ReadWrite 1 (Nat.eqb 1) sample_state
      = Ret i (at_world sample_state (after_read sample_state)) /\
    (i <= 3)%nat.
Proof.
  split; [reflexivity|].
  destruct (mixin_find_if LockPolicy.ReadWrite 1 (Nat.eqb 1) sample_state
              eq_refl eq_refl ltac:(lia)) as (i & Hrun & Hle & _).
  exists i. split; [exact Hrun|exact Hle].
Defined.

Lemma mixin_with_lock_is_exception_safe_witness :
  writable (holder mutex_sample) (container_mixin.world mutex_sample) = true /\
  container_mixin.with_write_lock LockPolicy.Mutex 1
      (throw (logic_error "callback")) mutex_sample
    = Throw (logic_error "callback") (at_world mutex_sample (after_write mutex_sample)) /\
  writable (holder mutex_sample) (after_write mutex_sample) = true.
Proof.
  split; [reflexivity|].
  destruct (mixin_with_lock_is_exception_safe LockPolicy.Mutex 1
              (throw (logic_error "callback")) mutex_sample
              eq_refl eq_refl ltac:(lia)) as (_ & Hthrow & _ & _ & Hfree & _).
  split; [|exact Hfree].
  exact (Hthrow (logic_error "callback") (container_mixin.self mutex_sample) eq_refl).
Defined.

Lemma mixin_manual_guard_scope_witness :
  writable (holder spin_sample) (container_mixin.world spin_sample) = true /\
  exists g,
    container_mixin.acquire_write_guard LockPolicy.SpinLock 1 spin_sample
      = Ret g (at_world spin_sample (write_locked spin_holder free_spin_world)) /\
    container_mixin.guard_dtor g (write_locked spin_holder free_spin_world)
      = Ret tt (after_write spin_sample) /\
    container_mixin.acquire_write_guard LockPolicy.SpinLock 5
        (at_world spin_sample (write_locked spin_holder free_spin_world)) = Blocks.
Proof.
  split; [reflexivity|].
  destruct (mixin_manual_guard_scope LockPolicy.SpinLock 1 5 spin_sample
              eq_refl eq_refl ltac:(lia)) as (g & Hacq & Hdtor & _ & Hlocked & _).
  exists g. split; [exact Hacq|]. split; [exact Hdtor|].
  exact (proj1 (Hlocked eq_refl)).
Defined.

Lemma mixin_for_each_witness :
  readable (holder sample_state) (container_mixin.world sample_state) = true /\
  container_mixin.for_each LockPolicy.ReadWrite 1
      (fun x (u : nat) => Ret tt (x + u)%nat) (sample_state, 0%nat)
    = Ret tt (at_world sample_state (after_read sample_state), 7%nat).
Proof.
  split; [reflexivity|].
  exact (proj1 (proj2 (mixin_for_each LockPolicy.ReadWrite 1
                         (fun x (u : nat) => Ret tt (x + u)%nat) sample_state 0%nat
                         eq_refl eq_refl ltac:(lia)))
           (fun x u => (x + u)%nat) (fun _ _ => eq_refl)).
Defined.

Lemma map_set_then_get_witness :
  keys_ascending Z.ltb (contents sample_map) /\
  writable (holder sample_map) (container_mixin.world sample_map) = true /\
  (ts_map.set Z.ltb LockPolicy.Mutex 1 2 20 ;; ts_map.get Z.ltb LockPolicy.Mutex 1 2 0)
      sample_map
    = Ret 20
        (container_mixin.State
           (container_mixin.Object mutex_holder [(1, 10); (2, 20); (3, 30)])
           (with_events (after_write sample_map) (read_cycle mutex_holder))) /\
  (ts_map.set Z.ltb LockPolicy.Mutex 1 2 20 ;; ts_map.get Z.ltb LockPolicy.Mutex 1 3 0)
      sample_map
    = Ret 30
        (container_mixin.State
           (container_mixin.Object mutex_holder [(1, 10); (2, 20); (3, 30)])
           (with_events (after_write sample_map) (read_cycle mutex_holder))).
Proof.
  split; [exact sample_map_ascending|]. split; [reflexivity|].
  destruct (map_set_then_get Z.ltb Z_ltb_strict_total_order LockPolicy.Mutex 1 2 20 0
              sample_map sample_map_ascending eq_refl eq_refl ltac:(lia))
    as (_ & _ & Hsame & Hother).
  split; [exact Hsame|]. exact (Hother 3 ltac:(discriminate)).
Defined.

Lemma map_get_missing_key_witness :
  keys_ascending Z.ltb (contents sample_map) /\
  mapped Z.ltb (contents sample_map) 2 = None /\
  ts_map.get Z.ltb LockPolicy.Mutex 1 2 (-1) sample_map
    = Ret (-1) (at_world sample_map (after_read sample_map)) /\
  exists m',
    ts_map.unsafe_at Z.ltb 2 0 sample_map
      = Ret 0 (container_mixin.State (container_mixin.Object mutex_holder m')
                 free_mutex_world) /\
    length m' = 3%nat.
Proof.
  split; [exact sample_map_ascending|]. split; [reflexivity|].
  destruct (map_get_missing_key Z.ltb Z_ltb_strict_total_order LockPolicy.Mutex 1 2 (-1) 0
              sample_map sample_map_ascending eq_refl eq_refl ltac:(lia) eq_refl)
    as (Hget & _ & m' & Hat & _ & Hlen).
  split; [exact Hget|]. exists m'. split; [exact Hat|exact Hlen].
Defined.

Lemma map_insert_keeps_existing_witness :
  keys_ascending Z.ltb (contents sample_map) /\
  writable (holder sample_map) (container_mixin.world sample_map) = true /\
  ts_map.insert Z.ltb LockPolicy.Mutex 1 3 99 sample_map
    = Ret (false, 1) (at_world sample_map (after_write sample_map)) /\
  ts_map.insert Z.ltb LockPolicy.Mutex 1 2 20 sample_map
    = Ret (true, 1)
        (container_mixin.State
           (container_mixin.Object mutex_holder [(1, 10); (2, 20); (3, 30)])
           (after_write sample_map)).
Proof.
  split; [exact sample_map_ascending|]. split; [reflexivity|]. split.
  - destruct (map_insert_keeps_existing Z.ltb Z_ltb_strict_total_order LockPolicy.Mutex
                1 3 99 0 sample_map sample_map_ascending eq_refl eq_refl ltac:(lia))
      as (_ & _ & Hpresent & _).
    exact (proj1 (Hpresent 30 eq_refl)).
  - destruct (map_insert_keeps_existing Z.ltb Z_ltb_strict_total_order LockPolicy.Mutex
                1 2 20 0 sample_map sample_map_ascending eq_refl eq_refl ltac:(lia))
      as (_ & _ & _ & Habsent).
    exact (proj1 (Habsent eq_refl)).
Defined.

Lemma map_erase_witness :
  keys_ascending Z.ltb (contents sample_map) /\
  writable (holder sample_map) (container_mixin.world sample_map) = true /\
  exists m',
    ts_map.erase Z.ltb LockPolicy.Mutex 1 3 sample_map
      = Ret 1 (container_mixin.State (container_mixin.Object mutex_holder m')
                 (after_write sample_map)) /\
    mapped Z.ltb m' 3 = None /\
    mapped Z.ltb m' 1 = Some 10 /\
    length m' = 1%nat.
Proof.
  split; [exact sample_map_ascending|]. split; [reflexivity|].
  destruct (map_erase Z.ltb Z_ltb_strict_total_order LockPolicy.Mutex 1 3 sample_map
              sample_map_ascending eq_refl eq_refl ltac:(lia))
    as (m' & Hrun & _ & Hgone & Hframe & Hlen & _).
  exists m'. split; [exact Hrun|]. split; [exact Hgone|]. split; [|exact Hlen].
  rewrite (Hframe 1 ltac:(discriminate)). reflexivity.
Defined.
